(** * The release build script of hydrogen-web: asset registry, cache tiers
      and release fingerprint

    A shallow embedding of the build script of the repository: the
    [AssetMap] class, [contentHash], [isPreCached],
    [buildServiceWorker], [removeDirIfExists] and the fingerprint step of
    [build]; then [findThemes], [createDirs], [copyFolder],
    [copyThemeAssets] and [buildCssBundles] with its [assetUrlMapper].

    What [fs.readdir] and [fs.readFile] answer to [copyFolder] is given as
    a tree, and [fs.mkdir] and the [buildFn] of [buildCssBundles] are
    variables of the sections that use them.

    Conventions of the embedding.
    - A JavaScript string is a Rocq [string], one character per code unit,
      the code units being those below 256; [String.compare] is the
      code-unit order that [Array.prototype.sort] uses by default.  A
      [Buffer] is a Rocq [string] as well, one character per byte; where a
      string becomes bytes, it becomes its UTF-8 bytes.
    - The functions of the host that the script calls ([path.*] of Node,
      [String.prototype.*], [Map], [JSON.stringify]) are written out below
      for POSIX paths.  The digest [xxhash.h32] and the file system are
      variables of the section that holds the script.
    - A method that mutates its receiver and may throw is a function from
      the state before to a completion and the state after: what was
      mutated before a [throw] stays mutated. *)

From Stdlib Require Import String Ascii List Bool Arith NArith ZArith Lia.
From Stdlib Require Import Permutation Sorted Orders Mergesort DecimalString.
Import ListNotations.

Local Open Scope string_scope.

(** ** Strings of the host *)

Module Js.

(** The double quote, which the placeholders of the templates contain. *)
Definition dquote : ascii := ascii_of_nat 34.
Definition quoted (s : string) : string :=
  String dquote (s ++ String dquote EmptyString).

(** [s.startsWith(p)] *)
Definition startsWith (s p : string) : bool := String.prefix p s.

(** [s.substr(n)]: what is left of [s] from index [n] on, the empty string
    when [n] is past the end. *)
Fixpoint substr (s : string) (n : nat) : string :=
  match n, s with
  | O, _ => s
  | S _, EmptyString => EmptyString
  | S n', String _ s' => substr s' n'
  end.

(** [s.endsWith(p)] *)
Definition endsWith (s p : string) : bool :=
  (String.length p <=? String.length s)%nat
  && String.eqb (substr s (String.length s - String.length p)) p.

(** [s.slice(a, b)] for [0 <= a]; empty when [b <= a]. *)
Definition slice (s : string) (a b : Z) : string :=
  String.substring (Z.to_nat a) (Z.to_nat (b - a)) s.

(** [s.charCodeAt(i)], [None] standing for [NaN] out of range. *)
Definition charCodeAt (s : string) (i : Z) : option ascii :=
  if (i <? 0)%Z then None else String.get (Z.to_nat i) s.

Definition charIs (s : string) (i : Z) (c : ascii) : bool :=
  match charCodeAt s i with
  | Some d => Ascii.eqb d c
  | None => false
  end.

(** [s.lastIndexOf(c)] for a one-character pattern, [-1] when absent. *)
Fixpoint lastIndexOf_from (s : string) (c : ascii) (i : Z) (found : Z) : Z :=
  match s with
  | EmptyString => found
  | String d s' =>
      lastIndexOf_from s' c (i + 1) (if Ascii.eqb d c then i else found)
  end.
Definition lastIndexOf (s : string) (c : ascii) : Z :=
  lastIndexOf_from s c 0 (-1).

Definition len (s : string) : Z := Z.of_nat (String.length s).

(** [!s] for a value that is a string or [undefined]. *)
Definition falsy (v : option string) : bool :=
  match v with
  | None => true
  | Some s => String.eqb s ""
  end.

(** [String(n)] for a number that is an unsigned integer. *)
Definition toString (n : N) : string :=
  NilEmpty.string_of_uint (N.to_uint n).

(** [l.join(sep)] on an array of strings. *)
Definition join (sep : string) (l : list string) : string :=
  String.concat sep l.

(** The UTF-8 bytes of a string: one byte for a code unit below 128, the
    two bytes [0xC0 | (c >> 6)] and [0x80 | (c & 0x3F)] for a code unit
    [c] from 128 to 255. *)
Definition utf8_unit (c : ascii) : string :=
  let n := nat_of_ascii c in
  if (n <? 128)%nat then String c EmptyString
  else String (ascii_of_nat (192 + n / 64))
         (String (ascii_of_nat (128 + n mod 64)) EmptyString).

Fixpoint utf8 (s : string) : string :=
  match s with
  | EmptyString => EmptyString
  | String c s' => utf8_unit c ++ utf8 s'
  end.

(** [l.includes(x)] on an array of strings. *)
Definition includes (l : list string) (x : string) : bool :=
  existsb (String.eqb x) l.

End Js.

(** ** [path] of Node, POSIX flavour *)

Module Path.

Definition CHAR_FORWARD_SLASH : ascii := "/"%char.
Definition CHAR_DOT : ascii := "."%char.

Definition isPosixPathSeparator (c : ascii) : bool :=
  Ascii.eqb c CHAR_FORWARD_SLASH.

(** [path.isAbsolute(p)] *)
Definition isAbsolute (p : string) : bool :=
  match p with
  | String c _ => isPosixPathSeparator c
  | EmptyString => false
  end.

(** The loop state of [normalizeString]. *)
Record NormState := mkNorm {
  res : string;
  lastSegmentLength : Z;
  lastSlash : Z;
  dots : Z;
  code : ascii
}.

(** One segment end met at index [i] (a separator, or the end of the
    path). *)
Definition normalize_separator (path : string) (allowAboveRoot : bool)
    (i : Z) (st : NormState) (c : ascii) : NormState :=
  let r := res st in
  if (lastSlash st =? i - 1)%Z || (dots st =? 1)%Z then
    mkNorm r (lastSegmentLength st) i 0 c
  else if (dots st =? 2)%Z then
    let above :=
      let r' := if allowAboveRoot
                then (if (0 <? Js.len r)%Z then r ++ "/.." else "..")
                else r in
      let lsl := if allowAboveRoot then 2%Z else lastSegmentLength st in
      mkNorm r' lsl i 0 c in
    if (Js.len r <? 2)%Z
       || negb (lastSegmentLength st =? 2)%Z
       || negb (Js.charIs r (Js.len r - 1) CHAR_DOT)
       || negb (Js.charIs r (Js.len r - 2) CHAR_DOT)
    then
      if (2 <? Js.len r)%Z then
        let lastSlashIndex := Js.lastIndexOf r CHAR_FORWARD_SLASH in
        if (lastSlashIndex =? -1)%Z then mkNorm "" 0 i 0 c
        else
          let r' := Js.slice r 0 lastSlashIndex in
          mkNorm r' (Js.len r' - 1 - Js.lastIndexOf r' CHAR_FORWARD_SLASH)
                 i 0 c
      else if negb (Js.len r =? 0)%Z then mkNorm "" 0 i 0 c
      else above
    else above
  else
    let seg := Js.slice path (lastSlash st + 1) i in
    let r' := if (0 <? Js.len r)%Z then r ++ "/" ++ seg else seg in
    mkNorm r' (i - lastSlash st - 1) i 0 c.

Definition normalize_step (path : string) (allowAboveRoot : bool)
    (i : Z) (st : NormState) (c : ascii) : NormState :=
  if isPosixPathSeparator c then normalize_separator path allowAboveRoot i st c
  else if Ascii.eqb c CHAR_DOT && negb (dots st =? -1)%Z then
    mkNorm (res st) (lastSegmentLength st) (lastSlash st) (dots st + 1) c
  else
    mkNorm (res st) (lastSegmentLength st) (lastSlash st) (-1) c.

(** [for (let i = 0; i <= path.length; ++i)], [n] iterations left. *)
Fixpoint normalize_loop (path : string) (allowAboveRoot : bool)
    (n : nat) (i : Z) (st : NormState) : string :=
  match n with
  | O => res st
  | S n' =>
      match Js.charCodeAt path i with
      | Some c =>
          normalize_loop path allowAboveRoot n' (i + 1)
            (normalize_step path allowAboveRoot i st c)
      | None =>
          if isPosixPathSeparator (code st) then res st
          else
            normalize_loop path allowAboveRoot n' (i + 1)
              (normalize_step path allowAboveRoot i st CHAR_FORWARD_SLASH)
      end
  end.

Definition normalizeString (path : string) (allowAboveRoot : bool) : string :=
  normalize_loop path allowAboveRoot (S (String.length path)) 0
    (mkNorm "" 0 (-1) 0 zero).

(** [path.normalize(p)] *)
Definition normalize (path : string) : string :=
  if (String.length path =? 0)%nat then "."
  else
    let isAbs := Js.charIs path 0 CHAR_FORWARD_SLASH in
    let trailingSeparator :=
      Js.charIs path (Js.len path - 1) CHAR_FORWARD_SLASH in
    let p := normalizeString path (negb isAbs) in
    if (String.length p =? 0)%nat then
      if isAbs then "/" else if trailingSeparator then "./" else "."
    else
      let p := if trailingSeparator then p ++ "/" else p in
      if isAbs then "/" ++ p else p.

(** The arguments of [path.join] that are not empty, glued with [/]. *)
Fixpoint joined (args : list string) (acc : option string) : option string :=
  match args with
  | [] => acc
  | arg :: rest =>
      if (0 <? String.length arg)%nat then
        joined rest (match acc with
                     | None => Some arg
                     | Some j => Some (j ++ "/" ++ arg)
                     end)
      else joined rest acc
  end.

(** [path.join(...args)] *)
Definition join (args : list string) : string :=
  match joined args None with
  | None => "."
  | Some j => normalize j
  end.

(** [path.resolve(p)] of one argument, [cwd] being [process.cwd()]. *)
Definition resolve (cwd : string) (p : string) : string :=
  let step (path : string) (acc : string * bool) :=
    if snd acc then acc
    else if (String.length path =? 0)%nat then acc
    else (path ++ "/" ++ fst acc, Js.charIs path 0 CHAR_FORWARD_SLASH) in
  let '(resolvedPath, resolvedAbsolute) := step cwd (step p ("", false)) in
  let r := normalizeString resolvedPath (negb resolvedAbsolute) in
  if resolvedAbsolute then "/" ++ r
  else if (0 <? String.length r)%nat then r else ".".

(** [for (let i = path.length - 1; i >= 1; --i)] of [dirname]; the result
    is [end]. *)
Fixpoint dirname_loop (path : string) (n : nat) (matchedSlash : bool) : Z :=
  match n with
  | O => -1
  | S i =>
      if (i <? 1)%nat then -1
      else if Js.charIs path (Z.of_nat i) CHAR_FORWARD_SLASH then
        if negb matchedSlash then Z.of_nat i
        else dirname_loop path i matchedSlash
      else dirname_loop path i false
  end.

(** [path.dirname(p)] *)
Definition dirname (path : string) : string :=
  if (String.length path =? 0)%nat then "."
  else
    let hasRoot := Js.charIs path 0 CHAR_FORWARD_SLASH in
    let end_ := dirname_loop path (String.length path) true in
    if (end_ =? -1)%Z then (if hasRoot then "/" else ".")
    else if hasRoot && (end_ =? 1)%Z then "//"
    else Js.slice path 0 end_.

(** The loop state of [extname]. *)
Record ExtState := mkExt {
  startDot : Z;
  startPart : Z;
  ext_end : Z;
  ext_matchedSlash : bool;
  preDotState : Z
}.

Fixpoint extname_loop (path : string) (n : nat) (st : ExtState) : ExtState :=
  match n with
  | O => st
  | S i =>
      let iz := Z.of_nat i in
      if Js.charIs path iz CHAR_FORWARD_SLASH then
        if negb (ext_matchedSlash st) then
          mkExt (startDot st) (iz + 1) (ext_end st) (ext_matchedSlash st)
                (preDotState st)
        else extname_loop path i st
      else
        let st1 :=
          if (ext_end st =? -1)%Z
          then mkExt (startDot st) (startPart st) (iz + 1) false
                     (preDotState st)
          else st in
        let st2 :=
          if Js.charIs path iz CHAR_DOT then
            if (startDot st1 =? -1)%Z
            then mkExt iz (startPart st1) (ext_end st1)
                       (ext_matchedSlash st1) (preDotState st1)
            else if negb (preDotState st1 =? 1)%Z
            then mkExt (startDot st1) (startPart st1) (ext_end st1)
                       (ext_matchedSlash st1) 1
            else st1
          else if negb (startDot st1 =? -1)%Z
          then mkExt (startDot st1) (startPart st1) (ext_end st1)
                     (ext_matchedSlash st1) (-1)
          else st1 in
        extname_loop path i st2
  end.

(** [path.extname(p)] *)
Definition extname (path : string) : string :=
  let st := extname_loop path (String.length path)
              (mkExt (-1) 0 (-1) true 0) in
  if (startDot st =? -1)%Z || (ext_end st =? -1)%Z
     || (preDotState st =? 0)%Z
     || ((preDotState st =? 1)%Z
         && (startDot st =? ext_end st - 1)%Z
         && (startDot st =? startPart st + 1)%Z)
  then ""
  else Js.slice path (startDot st) (ext_end st).

(** The loop state of [basename] when an extension is given. *)
Record BaseState := mkBase {
  b_start : Z;
  b_end : Z;
  b_matchedSlash : bool;
  extIdx : Z;
  firstNonSlashEnd : Z
}.

Fixpoint basename_ext_loop (path ext : string) (n : nat) (st : BaseState)
    : BaseState :=
  match n with
  | O => st
  | S i =>
      let iz := Z.of_nat i in
      if Js.charIs path iz CHAR_FORWARD_SLASH then
        if negb (b_matchedSlash st) then
          mkBase (iz + 1) (b_end st) (b_matchedSlash st) (extIdx st)
                 (firstNonSlashEnd st)
        else basename_ext_loop path ext i st
      else
        let st1 :=
          if (firstNonSlashEnd st =? -1)%Z
          then mkBase (b_start st) (b_end st) false (extIdx st) (iz + 1)
          else st in
        let st2 :=
          if (0 <=? extIdx st1)%Z then
            if match Js.charCodeAt path iz, Js.charCodeAt ext (extIdx st1) with
               | Some c, Some d => Ascii.eqb c d
               | _, _ => false
               end
            then
              let e := (extIdx st1 - 1)%Z in
              mkBase (b_start st1) (if (e =? -1)%Z then iz else b_end st1)
                     (b_matchedSlash st1) e (firstNonSlashEnd st1)
            else
              mkBase (b_start st1) (firstNonSlashEnd st1)
                     (b_matchedSlash st1) (-1) (firstNonSlashEnd st1)
          else st1 in
        basename_ext_loop path ext i st2
  end.

(** The loop of [basename] without an extension: [(start, end)]. *)
Fixpoint basename_loop (path : string) (n : nat) (end_ : Z)
    (matchedSlash : bool) : Z * Z :=
  match n with
  | O => (0%Z, end_)
  | S i =>
      let iz := Z.of_nat i in
      if Js.charIs path iz CHAR_FORWARD_SLASH then
        if negb matchedSlash then ((iz + 1)%Z, end_)
        else basename_loop path i end_ matchedSlash
      else if (end_ =? -1)%Z then basename_loop path i (iz + 1)%Z false
      else basename_loop path i end_ matchedSlash
  end.

(** [path.basename(p, ext)] *)
Definition basename (path ext : string) : string :=
  if (0 <? String.length ext)%nat
     && (String.length ext <=? String.length path)%nat
  then
    if String.eqb ext path then ""
    else
      let st := basename_ext_loop path ext (String.length path)
                  (mkBase 0 (-1) true (Js.len ext - 1) (-1)) in
      let end_ :=
        if (b_start st =? b_end st)%Z then firstNonSlashEnd st
        else if (b_end st =? -1)%Z then Js.len path
        else b_end st in
      Js.slice path (b_start st) end_
  else
    let '(start, end_) := basename_loop path (String.length path) (-1) true in
    if (end_ =? -1)%Z then "" else Js.slice path start end_.

End Path.

(** ** [Map] of the host, with string keys and values

    A [Map] iterates in insertion order, and [set] on a key that is present
    keeps the key where it is: an association list, the first binding of a
    key being the binding. *)

Module JsMap.

Definition t := list (string * string).

Fixpoint set (m : t) (k v : string) : t :=
  match m with
  | [] => [(k, v)]
  | (k', v') :: m' =>
      if String.eqb k' k then (k', v) :: m' else (k', v') :: set m' k v
  end.

Fixpoint get (m : t) (k : string) : option string :=
  match m with
  | [] => None
  | (k', v') :: m' => if String.eqb k' k then Some v' else get m' k
  end.

Definition has (m : t) (k : string) : bool :=
  match get m k with Some _ => true | None => false end.

Definition size (m : t) : nat := List.length m.

Definition entries (m : t) : list (string * string) := m.

Definition keys (m : t) : list string := map fst m.

End JsMap.

(** ** Errors and completions *)

(** A thrown value: an [Error] with its message, and the [code] that the
    errors of [fs] carry. *)
Record JsError := mkJsError {
  err_code : option string;
  err_message : string
}.

(** [new Error(msg)] *)
Definition Error (msg : string) : JsError := mkJsError None msg.

Inductive completion (A : Type) : Type :=
| Normal (a : A)
| Throw (e : JsError).
Arguments Normal {A} a.
Arguments Throw {A} e.

(** A computation over a state that outlives a [throw]. *)
Definition M (St A : Type) : Type := St -> completion A * St.

Definition ret {St A} (a : A) : M St A := fun s => (Normal a, s).
Definition throw {St A} (e : JsError) : M St A := fun s => (Throw e, s).
Definition bind {St A B} (c : M St A) (k : A -> M St B) : M St B :=
  fun s =>
    match c s with
    | (Normal a, s') => k a s'
    | (Throw e, s') => (Throw e, s')
    end.
Definition get_state {St} : M St St := fun s => (Normal s, s).
Definition put_state {St} (s : St) : M St unit := fun _ => (Normal tt, s).

(** [try { c } catch (err) { h err }] *)
Definition try_catch {St A} (c : M St A) (h : JsError -> M St A) : M St A :=
  fun s =>
    match c s with
    | (Normal a, s') => (Normal a, s')
    | (Throw e, s') => h e s'
    end.

(** A computation on the first or on the second half of a pair of states. *)
Definition on_fst {S1 S2 A} (c : M S1 A) : M (S1 * S2) A :=
  fun s => let '(r, s1) := c (fst s) in (r, (s1, snd s)).
Definition on_snd {S1 S2 A} (c : M S2 A) : M (S1 * S2) A :=
  fun s => let '(r, s2) := c (snd s) in (r, (fst s, s2)).

Declare Scope js_scope.
Delimit Scope js_scope with js.
Notation "x <- c ;; k" := (bind c (fun x => k))
  (at level 61, c at next level, right associativity) : js_scope.
Notation "c ;;; k" := (bind c (fun _ => k))
  (at level 61, right associativity) : js_scope.

(** ** The default order of [Array.prototype.sort] on strings *)

Module StringOrder <: TotalLeBool.
Definition t := string.
Definition leb : t -> t -> bool := String.leb.
Theorem leb_total : forall a1 a2, leb a1 a2 = true \/ leb a2 a1 = true.
Proof. exact String.leb_total. Qed.
End StringOrder.

Module StringSort := Sort StringOrder.

(** [l.sort()] on an array of strings. *)
Definition Array_sort (l : list string) : list string := StringSort.sort l.

(** ** [String.prototype.replace] with a string pattern, [JSON.stringify] *)

Module JsText.

(** The first occurrence of [pat] in [s]: what is before and after it. *)
Fixpoint split_first (pat s : string) : option (string * string) :=
  if String.prefix pat s then Some ("", Js.substr s (String.length pat))
  else
    match s with
    | EmptyString => None
    | String c s' =>
        match split_first pat s' with
        | Some (b, a) => Some (String c b, a)
        | None => None
        end
    end.

(** [GetSubstitution] without captures: [$$], [$&], [$`] and [$'] are
    replaced, every other character stands for itself. *)
Fixpoint getSubstitution (matched before after repl : string) : string :=
  match repl with
  | EmptyString => EmptyString
  | String c rest =>
      if Ascii.eqb c "$"%char then
        match rest with
        | EmptyString => String c EmptyString
        | String d rest' =>
            if Ascii.eqb d "$"%char
            then String "$"%char (getSubstitution matched before after rest')
            else if Ascii.eqb d "&"%char
            then matched ++ getSubstitution matched before after rest'
            else if Ascii.eqb d "`"%char
            then before ++ getSubstitution matched before after rest'
            else if Ascii.eqb d "'"%char
            then after ++ getSubstitution matched before after rest'
            else String c (getSubstitution matched before after rest)
        end
      else String c (getSubstitution matched before after rest)
  end.

(** [s.replace(pat, repl)] *)
Definition replace (s pat repl : string) : string :=
  match split_first pat s with
  | None => s
  | Some (b, a) => b ++ getSubstitution pat b a repl ++ a
  end.

Definition hexDigit (n : nat) : ascii :=
  if (n <? 10)%nat then ascii_of_nat (48 + n) else ascii_of_nat (87 + n).

(** [QuoteJSONString] on one code unit. *)
Definition quoteChar (c : ascii) : string :=
  let n := nat_of_ascii c in
  if (n =? 8)%nat then "\b"
  else if (n =? 9)%nat then "\t"
  else if (n =? 10)%nat then "\n"
  else if (n =? 12)%nat then "\f"
  else if (n =? 13)%nat then "\r"
  else if (n =? 34)%nat then String "\"%char (String Js.dquote EmptyString)
  else if (n =? 92)%nat then "\\"
  else if (n <? 32)%nat
  then "\u00" ++ String (hexDigit (n / 16)) (String (hexDigit (n mod 16)) EmptyString)
  else String c EmptyString.

Fixpoint quoteBody (s : string) : string :=
  match s with
  | EmptyString => EmptyString
  | String c s' => quoteChar c ++ quoteBody s'
  end.

Definition quoteJSONString (s : string) : string :=
  String Js.dquote (quoteBody s ++ String Js.dquote EmptyString).

(** [JSON.stringify(l)] on an array of strings. *)
Definition stringify (l : list string) : string :=
  "[" ++ Js.join "," (map quoteJSONString l) ++ "]".

End JsText.

(** ** The parts of the script that need no state *)

(** The content handed to [write]: a string, or a [Buffer] of bytes. *)
Inductive Content : Type :=
| Text (s : string)
| Bytes (b : string).

(** [typeof content === "string"] *)
Definition is_string (c : Content) : bool :=
  match c with Text _ => true | Bytes _ => false end.

(** [Buffer.from(content)]: the UTF-8 bytes of a string, the bytes of a
    [Buffer]. *)
Definition Buffer_from (c : Content) : string :=
  match c with Text s => Js.utf8 s | Bytes b => b end.

Definition SERVICEWORKER_NONCACHED_ASSETS : list string :=
  [ "hydrogen-legacy.js"; "olm_legacy.js"; "sw.js" ].

Definition isPreCached (asset : string) : bool :=
  Js.endsWith asset ".svg" ||
  Js.endsWith asset ".png" ||
  Js.endsWith asset ".css" ||
  Js.endsWith asset ".wasm" ||
  (Js.endsWith asset ".js" && negb (String.eqb asset "worker.js")).

(** The three lists that [buildServiceWorker] fills. *)
Record SwLists := mkSwLists {
  unhashedPreCachedAssets : list string;
  hashedPreCachedAssets : list string;
  hashedCachedOnRequestAssets : list string
}.

(** The body of [for (const [unresolved, resolved] of assets)]; [push] adds
    at the end. *)
Definition sw_visit (acc : SwLists) (entry : string * string) : SwLists :=
  let '(unresolved, resolved) := entry in
  if Js.includes SERVICEWORKER_NONCACHED_ASSETS unresolved then acc
  else if String.eqb unresolved resolved then
    mkSwLists (unhashedPreCachedAssets acc ++ [resolved])%list
              (hashedPreCachedAssets acc)
              (hashedCachedOnRequestAssets acc)
  else if isPreCached unresolved then
    mkSwLists (unhashedPreCachedAssets acc)
              (hashedPreCachedAssets acc ++ [resolved])%list
              (hashedCachedOnRequestAssets acc)
  else
    mkSwLists (unhashedPreCachedAssets acc)
              (hashedPreCachedAssets acc)
              (hashedCachedOnRequestAssets acc ++ [resolved])%list.

(** The lists of [buildServiceWorker] once the registry has been iterated. *)
Definition sw_lists (entries : list (string * string)) : SwLists :=
  fold_left sw_visit entries (mkSwLists ["index.html"] [] []).

(** ** What the script takes from its environment *)

(** The digest of [xxhashjs], the promises of [fs] that the script awaits,
    [process.cwd()] and the project directory.  An operation of [fs] either
    completes or throws, and leaves a file system behind in both cases. *)
Class Host := {
  FS : Type;
  (** [new xxhash.h32(seed)], [update(data)], [digest()] *)
  xxh32 : N -> string -> N;
  (** [fs.writeFile(path, content, encoding)] *)
  fs_writeFile : string -> Content -> option string -> M FS unit;
  (** [fs.readFile(path, "utf8")] *)
  fs_readFile : string -> M FS string;
  (** [fs.rmdir(path, {recursive: true})] *)
  fs_rmdir : string -> M FS unit;
  cwd : string;
  projectDir : string
}.

(** ** The script *)

Section Script.

Context {host : Host}.

Local Open Scope js_scope.

(** [contentHash(str)], called with a string or with a [Buffer]:
    [hasher.update] digests a string as its UTF-8 bytes. *)
Definition contentHash (str : Content) : N :=
  xxh32 0 (match str with Text s => Js.utf8 s | Bytes b => b end).

(** *** [class AssetMap] *)

Record AssetMap := mkAssetMap {
  _targetDir : string;
  _assets : JsMap.t
}.

(** [new AssetMap(targetDir)] *)
Definition new_AssetMap (targetDir : string) : AssetMap :=
  mkAssetMap (Path.resolve cwd targetDir) [].

(** [get directory()] *)
Definition directory (this : AssetMap) : string := _targetDir this.

(** [get size()] *)
Definition size (this : AssetMap) : nat := JsMap.size (_assets this).

(** [has(relPath)] *)
Definition has (this : AssetMap) (relPath : string) : bool :=
  JsMap.has (_assets this) relPath.

(** [[Symbol.iterator]()] *)
Definition iterator (this : AssetMap) : list (string * string) :=
  JsMap.entries (_assets this).

(** [this._assets.set(k, v)] *)
Definition assets_set (k v : string) : M AssetMap unit :=
  fun this => (Normal tt, mkAssetMap (_targetDir this) (JsMap.set (_assets this) k v)).

Definition _toRelPath (resourcePath : string) : M AssetMap string :=
  this <- get_state ;;
  if Path.isAbsolute resourcePath then
    if negb (Js.startsWith resourcePath (_targetDir this)) then
      throw (Error ("absolute path " ++ resourcePath
                    ++ " that is not within target dir " ++ _targetDir this))
    else
      ret (Js.substr resourcePath (String.length (_targetDir this) + 1))
  else ret resourcePath.

Definition _create (resourcePath : string) (content : Content)
    : M AssetMap string :=
  relPath <- _toRelPath resourcePath ;;
  let hash := contentHash (Bytes (Buffer_from content)) in
  let dir := Path.dirname relPath in
  let extname := Path.extname relPath in
  let basename := Path.basename relPath extname in
  let dstRelPath :=
    Path.join [dir; basename ++ "-" ++ Js.toString hash ++ extname] in
  assets_set relPath dstRelPath ;;;
  ret dstRelPath.

(** The two branches of [typeof content === "string"]. *)
Definition writeContent (fullPath : string) (content : Content) : M FS unit :=
  if is_string content then fs_writeFile fullPath content (Some "utf8")
  else fs_writeFile fullPath content None.

Definition write (resourcePath : string) (content : Content)
    : M (AssetMap * FS) string :=
  relPath <- on_fst (_create resourcePath content) ;;
  this <- on_fst get_state ;;
  let fullPath := Path.join [directory this; relPath] in
  on_snd (writeContent fullPath content) ;;;
  ret relPath.

Definition writeUnhashed (resourcePath : string) (content : Content)
    : M (AssetMap * FS) string :=
  relPath <- on_fst (_toRelPath resourcePath) ;;
  on_fst (assets_set relPath relPath) ;;;
  this <- on_fst get_state ;;
  let fullPath := Path.join [directory this; relPath] in
  on_snd (writeContent fullPath content) ;;;
  ret relPath.

Definition resolve (resourcePath : string) : M AssetMap string :=
  relPath <- _toRelPath resourcePath ;;
  this <- get_state ;;
  match JsMap.get (_assets this) relPath with
  | Some result =>
      if Js.falsy (Some result) then
        throw (Error ("unknown path: " ++ relPath ++ ", only know "
                      ++ Js.join ", " (JsMap.keys (_assets this))))
      else ret result
  | None =>
      throw (Error ("unknown path: " ++ relPath ++ ", only know "
                    ++ Js.join ", " (JsMap.keys (_assets this))))
  end.

(** The body of the loop of [addSubMap]. *)
Definition addSubMap_visit (relSubRoot : string) (m : JsMap.t)
    (entry : string * string) : JsMap.t :=
  let '(key, value) := entry in
  JsMap.set m (Path.join [relSubRoot; key]) (Path.join [relSubRoot; value]).

(** [addSubMap(assetMap)], [assetMap] being another object than [this]. *)
Definition addSubMap (assetMap : AssetMap) : M AssetMap unit :=
  this <- get_state ;;
  if negb (Js.startsWith (directory assetMap) (directory this)) then
    throw (Error ("map directory doesn't start with this directory: "
                  ++ directory assetMap ++ " " ++ directory this))
  else
    let relSubRoot :=
      Js.substr (directory assetMap) (String.length (directory this) + 1) in
    put_state (mkAssetMap (_targetDir this)
                 (fold_left (addSubMap_visit relSubRoot)
                    (JsMap.entries (_assets assetMap)) (_assets this))).

Definition isUnhashed (relPath : string) : M AssetMap bool :=
  this <- get_state ;;
  match JsMap.get (_assets this) relPath with
  | Some resolvedPath =>
      if Js.falsy (Some resolvedPath) then
        throw (Error ("Unknown asset: " ++ relPath))
      else ret (String.eqb relPath resolvedPath)
  | None => throw (Error ("Unknown asset: " ++ relPath))
  end.

(** *** The functions of the script *)

(** The fingerprint step of [build]: the resolved paths of the registry,
    sorted, joined with commas and digested. *)
Definition build_globalHash (assets : AssetMap) : N :=
  let globalHashAssets := map (fun entry => snd entry) (iterator assets) in
  let globalHashAssets := Array_sort globalHashAssets in
  contentHash (Text (Js.join "," globalHashAssets)).

Definition removeDirIfExists (targetDir : string) : M FS unit :=
  try_catch (fs_rmdir targetDir)
    (fun err =>
       if negb (match err_code err with
                | Some c => String.eqb c "ENOENT"
                | None => false
                end)
       then throw err
       else ret tt).

Definition buildServiceWorker (globalHash : N) : M (AssetMap * FS) unit :=
  assets <- on_fst get_state ;;
  let lists := sw_lists (iterator assets) in
  swSource <- on_snd (fs_readFile
                (Path.join [projectDir; "src/service-worker.template.js"])) ;;
  let swSource := JsText.replace swSource (Js.quoted "%%GLOBAL_HASH%%")
                    (Js.quoted (Js.toString globalHash)) in
  let swSource := JsText.replace swSource
                    (Js.quoted "%%UNHASHED_PRECACHED_ASSETS%%")
                    (JsText.stringify (unhashedPreCachedAssets lists)) in
  let swSource := JsText.replace swSource
                    (Js.quoted "%%HASHED_PRECACHED_ASSETS%%")
                    (JsText.stringify (hashedPreCachedAssets lists)) in
  let swSource := JsText.replace swSource
                    (Js.quoted "%%HASHED_CACHED_ON_REQUEST_ASSETS%%")
                    (JsText.stringify (hashedCachedOnRequestAssets lists)) in
  writeUnhashed "sw.js" (Text swSource) ;;;
  ret tt.

End Script.

(** ** The words of the specification

    What the specification says of the registry, written down on its own, to
    be compared with the script. *)

Section Specification.

Context {host : Host}.

(** The file name [<basename>-<hash><ext>] of a hashed path: the base name
    of the logical path without its extension, a dash, the digest of the
    content in decimal and the extension. *)
Definition hashedName (logical : string) (content : Content) : string :=
  Path.basename logical (Path.extname logical) ++ "-"
    ++ Js.toString (contentHash (Bytes (Buffer_from content)))
    ++ Path.extname logical.

(** The hashed path [<dir>/<basename>-<hash><ext>]: the directory of the
    logical path joined, as [path.join] joins, with that file name. *)
Definition hashedPath (logical : string) (content : Content) : string :=
  Path.join [ Path.dirname logical; hashedName logical content ].

(** The release fingerprint: the digest of the sorted, comma-joined list of
    the hashed paths. *)
Definition fingerprint (hashedPaths : list string) : N :=
  contentHash (Text (Js.join "," (Array_sort hashedPaths))).

End Specification.

(** The cache tiers of an asset. *)
Inductive CacheTier : Type :=
| Excluded
| UnhashedPrecache
| HashedPrecache
| HashedOnRequest.

Definition CacheTier_eqb (a b : CacheTier) : bool :=
  match a, b with
  | Excluded, Excluded
  | UnhashedPrecache, UnhashedPrecache
  | HashedPrecache, HashedPrecache
  | HashedOnRequest, HashedOnRequest => true
  | _, _ => false
  end.

(** The exclusion list of the specification: the legacy bundles and the
    service-worker script. *)
Definition exclusionList : list string :=
  [ "hydrogen-legacy.js"; "olm_legacy.js"; "sw.js" ].

(** The precache set: a path that ends in [.svg], [.png], [.css] or [.wasm],
    or in [.js] unless it is the worker script. *)
Definition inPrecacheSet (logical : string) : bool :=
  existsb (Js.endsWith logical) [".svg"; ".png"; ".css"; ".wasm"]
  || (Js.endsWith logical ".js" && negb (String.eqb logical "worker.js")).

(** The rules of the classifier, in the order of the specification. *)
Definition cacheTier (logical hashed : string) : CacheTier :=
  if existsb (String.eqb logical) exclusionList then Excluded
  else if String.eqb logical hashed then UnhashedPrecache
  else if inPrecacheSet logical then HashedPrecache
  else HashedOnRequest.

(** The hashed paths of the entries of a tier, in the order of the
    registry. *)
Definition tierPaths (t : CacheTier) (entries : list (string * string))
    : list string :=
  map snd (filter (fun e => CacheTier_eqb (cacheTier (fst e) (snd e)) t)
             entries).

(** [child] is [parent] followed by a separator and the relative path
    [rel]: for directories as [path.resolve] returns them, [child] lies
    under [parent] at offset [rel]. *)
Definition nestedAt (parent child rel : string) : Prop :=
  child = parent ++ "/" ++ rel.

(** The segments of a path between its separators. *)
Fixpoint segments_from (s : string) (cur : string) : list string :=
  match s with
  | EmptyString => [cur]
  | String c s' =>
      if Path.isPosixPathSeparator c then cur :: segments_from s' ""
      else segments_from s' (cur ++ String c EmptyString)
  end.

Definition segments (p : string) : list string :=
  filter (fun seg => negb (String.eqb seg "")) (segments_from p "").

Fixpoint list_prefix (l1 l2 : list string) : bool :=
  match l1, l2 with
  | [], _ => true
  | _ :: _, [] => false
  | a :: l1', b :: l2' => String.eqb a b && list_prefix l1' l2'
  end.

(** [child] is [parent] or a descendant of it: the directories on the way
    to [parent] are the first ones on the way to [child]. *)
Definition isDescendant (parent child : string) : bool :=
  list_prefix (segments parent) (segments child).

Fixpoint mentions (c : ascii) (s : string) : bool :=
  match s with
  | EmptyString => false
  | String d s' => Ascii.eqb d c || mentions c s'
  end.

(** A path without a comma. *)
Definition commaFree (s : string) : Prop := mentions ","%char s = false.

(** The claim as the specification states it: after [addSubMap(S)], [P]
    holds for every entry of [S] the entry with both halves prefixed. *)
Definition addsEveryEntry (P S : AssetMap) (rel : string) : Prop :=
  exists P',
    addSubMap S P = (Normal tt, P')
    /\ forall logical hashed,
         In (logical, hashed) (iterator S) ->
         JsMap.get (_assets P') (Path.join [rel; logical])
         = Some (Path.join [rel; hashed]).

(** A segment that [normalizeString] copies: not empty, not [.], not [..]. *)
Definition isPlainSegment (seg : string) : bool :=
  negb (String.eqb seg "") && negb (String.eqb seg ".")
  && negb (String.eqb seg "..").

(** [cur] being the segment read so far, what follows ends it and goes on
    with segments that are copied, one separator between two of them. *)
Fixpoint isPlainFrom (cur rest : string) : bool :=
  match rest with
  | EmptyString => isPlainSegment cur
  | String x rest' =>
      if Path.isPosixPathSeparator x
      then isPlainSegment cur && isPlainFrom "" rest'
      else isPlainFrom (cur ++ String x EmptyString) rest'
  end.

(** A relative path in normal form: segments that are not empty, [.] or
    [..], one separator between two of them, none at either end. *)
Definition isPlain (p : string) : bool := isPlainFrom "" p.

(** The counter [dots] of [normalizeString] after the characters of [s]. *)
Fixpoint dots_from (d : Z) (s : string) : Z :=
  match s with
  | EmptyString => d
  | String x s' =>
      dots_from (if Ascii.eqb x Path.CHAR_DOT && negb (d =? -1)%Z
                 then (d + 1)%Z else (-1)%Z) s'
  end.

(** How [normalizeString] adds a segment to its result. *)
Definition glue (r s : string) : string :=
  if (0 <? Js.len r)%Z then r ++ "/" ++ s else s.

(** What holds of the state of [normalizeString] when [pre ++ cur] has been
    read, [pre] ending with the last separator met and [cur] being the
    segment that is being read. *)
Definition normInv (pre cur : string) (st : Path.NormState) : Prop :=
  Path.dots st = dots_from 0 cur
  /\ (Path.lastSlash st + 1)%Z = Js.len pre
  /\ (cur <> "" -> Path.isPosixPathSeparator (Path.code st) = false).

(** ** More of the host: [indexOf] and [substr] with a length *)

Module JsIndex.

(** The first index at or after [pos] where [pat] starts, [s] being what is
    left of the string from [pos] on; [-1] when there is none. *)
Fixpoint indexOf_at (pat s : string) (pos : Z) : Z :=
  if String.prefix pat s then pos
  else
    match s with
    | EmptyString => (-1)%Z
    | String _ s' => indexOf_at pat s' (pos + 1)
    end.

(** [s.indexOf(pat)] *)
Definition indexOf (s pat : string) : Z := indexOf_at pat s 0.

(** [s.indexOf(pat, from)] for [0 <= from]. *)
Definition indexOfFrom (s pat : string) (from : Z) : Z :=
  indexOf_at pat (Js.substr s (Z.to_nat from)) from.

(** [s.substr(start, length)] for [0 <= start]: nothing when [length] is
    not positive, at most [length] characters otherwise. *)
Definition substrLen (s : string) (start length : Z) : string :=
  if (length <=? 0)%Z then ""
  else String.substring (Z.to_nat start) (Z.to_nat length) s.

End JsIndex.

(** ** More of the script *)

(** *** [findThemes] *)

(** What the callback of [findThemes] gets for a link with this [href], if
    it is called. *)
Definition themeNameOf (href : string) : option string :=
  let themesPrefix := "/themes/" in
  let prefixIdx := JsIndex.indexOf href themesPrefix in
  if negb (prefixIdx =? -1)%Z then
    let themeNameStart := (prefixIdx + Js.len themesPrefix)%Z in
    let themeNameEnd := JsIndex.indexOfFrom href "/" themeNameStart in
    let themeName :=
      JsIndex.substrLen href themeNameStart (themeNameEnd - themeNameStart) in
    Some themeName
  else None.

(** [findThemes(doc, callback)], the document being the [href] attributes
    of the links that the selector matches, in the order of the document,
    each link having the attribute; the state is the list of the names the
    callback has been given. *)
Fixpoint findThemes (hrefs : list string) : M (list string) unit :=
  match hrefs with
  | [] => ret tt
  | href :: rest =>
      bind (fun called =>
              match themeNameOf href with
              | Some themeName => (Normal tt, (called ++ [themeName])%list)
              | None => (Normal tt, called)
              end)
           (fun _ => findThemes rest)
  end.

(** *** [createDirs], [copyFolder], [copyThemeAssets] and
    [buildCssBundles] *)

(** What the file system answers during one run of [copyFolder]:
    [fs.readdir] for a folder, the names in the order it gives them, each
    with what its [Dirent] is, and [fs.readFile] for a file or a symbolic
    link.  A run that ends has asked for finitely many of them. *)
Inductive Folder : Type :=
| Readdir (dirEnts : completion (list (string * DirEnt)))
with DirEnt : Type :=
| IsDirectory (folder : Folder)
| IsFile (content : completion string)
| IsSymbolicLink (content : completion string)
| IsOther.

(** [for (const x of l) { await body(x); }] *)
Definition forOf {St A} (body : A -> M St unit) : list A -> M St unit :=
  fix loop (l : list A) : M St unit :=
    match l with
    | [] => ret tt
    | x :: rest => bind (body x) (fun _ => loop rest)
    end.

(** [await c] for an answer of the file system that is given. *)
Definition answer {St A} (c : completion A) : M St A :=
  fun s => (c, s).

(** [!filter || filter(srcPath)] *)
Definition passes (filter : option (string -> bool)) (srcPath : string)
    : bool :=
  match filter with
  | None => true
  | Some f => f srcPath
  end.

(** [file => !file.endsWith(".css")] *)
Definition notCss (file : string) : bool := negb (Js.endsWith file ".css").

Section Copies.

Context {host : Host}.

(** [fs.mkdir(path)] *)
Variable fs_mkdir : string -> M FS unit.

(** [createDirs(targetDir, themes)] *)
Definition createDirs (targetDir : string) (themes : list string)
    : M FS unit :=
  bind (fs_mkdir targetDir) (fun _ =>
  let themeDir := Path.join [targetDir; "themes"] in
  bind (fs_mkdir themeDir) (fun _ =>
  forOf (fun theme => fs_mkdir (Path.join [themeDir; theme])) themes)).

(** [copyFolder(srcRoot, dstRoot, filter, assets)] with [assets] given: the
    registry of the state is that object. *)
Fixpoint copyFolder_in (src : Folder) (srcRoot dstRoot : string)
    (filter : option (string -> bool)) {struct src}
    : M (AssetMap * FS) unit :=
  match src with
  | Readdir listing =>
      bind (answer listing) (fun dirEnts =>
      forOf (fun dirEnt : string * DirEnt =>
               let '(name, ent) := dirEnt in
               let dstPath := Path.join [dstRoot; name] in
               let srcPath := Path.join [srcRoot; name] in
               match ent with
               | IsDirectory sub =>
                   bind (on_snd (fs_mkdir dstPath)) (fun _ =>
                   copyFolder_in sub srcPath dstPath filter)
               | IsFile content | IsSymbolicLink content =>
                   if passes filter srcPath then
                     bind (answer content) (fun b =>
                     bind (write dstPath (Bytes b)) (fun _ => ret tt))
                   else ret tt
               | IsOther => ret tt
               end)
            dirEnts)
  end.

(** [copyFolder(srcRoot, dstRoot, filter)]: the registry is made here and
    is returned when nothing has thrown. *)
Definition copyFolder (src : Folder) (srcRoot dstRoot : string)
    (filter : option (string -> bool)) : M FS AssetMap :=
  fun fs =>
    let assets := new_AssetMap dstRoot in
    match copyFolder_in src srcRoot dstRoot filter (assets, fs) with
    | (Normal _, (assets', fs')) => (Normal assets', fs')
    | (Throw e, (_, fs')) => (Throw e, fs')
    end.

(** [cssSrcDir] *)
Definition cssSrcDir : string := Path.join [projectDir; "src/ui/web/css/"].

(** [copyThemeAssets(themes, assets)], each theme with what the file system
    answers for its folder; the registry of the state is [assets]. *)
Definition copyThemeAssets (themes : list (string * Folder))
    : M (AssetMap * FS) unit :=
  forOf (fun themeSrc : string * Folder =>
           let '(theme, src) := themeSrc in
           bind (on_fst get_state) (fun assets =>
           let themeDstFolder :=
             Path.join [directory assets; "themes/" ++ theme] in
           let themeSrcFolder :=
             Path.join [cssSrcDir; "themes/" ++ theme] in
           bind (on_snd (copyFolder src themeSrcFolder themeDstFolder
                           (Some notCss)))
                (fun themeAssets =>
           on_fst (addSubMap themeAssets))))
        themes.

(** The [assetUrlMapper] that [buildCssBundles] makes for a theme, the
    registry of the state being [assets]; [None] stands for [undefined]. *)
Definition assetUrlMapper (theme : string) (absolutePath : string)
    : M AssetMap (option string) :=
  let themeRelPath := "themes/" ++ theme ++ "/" in
  let themeRoot := Path.join [cssSrcDir; themeRelPath] in
  if negb (Js.startsWith absolutePath themeRoot) then
    throw (Error ("resource is out of theme directory: " ++ absolutePath))
  else
    let relPath := Js.substr absolutePath (String.length themeRoot) in
    bind (resolve (Path.join [themeRelPath; relPath])) (fun hashedDstPath =>
    if Js.falsy (Some hashedDstPath) then ret None
    else ret (Some (Js.substr hashedDstPath (String.length themeRelPath)))).

End Copies.

Section Bundles.

Context {host : Host}.

(** The [buildFn] that [buildCssBundles] is given: from the path of a style
    sheet and, or not, a mapper of the urls in it, the bundled style
    sheet.  It may read files and call the mapper on the registry. *)
Variable buildFn :
  string -> option (string -> M AssetMap (option string)) ->
  M (AssetMap * FS) string.

(** [buildCssBundles(buildFn, themes, assets)], the registry of the state
    being [assets]. *)
Definition buildCssBundles (themes : list string) : M (AssetMap * FS) unit :=
  bind (buildFn (Path.join [cssSrcDir; "main.css"]) None) (fun bundleCss =>
  bind (write "hydrogen.css" (Text bundleCss)) (fun _ =>
  forOf (fun theme =>
           let themeRelPath := "themes/" ++ theme ++ "/" in
           let themeRoot := Path.join [cssSrcDir; themeRelPath] in
           bind (buildFn (Path.join [themeRoot; "theme.css"])
                   (Some (assetUrlMapper theme))) (fun themeCss =>
           bind (write (Path.join [themeRelPath; "bundle.css"])
                   (Text themeCss)) (fun _ => ret tt)))
        themes)).

End Bundles.

(** ** More words for the facts *)

(** *** The lists and the source of the service worker *)

(** An entry that [buildServiceWorker] puts in one of its lists. *)
Definition cached (entry : string * string) : bool :=
  negb (Js.includes SERVICEWORKER_NONCACHED_ASSETS (fst entry)).

(** The source of the service worker, once the template has been read. *)
Definition swSourceOf (globalHash : N) (lists : SwLists) (template : string)
    : string :=
  JsText.replace
    (JsText.replace
       (JsText.replace
          (JsText.replace template (Js.quoted "%%GLOBAL_HASH%%")
             (Js.quoted (Js.toString globalHash)))
          (Js.quoted "%%UNHASHED_PRECACHED_ASSETS%%")
          (JsText.stringify (unhashedPreCachedAssets lists)))
       (Js.quoted "%%HASHED_PRECACHED_ASSETS%%")
       (JsText.stringify (hashedPreCachedAssets lists)))
    (Js.quoted "%%HASHED_CACHED_ON_REQUEST_ASSETS%%")
    (JsText.stringify (hashedCachedOnRequestAssets lists)).

(** *** The template of the service worker in pieces *)

(** The placeholders that [buildServiceWorker] replaces. *)
Inductive Placeholder : Type :=
| GlobalHash
| UnhashedPrecachedAssets
| HashedPrecachedAssets
| HashedCachedOnRequestAssets.

Definition Placeholder_eqb (p q : Placeholder) : bool :=
  match p, q with
  | GlobalHash, GlobalHash => true
  | UnhashedPrecachedAssets, UnhashedPrecachedAssets => true
  | HashedPrecachedAssets, HashedPrecachedAssets => true
  | HashedCachedOnRequestAssets, HashedCachedOnRequestAssets => true
  | _, _ => false
  end.

(** The pattern of a placeholder, its quotes being part of it. *)
Definition placeholder (p : Placeholder) : string :=
  Js.quoted
    match p with
    | GlobalHash => "%%GLOBAL_HASH%%"
    | UnhashedPrecachedAssets => "%%UNHASHED_PRECACHED_ASSETS%%"
    | HashedPrecachedAssets => "%%HASHED_PRECACHED_ASSETS%%"
    | HashedCachedOnRequestAssets => "%%HASHED_CACHED_ON_REQUEST_ASSETS%%"
    end.

(** A template is read as pieces: a text, or a placeholder. *)
Inductive Piece : Type :=
| Lit (s : string)
| Hole (p : Placeholder).

Definition pieceText (x : Piece) : string :=
  match x with
  | Lit s => s
  | Hole p => placeholder p
  end.

Fixpoint text (pieces : list Piece) : string :=
  match pieces with
  | [] => ""
  | x :: rest => pieceText x ++ text rest
  end.

(** The texts of the template hold no percent sign: the placeholders are
    where the pieces say and nowhere else. *)
Definition templateOk (pieces : list Piece) : bool :=
  forallb (fun x => match x with
                    | Lit s => negb (mentions "%"%char s)
                    | Hole _ => true
                    end) pieces.

(** The first placeholder [p] of the pieces gives way to a text. *)
Fixpoint fillFirst (p : Placeholder) (repl : string) (pieces : list Piece)
    : list Piece :=
  match pieces with
  | [] => []
  | Hole q :: rest =>
      if Placeholder_eqb q p then Lit repl :: rest
      else Hole q :: fillFirst p repl rest
  | Lit s :: rest => Lit s :: fillFirst p repl rest
  end.

(** What is before and after the first placeholder [p], if there is one. *)
Fixpoint cutAt (p : Placeholder) (pieces : list Piece)
    : option (list Piece * list Piece) :=
  match pieces with
  | [] => None
  | x :: rest =>
      if match x with Hole q => Placeholder_eqb q p | Lit _ => false end
      then Some ([], rest)
      else match cutAt p rest with
           | Some (b, a) => Some (x :: b, a)
           | None => None
           end
  end.

(** What stands for each placeholder in the service worker. *)
Definition swFill (globalHash : N) (lists : SwLists) (p : Placeholder)
    : string :=
  match p with
  | GlobalHash => Js.quoted (Js.toString globalHash)
  | UnhashedPrecachedAssets =>
      JsText.stringify (unhashedPreCachedAssets lists)
  | HashedPrecachedAssets => JsText.stringify (hashedPreCachedAssets lists)
  | HashedCachedOnRequestAssets =>
      JsText.stringify (hashedCachedOnRequestAssets lists)
  end.

(** The first placeholder of each kind gives way to what stands for it. *)
Definition fillEach (fill : Placeholder -> string) (pieces : list Piece)
    : list Piece :=
  fillFirst HashedCachedOnRequestAssets (fill HashedCachedOnRequestAssets)
    (fillFirst HashedPrecachedAssets (fill HashedPrecachedAssets)
       (fillFirst UnhashedPrecachedAssets (fill UnhashedPrecachedAssets)
          (fillFirst GlobalHash (fill GlobalHash) pieces))).

(** A path that [replace] and the placeholders leave alone: without a
    dollar and without a percent sign. *)
Definition plainText (s : string) : bool :=
  negb (mentions "$"%char s) && negb (mentions "%"%char s).

(** A string that opens with a double quote and a percent sign, and one
    that opens with a percent sign. *)
Definition opensPlaceholder (x : string) : bool :=
  match x with
  | String c (String d _) => Ascii.eqb c Js.dquote && Ascii.eqb d "%"%char
  | _ => false
  end.

Definition opensPercent (x : string) : bool :=
  match x with
  | String c _ => Ascii.eqb c "%"%char
  | EmptyString => false
  end.

(** No double quote of the string has a percent sign after it. *)
Fixpoint quiet (t : string) : bool :=
  match t with
  | String c t' => negb (opensPlaceholder t) && quiet t'
  | EmptyString => true
  end.


(** *** Segments of a path, and the loop of [extname] *)

(** A segment that [normalizeString] keeps: not empty and not [.]. *)
Definition keepSeg (seg : string) : bool :=
  negb (String.eqb seg "") && negb (String.eqb seg ".").

(** How [normalizeString] takes a segment that is not [..]. *)
Definition glueSeg (r seg : string) : string :=
  if keepSeg seg then glue r seg else r.

(** No segment of the path is [..]. *)
Definition noDotDot (p : string) : bool :=
  forallb (fun seg => negb (String.eqb seg "..")) (segments_from p "").

(** The segments that are kept, one separator between two of them. *)
Definition keptPath (p : string) : string :=
  String.concat "/" (filter keepSeg (segments_from p "")).

(** [pre] is empty or ends with a separator: where a last segment starts. *)
Definition segmentStart (pre : string) : Prop :=
  pre = "" \/ exists d, d <> "" /\ pre = d ++ "/".

(** What holds of the state of [extname] once the characters from index [k]
    on have been read, none of them a separator, [L] being the length of
    the path. *)
Definition extInv (L k : Z) (st : Path.ExtState) : Prop :=
  Path.startPart st = 0%Z
  /\ ((Path.ext_end st = (-1)%Z /\ Path.ext_matchedSlash st = true /\ k = L)
      \/ (Path.ext_end st = L /\ Path.ext_matchedSlash st = false
          /\ (k < L)%Z))
  /\ (Path.startDot st = (-1)%Z -> Path.preDotState st = 0%Z)
  /\ (Path.startDot st <> (-1)%Z -> (k <= Path.startDot st < L)%Z)
  /\ (Path.preDotState st <> 0%Z -> (k < Path.startDot st)%Z).

(** What holds when the loop is over, the last segment starting at [P]. *)
Definition extFinal (L P : Z) (st : Path.ExtState) : Prop :=
  Path.startPart st = P
  /\ Path.ext_end st = L
  /\ (Path.startDot st = (-1)%Z -> Path.preDotState st = 0%Z)
  /\ (Path.startDot st <> (-1)%Z -> (P <= Path.startDot st < L)%Z)
  /\ (Path.preDotState st <> 0%Z -> (P < Path.startDot st)%Z).

(** *** [copyFolder] as a list of steps *)

(** One thing a run of [copyFolder] does to the disk or to the registry, the
    paths written out: a folder made, a file registered under a key and
    written, or an answer of the file system that is an error. *)
Inductive CopyStep : Type :=
| StepMkdir (dstPath : string)
| StepWrite (key : string) (content : Content)
| StepFail (e : JsError).

(** The steps for a folder of the source tree, in the order of its
    listings: [s] is the source root and [d] the target root, both without
    the separators around them, and [rel] is empty or the path of the
    folder under the roots, with a separator at its end. *)
Fixpoint copySteps (filter : option (string -> bool)) (s d : string)
    (src : Folder) (rel : string) {struct src} : list CopyStep :=
  match src with
  | Readdir (Throw e) => [StepFail e]
  | Readdir (Normal dirEnts) =>
      flat_map
        (fun dirEnt : string * DirEnt =>
           let '(name, ent) := dirEnt in
           match ent with
           | IsDirectory sub =>
               StepMkdir ("/" ++ d ++ "/" ++ rel ++ name)
                 :: copySteps filter s d sub (rel ++ name ++ "/")
           | IsFile content | IsSymbolicLink content =>
               if passes filter ("/" ++ s ++ "/" ++ rel ++ name) then
                 match content with
                 | Normal b => [StepWrite (rel ++ name) (Bytes b)]
                 | Throw e => [StepFail e]
                 end
               else []
           | IsOther => []
           end)
        dirEnts
  end.

(** The files that are copied when every answer is read: the key and the
    bytes of each file or symbolic link that passes the filter. *)
Fixpoint copied (filter : option (string -> bool)) (s : string)
    (src : Folder) (rel : string) {struct src} : list (string * Content) :=
  match src with
  | Readdir (Throw e) => []
  | Readdir (Normal dirEnts) =>
      flat_map
        (fun dirEnt : string * DirEnt =>
           let '(name, ent) := dirEnt in
           match ent with
           | IsDirectory sub => copied filter s sub (rel ++ name ++ "/")
           | IsFile (Normal b) | IsSymbolicLink (Normal b) =>
               if passes filter ("/" ++ s ++ "/" ++ rel ++ name)
               then [(rel ++ name, Bytes b)] else []
           | _ => []
           end)
        dirEnts
  end.

(** A name as [readdir] gives them: not empty, not [.] or [..], without a
    separator. *)
Definition isName (name : string) : bool :=
  isPlainSegment name && negb (mentions "/"%char name).

(** Every name of the tree is one. *)
Fixpoint wellNamed (src : Folder) : bool :=
  match src with
  | Readdir (Throw _) => true
  | Readdir (Normal dirEnts) =>
      forallb
        (fun dirEnt : string * DirEnt =>
           let '(name, ent) := dirEnt in
           isName name
           && match ent with
              | IsDirectory sub => wellNamed sub
              | _ => true
              end)
        dirEnts
  end.

(** No string twice. *)
Fixpoint distinct (l : list string) : bool :=
  match l with
  | [] => true
  | x :: r => negb (existsb (String.eqb x) r) && distinct r
  end.

(** No listing of the tree has a name twice. *)
Fixpoint distinctNames (src : Folder) : bool :=
  match src with
  | Readdir (Throw _) => true
  | Readdir (Normal dirEnts) =>
      forallb
        (fun dirEnt : string * DirEnt =>
           match snd dirEnt with
           | IsDirectory sub => distinctNames sub
           | _ => true
           end)
        dirEnts
      && distinct (map fst dirEnts)
  end.

Section CopyStepsRun.

Context {host : Host}.
Variable fs_mkdir : string -> M FS unit.

(** What a step does to the registry and the disk. *)
Definition run_step (step : CopyStep) : M (AssetMap * FS) unit :=
  match step with
  | StepMkdir dstPath => on_snd (fs_mkdir dstPath)
  | StepWrite key content => bind (write key content) (fun _ => ret tt)
  | StepFail e => throw e
  end.

(** The steps one after the other, up to the first that throws. *)
Definition run_steps : list CopyStep -> M (AssetMap * FS) unit :=
  forOf run_step.

End CopyStepsRun.

(** [rel] is empty or a path in normal form with a separator after it. *)
Definition isRel (rel : string) : Prop :=
  rel = "" \/ exists r, isPlain r = true /\ rel = r ++ "/".

(** The files that the steps register. *)
Definition writesOf (steps : list CopyStep) : list (string * Content) :=
  flat_map (fun step => match step with
                        | StepWrite key content => [(key, content)]
                        | _ => []
                        end) steps.

(** The files of one entry of a listing. *)
Definition copiedOf (filter : option (string -> bool)) (s rel : string)
    (dirEnt : string * DirEnt) : list (string * Content) :=
  let '(name, ent) := dirEnt in
  match ent with
  | IsDirectory sub => copied filter s sub (rel ++ name ++ "/")
  | IsFile (Normal b) | IsSymbolicLink (Normal b) =>
      if passes filter ("/" ++ s ++ "/" ++ rel ++ name)
      then [(rel ++ name, Bytes b)] else []
  | _ => []
  end.

(** A separator at the end of a root, or none. *)
Definition slashIf (trailing : bool) : string :=
  if trailing then "/" else "".

(** *** The themes *)

(** The key of a file of a theme in the registry of the build, and the
    files of a theme that are copied. *)
Definition themeKey (theme k : string) : string :=
  "themes/" ++ theme ++ "/" ++ k.

Definition themeFiles (c theme : string) (src : Folder)
    : list (string * Content) :=
  copied (Some notCss) (c ++ "/themes/" ++ theme) src "".

(** Themes as the build has them: each name is the name of a folder, no
    name twice, and the trees are trees of directories. *)
Definition themesOk (themes : list (string * Folder)) : bool :=
  forallb (fun ts : string * Folder =>
             isName (fst ts) && wellNamed (snd ts) && distinctNames (snd ts))
          themes
  && distinct (map fst themes).

(** The key of the bundle of a theme. *)
Definition bundleKey (theme : string) : string :=
  "themes/" ++ theme ++ "/bundle.css".

(** ** A host to run the script on

    The digest is XXH32, the algorithm that [xxhashjs] implements; the file
    system holds directories and files in memory and fails as POSIX does
    when a directory is missing. *)

Module XXH32.

Local Open Scope N_scope.

Definition PRIME32_1 : N := 2654435761.
Definition PRIME32_2 : N := 2246822519.
Definition PRIME32_3 : N := 3266489917.
Definition PRIME32_4 : N := 668265263.
Definition PRIME32_5 : N := 374761393.

Definition u32 (x : N) : N := x mod 4294967296.

Definition rotl (x r : N) : N :=
  u32 (N.lor (N.shiftl x r) (N.shiftr x (32 - r))).

Definition read32 (b0 b1 b2 b3 : N) : N :=
  b0 + N.shiftl b1 8 + N.shiftl b2 16 + N.shiftl b3 24.

Definition round (acc input : N) : N :=
  u32 (rotl (u32 (acc + input * PRIME32_2)) 13 * PRIME32_1).

(** The stripes of sixteen bytes, and the bytes that are left. *)
Fixpoint stripes (l : list N) (v : N * N * N * N) : N * N * N * N * list N :=
  match l with
  | a0 :: a1 :: a2 :: a3 :: b0 :: b1 :: b2 :: b3
    :: c0 :: c1 :: c2 :: c3 :: d0 :: d1 :: d2 :: d3 :: rest =>
      let '(v1, v2, v3, v4) := v in
      stripes rest (round v1 (read32 a0 a1 a2 a3),
                    round v2 (read32 b0 b1 b2 b3),
                    round v3 (read32 c0 c1 c2 c3),
                    round v4 (read32 d0 d1 d2 d3))
  | _ => (v, l)
  end.

Fixpoint tail (l : list N) (h : N) : N :=
  match l with
  | b0 :: b1 :: b2 :: b3 :: rest =>
      tail rest (u32 (rotl (u32 (h + read32 b0 b1 b2 b3 * PRIME32_3)) 17
                      * PRIME32_4))
  | b0 :: rest =>
      tail rest (u32 (rotl (u32 (h + b0 * PRIME32_5)) 11 * PRIME32_1))
  | [] => h
  end.

Definition avalanche (h : N) : N :=
  let h := N.lxor h (N.shiftr h 15) in
  let h := u32 (h * PRIME32_2) in
  let h := N.lxor h (N.shiftr h 13) in
  let h := u32 (h * PRIME32_3) in
  N.lxor h (N.shiftr h 16).

Definition digest (seed : N) (data : string) : N :=
  let bytes := map N_of_ascii (list_ascii_of_string data) in
  let n := N.of_nat (List.length bytes) in
  let '(h, rest) :=
    if 16 <=? n then
      let '(v1, v2, v3, v4, rest) :=
        stripes bytes (u32 (seed + PRIME32_1 + PRIME32_2),
                       u32 (seed + PRIME32_2),
                       u32 seed,
                       u32 (seed + 4294967296 - PRIME32_1)) in
      (u32 (rotl v1 1 + rotl v2 7 + rotl v3 12 + rotl v4 18), rest)
    else (u32 (seed + PRIME32_5), bytes) in
  avalanche (tail rest (u32 (h + n))).

End XXH32.

Module MemFs.

Record t := mk {
  dirs : list string;
  files : list (string * string)
}.

Definition fsError (c : string) (p : string) : JsError :=
  mkJsError (Some c) (c ++ ": " ++ p).

Definition isDir (fs : t) (p : string) : bool := Js.includes (dirs fs) p.

Definition writeFile (p : string) (c : Content) (enc : option string)
    : M t unit :=
  fun fs =>
    if isDir fs p then (Throw (fsError "EISDIR" p), fs)
    else if isDir fs (Path.dirname p) then
      (Normal tt, mk (dirs fs) (JsMap.set (files fs) p (Buffer_from c)))
    else (Throw (fsError "ENOENT" p), fs).

(** The files that the examples read hold bytes below 128, which are the
    code units of the string they decode to. *)
Definition readFile (p : string) : M t string :=
  fun fs =>
    match JsMap.get (files fs) p with
    | Some c => (Normal c, fs)
    | None => (Throw (fsError "ENOENT" p), fs)
    end.

(** [p] itself, or a path below [p]. *)
Definition within (p q : string) : bool :=
  String.eqb q p || Js.startsWith q (p ++ "/").

Definition rmdir (p : string) : M t unit :=
  fun fs =>
    if isDir fs p then
      (Normal tt,
       mk (filter (fun d => negb (within p d)) (dirs fs))
          (filter (fun f => negb (within p (fst f))) (files fs)))
    else if JsMap.has (files fs) p then (Throw (fsError "ENOTDIR" p), fs)
    else (Throw (fsError "ENOENT" p), fs).

End MemFs.

Definition memHost : Host := {|
  FS := MemFs.t;
  xxh32 := XXH32.digest;
  fs_writeFile := MemFs.writeFile;
  fs_readFile := MemFs.readFile;
  fs_rmdir := MemFs.rmdir;
  cwd := "/proj/scripts";
  projectDir := "/proj/"
|}.

(** A disk on which the target directory exists and is empty. *)
Definition disk0 : MemFs.t :=
  MemFs.mk ["/"; "/proj"; "/proj/target"; "/proj/target/themes";
            "/proj/target/themes/dark"] [].

(** ** Inputs of the examples *)

(** The registry of the example of the specification, under the names that
    the script gives to the application, worker and legacy scripts. *)
Definition exampleEntries : list (string * string) :=
  [ ("index.html", "index.html");
    ("hydrogen.js", "hydrogen-abc123.js");
    ("worker.js", "worker-def456.js");
    ("hydrogen-legacy.js", "hydrogen-legacy-ghi789.js") ].

(** Two registries that differ in one hashed path. *)
Definition commaRegistryA : AssetMap :=
  mkAssetMap "/proj/target" [ (",b,", ",b,"); ("b,", "b,") ].
Definition commaRegistryB : AssetMap :=
  mkAssetMap "/proj/target" [ (",b,", ",b,"); (",b", ",b") ].

(** The sub-registry of the counterexample: two logical paths that name
    the same file, the first unhashed, the second hashed. *)
Definition collisionParent : AssetMap := mkAssetMap "/proj/target" [].
Definition collisionSub : AssetMap :=
  mkAssetMap "/proj/target/themes"
    [ ("a.js", "a.js"); ("./a.js", "a-784609514.js") ].

(** The registry of a build before anything is written, and the disk after
    [write("hydrogen.js", ...)]. *)
Definition registry0 : AssetMap := mkAssetMap "/proj/target" [].
Definition diskHydrogen : MemFs.t :=
  MemFs.mk (MemFs.dirs disk0)
    [ ("/proj/target/hydrogen-2730772148.js", "export {}") ].

(** A disk on which the target is a stale file, not a directory. *)
Definition diskStale : MemFs.t :=
  MemFs.mk ["/"; "/proj"] [ ("/proj/target", "stale") ].

(** A template of the service worker. *)
Definition swTemplate : string :=
  "const UNHASHED = " ++ Js.quoted "%%UNHASHED_PRECACHED_ASSETS%%" ++ ";".

(** Two registries that differ in the digest of the application script. *)
Definition digestRegistryA : AssetMap :=
  mkAssetMap "/proj/target"
    [ ("hydrogen.js", "hydrogen-6962.js"); ("index.html", "index.html") ].
Definition digestRegistryB : AssetMap :=
  mkAssetMap "/proj/target"
    [ ("hydrogen.js", "hydrogen-54784.js"); ("index.html", "index.html") ].

(** [fs.mkdir] on the disk in memory. *)
Definition memMkdir (p : string) : M MemFs.t unit :=
  fun fs =>
    if MemFs.isDir fs p || JsMap.has (MemFs.files fs) p then
      (Throw (MemFs.fsError "EEXIST" p), fs)
    else if MemFs.isDir fs (Path.dirname p) then
      (Normal tt, MemFs.mk (MemFs.dirs fs ++ [p])%list (MemFs.files fs))
    else (Throw (MemFs.fsError "ENOENT" p), fs).

(** What the file system answers for the folder of a theme: a style sheet,
    a folder with an icon, a symbolic link to an image and a socket. *)
Definition darkFolder : Folder :=
  Readdir (Normal
    [ ("theme.css", IsFile (Normal "body {}"));
      ("icons",
       IsDirectory (Readdir (Normal [ ("send.svg", IsFile (Normal "<svg/>")) ])));
      ("bg.png", IsSymbolicLink (Normal "PNG"));
      ("sock", IsOther) ]).

(** The registry and the disk after [copyThemeAssets] for the theme. *)
Definition darkRegistry : AssetMap :=
  mkAssetMap "/proj/target"
    [ ("themes/dark/icons/send.svg", "themes/dark/icons/send-3815257811.svg");
      ("themes/dark/bg.png", "themes/dark/bg-251211592.png") ].
Definition darkDisk : MemFs.t :=
  MemFs.mk
    [ "/"; "/proj"; "/proj/target"; "/proj/target/themes";
      "/proj/target/themes/dark"; "/proj/target/themes/dark/icons" ]
    [ ("/proj/target/themes/dark/icons/send-3815257811.svg", "<svg/>");
      ("/proj/target/themes/dark/bg-251211592.png", "PNG") ].

(** A [buildFn] for the examples: for the main style sheet it returns a
    rule; with a mapper it asks for the url of the icon of the theme and
    returns a rule with that url. *)
Definition memBuildFn (entryPath : string)
    (urlMapper : option (string -> M AssetMap (option string)))
    : M (AssetMap * MemFs.t) string :=
  fun st =>
    match urlMapper with
    | None => (Normal "body {}", st)
    | Some mapper =>
        match mapper "/proj/src/ui/web/css/themes/dark/icons/send.svg"
                (fst st) with
        | (Normal (Some url), _) => (Normal ("i { url(" ++ url ++ ") }"), st)
        | (Normal None, _) => (Normal "i {}", st)
        | (Throw e, _) => (Throw e, st)
        end
    end.

(** The registry and the disk after [buildCssBundles] with that [buildFn]. *)
Definition bundledRegistry : AssetMap :=
  mkAssetMap "/proj/target"
    [ ("themes/dark/icons/send.svg", "themes/dark/icons/send-3815257811.svg");
      ("themes/dark/bg.png", "themes/dark/bg-251211592.png");
      ("hydrogen.css", "hydrogen-4179790218.css");
      ("themes/dark/bundle.css", "themes/dark/bundle-2137632367.css") ].
Definition bundledDisk : MemFs.t :=
  MemFs.mk (MemFs.dirs darkDisk)
    (MemFs.files darkDisk
       ++ [ ("/proj/target/hydrogen-4179790218.css", "body {}");
            ("/proj/target/themes/dark/bundle-2137632367.css",
             "i { url(icons/send-3815257811.svg) }") ])%list.

(** A template that holds each placeholder once, the one of the fingerprint
    a second time. *)
Definition swPieces : list Piece :=
  [ Lit "const VERSION = "; Hole GlobalHash;
    Lit "; const UNHASHED = "; Hole UnhashedPrecachedAssets;
    Lit "; const HASHED = "; Hole HashedPrecachedAssets;
    Lit "; const ON_REQUEST = "; Hole HashedCachedOnRequestAssets;
    Lit "; const AGAIN = "; Hole GlobalHash; Lit ";" ].

Definition swDisk : MemFs.t :=
  MemFs.mk ["/"; "/proj"; "/proj/src"; "/proj/target"]
    [ ("/proj/src/service-worker.template.js", text swPieces) ].

Definition swRegistry : AssetMap :=
  mkAssetMap "/proj/target"
    [ ("hydrogen.js", "hydrogen-2730772148.js");
      ("font.woff", "font-77.woff");
      ("manifest.json", "manifest.json") ].

Definition swWritten : string :=
  "const VERSION = " ++ Js.quoted "7"
  ++ "; const UNHASHED = [" ++ Js.quoted "index.html" ++ ","
  ++ Js.quoted "manifest.json"
  ++ "]; const HASHED = [" ++ Js.quoted "hydrogen-2730772148.js"
  ++ "]; const ON_REQUEST = [" ++ Js.quoted "font-77.woff"
  ++ "]; const AGAIN = " ++ placeholder GlobalHash ++ ";".

(** A content of one code unit above the seven bits, U+00E9, and the two
    bytes that encode it. *)
Definition eAcute : string := String (ascii_of_nat 233) "".
Definition eAcuteBytes : string :=
  String (ascii_of_nat 195) (String (ascii_of_nat 169) "").

(** * Facts *)

Example xxh32_empty : XXH32.digest 0 "" = 46947589%N.
Proof. vm_compute. reflexivity. Qed.
Example xxh32_a : XXH32.digest 0 "a" = 1426945110%N.
Proof. vm_compute. reflexivity. Qed.
Example xxh32_abc : XXH32.digest 0 "abc" = 852579327%N.
Proof. vm_compute. reflexivity. Qed.
Example xxh32_long :
  XXH32.digest 0 "Nobody inspects the spammish repetition" = 3794352943%N.
Proof. vm_compute. reflexivity. Qed.
Example normalize_ex1 : Path.normalize "a/./b//../c/" = "a/c/".
Proof. vm_compute. reflexivity. Qed.
Example normalize_ex2 : Path.normalize "../a/../../b" = "../../b".
Proof. vm_compute. reflexivity. Qed.
Example join_ex1 : Path.join ["themes/dark"; "img/x.svg"] = "themes/dark/img/x.svg".
Proof. vm_compute. reflexivity. Qed.
Example join_ex2 : Path.join [""; "olm.wasm"] = "olm.wasm".
Proof. vm_compute. reflexivity. Qed.
Example join_ex3 : Path.join ["."; "hydrogen-123.js"] = "hydrogen-123.js".
Proof. vm_compute. reflexivity. Qed.
Example resolve_ex1 : Path.resolve "/home/u" "/proj/scripts/../target/" = "/proj/target".
Proof. vm_compute. reflexivity. Qed.
Example resolve_ex2 : Path.resolve "/home/u" "target/" = "/home/u/target".
Proof. vm_compute. reflexivity. Qed.
Example resolve_ex3 : Path.resolve "/home/u" "/" = "/".
Proof. vm_compute. reflexivity. Qed.
Example dirname_ex1 : Path.dirname "themes/dark/bundle.css" = "themes/dark".
Proof. vm_compute. reflexivity. Qed.
Example dirname_ex2 : Path.dirname "hydrogen.js" = ".".
Proof. vm_compute. reflexivity. Qed.
Example dirname_ex3 : Path.dirname "/a" = "/".
Proof. vm_compute. reflexivity. Qed.
Example extname_ex1 : Path.extname "themes/dark/bundle.css" = ".css".
Proof. vm_compute. reflexivity. Qed.
Example extname_ex2 : Path.extname ".bashrc" = "".
Proof. vm_compute. reflexivity. Qed.
Example extname_ex3 : Path.extname "a.b.c/" = ".c".
Proof. vm_compute. reflexivity. Qed.
Example extname_ex4 : Path.extname ".." = "".
Proof. vm_compute. reflexivity. Qed.
Example basename_ex1 : Path.basename "themes/dark/bundle.css" ".css" = "bundle".
Proof. vm_compute. reflexivity. Qed.
Example basename_ex2 : Path.basename "a/b/" "" = "b".
Proof. vm_compute. reflexivity. Qed.
Example basename_ex3 : Path.basename "aaa.css" "a.css" = "aa".
Proof. vm_compute. reflexivity. Qed.

(** ** Strings and paths *)

Lemma prefix_app (p s : string) : String.prefix p (p ++ s) = true.
Proof.
  induction p as [|c p IH]; simpl.
  - now destruct s.
  - destruct (ascii_dec c c); [exact IH | congruence].
Qed.

Lemma substr_app (p s : string) : Js.substr (p ++ s) (String.length p) = s.
Proof. induction p as [|c p IH]; simpl; auto. now destruct s. Qed.

Lemma append_assoc (a b c : string) : (a ++ b) ++ c = a ++ (b ++ c).
Proof. induction a as [|x a IH]; simpl; [reflexivity | now rewrite IH]. Qed.

Lemma length_append (a b : string) :
  String.length (a ++ b) = String.length a + String.length b.
Proof. induction a as [|x a IH]; simpl; auto. Qed.

Lemma substr_app_sep (p s : string) :
  Js.substr (p ++ "/" ++ s) (String.length p + 1) = s.
Proof.
  replace (String.length p + 1) with (String.length (p ++ "/")).
  - rewrite <- append_assoc. apply substr_app.
  - rewrite length_append. reflexivity.
Qed.

Lemma length_zero_eqb (s : string) :
  (String.length s =? 0)%nat = false -> s <> "".
Proof. destruct s; simpl; congruence. Qed.

Lemma append_nonempty_l (a b : string) : a <> "" -> a ++ b <> "".
Proof. destruct a; simpl; congruence. Qed.

Lemma normalize_nonempty (p : string) : Path.normalize p <> "".
Proof.
  unfold Path.normalize.
  destruct (String.length p =? 0)%nat; [discriminate|].
  set (q := Path.normalizeString p _).
  destruct (String.length q =? 0)%nat eqn:Hq.
  - destruct (Js.charIs p 0 _); [discriminate|].
    destruct (Js.charIs p _ _); discriminate.
  - apply length_zero_eqb in Hq.
    destruct (Js.charIs p 0 _); [discriminate|].
    destruct (Js.charIs p _ _); [now apply append_nonempty_l | exact Hq].
Qed.

(** [path.join] never returns the empty string. *)
Lemma join_nonempty (args : list string) : Path.join args <> "".
Proof.
  unfold Path.join. destruct (Path.joined args None).
  - apply normalize_nonempty.
  - discriminate.
Qed.

Lemma falsy_join (args : list string) :
  Js.falsy (Some (Path.join args)) = false.
Proof. simpl. apply String.eqb_neq, join_nonempty. Qed.

(** ** Paths in normal form *)

Lemma dots_from_app (d : Z) (a b : string) :
  dots_from d (a ++ b) = dots_from (dots_from d a) b.
Proof. revert d. induction a as [|x a IH]; intros d; simpl; auto. Qed.

Lemma dots_from_neg (s : string) : dots_from (-1) s = (-1)%Z.
Proof.
  induction s as [|x s IH]; simpl; auto.
  now rewrite andb_false_r.
Qed.

Lemma dots_from_count (d : Z) (s : string) :
  (0 <= d)%Z ->
  dots_from d s = (-1)%Z
  \/ (dots_from d s = (d + Js.len s)%Z
      /\ forall c, In c (list_ascii_of_string s) -> c = Path.CHAR_DOT).
Proof.
  revert d. induction s as [|x s IH]; intros d Hd.
  - right. unfold Js.len. simpl. split; [lia | tauto].
  - simpl dots_from.
    destruct (Ascii.eqb_spec x Path.CHAR_DOT) as [->|Hx].
    + replace (d =? -1)%Z with false by (symmetry; apply Z.eqb_neq; lia).
      simpl andb. cbv iota.
      destruct (IH (d + 1)%Z ltac:(lia)) as [H|[H Hall]]; [now left|].
      right. split.
      * rewrite H. unfold Js.len. simpl String.length. lia.
      * intros c [<-|Hc]; auto.
    + simpl andb. cbv iota. left. apply dots_from_neg.
Qed.

Lemma dots_one (s : string) : dots_from 0 s = 1%Z -> s = ".".
Proof.
  intros H. destruct (dots_from_count 0 s ltac:(lia)) as [E|[E Hall]];
    [congruence|].
  rewrite H in E. unfold Js.len in E.
  destruct s as [|x [|y s]]; simpl in E; try lia.
  rewrite (Hall x); [reflexivity | now left].
Qed.

Lemma dots_two (s : string) : dots_from 0 s = 2%Z -> s = "..".
Proof.
  intros H. destruct (dots_from_count 0 s ltac:(lia)) as [E|[E Hall]];
    [congruence|].
  rewrite H in E. unfold Js.len in E.
  destruct s as [|x [|y [|z s]]]; simpl in E; try lia.
  rewrite (Hall x), (Hall y); [reflexivity | right; now left | now left].
Qed.

Lemma get_app_length (a b : string) (c : ascii) :
  String.get (String.length a) (a ++ String c b) = Some c.
Proof. induction a as [|x a IH]; simpl; auto. Qed.

Lemma get_length (a : string) : String.get (String.length a) a = None.
Proof. induction a as [|x a IH]; simpl; auto. Qed.

Lemma substring_prefix (a b : string) :
  String.substring 0 (String.length a) (a ++ b) = a.
Proof.
  induction a as [|x a IH]; simpl.
  - now destruct b.
  - now rewrite IH.
Qed.

Lemma substring_skip (a b : string) (n : nat) :
  String.substring (String.length a) n (a ++ b) = String.substring 0 n b.
Proof. induction a as [|x a IH]; simpl; auto. Qed.

Lemma charCodeAt_next (done rest : string) (c : ascii) :
  Js.charCodeAt (done ++ String c rest) (Js.len done) = Some c.
Proof.
  unfold Js.charCodeAt, Js.len.
  replace (Z.of_nat (String.length done) <? 0)%Z with false
    by (symmetry; apply Z.ltb_ge; lia).
  rewrite Nat2Z.id. apply get_app_length.
Qed.

Lemma charCodeAt_end (done : string) :
  Js.charCodeAt done (Js.len done) = None.
Proof.
  unfold Js.charCodeAt, Js.len.
  replace (Z.of_nat (String.length done) <? 0)%Z with false
    by (symmetry; apply Z.ltb_ge; lia).
  rewrite Nat2Z.id. apply get_length.
Qed.

Lemma isPlainSegment_inv (cur : string) :
  isPlainSegment cur = true -> cur <> "" /\ cur <> "." /\ cur <> "..".
Proof.
  unfold isPlainSegment. rewrite !andb_true_iff, !negb_true_iff.
  intros [[H1 H2] H3]. repeat split; now apply String.eqb_neq.
Qed.

Lemma len_append (a b : string) : Js.len (a ++ b) = (Js.len a + Js.len b)%Z.
Proof. unfold Js.len. rewrite length_append. lia. Qed.

Lemma len_pos (s : string) : s <> "" -> (0 < Js.len s)%Z.
Proof. unfold Js.len. destruct s; [congruence | simpl; lia]. Qed.

Lemma glue_glue (r cur s : string) :
  cur <> "" -> glue (glue r cur) s = glue r (cur ++ "/" ++ s).
Proof.
  intros Hne. unfold glue.
  destruct (0 <? Js.len r)%Z.
  - replace (0 <? Js.len (r ++ "/" ++ cur))%Z with true
      by (symmetry; apply Z.ltb_lt, len_pos; destruct r; discriminate).
    now rewrite !append_assoc.
  - replace (0 <? Js.len cur)%Z with true
      by (symmetry; now apply Z.ltb_lt, len_pos).
    reflexivity.
Qed.

(** At the end of a segment that is copied, the segment is added to the
    result. *)
Lemma separator_plain (path pre cur rest : string) (allow : bool)
    (st : Path.NormState) (c : ascii) :
  path = pre ++ cur ++ rest -> normInv pre cur st ->
  isPlainSegment cur = true ->
  Path.normalize_separator path allow (Js.len pre + Js.len cur) st c
  = Path.mkNorm (glue (Path.res st) cur)
      (Js.len pre + Js.len cur - Path.lastSlash st - 1)
      (Js.len pre + Js.len cur) 0 c.
Proof.
  intros Hpath (Hdots & Hls & _) Hseg.
  destruct (isPlainSegment_inv _ Hseg) as (Hne & Hdot & Hdotdot).
  pose proof (len_pos _ Hne) as Hlen.
  unfold Path.normalize_separator.
  assert (H1 : (Path.dots st =? 1)%Z = false).
  { apply Z.eqb_neq. rewrite Hdots. intros E. now apply dots_one in E. }
  assert (H2 : (Path.dots st =? 2)%Z = false).
  { apply Z.eqb_neq. rewrite Hdots. intros E. now apply dots_two in E. }
  assert (H0 : (Path.lastSlash st =? Js.len pre + Js.len cur - 1)%Z = false).
  { apply Z.eqb_neq. lia. }
  rewrite H0, H1, H2. cbn [orb]. cbv iota.
  assert (Hslice : Js.slice path (Path.lastSlash st + 1)
                     (Js.len pre + Js.len cur) = cur).
  { unfold Js.slice. subst path. rewrite Hls.
    replace (Z.to_nat (Js.len pre)) with (String.length pre)
      by (unfold Js.len; lia).
    replace (Z.to_nat (Js.len pre + Js.len cur - Js.len pre))
      with (String.length cur) by (unfold Js.len; lia).
    rewrite substring_skip. apply substring_prefix. }
  rewrite Hslice. reflexivity.
Qed.

Lemma normalize_loop_S (path : string) (allow : bool) (n : nat) (i : Z)
    (st : Path.NormState) :
  Path.normalize_loop path allow (S n) i st
  = match Js.charCodeAt path i with
    | Some c =>
        Path.normalize_loop path allow n (i + 1)
          (Path.normalize_step path allow i st c)
    | None =>
        if Path.isPosixPathSeparator (Path.code st) then Path.res st
        else
          Path.normalize_loop path allow n (i + 1)
            (Path.normalize_step path allow i st Path.CHAR_FORWARD_SLASH)
    end.
Proof. reflexivity. Qed.

Lemma normalize_loop_plain (path : string) (allow : bool) (rest : string) :
  forall (pre cur : string) (st : Path.NormState),
    path = pre ++ cur ++ rest ->
    normInv pre cur st ->
    isPlainFrom cur rest = true ->
    Path.normalize_loop path allow (S (String.length rest))
      (Js.len pre + Js.len cur) st
    = glue (Path.res st) (cur ++ rest).
Proof.
  induction rest as [|x rest IH]; intros pre cur st Hpath Hinv Hplain.
  - simpl in Hplain. cbn [String.length]. rewrite normalize_loop_S.
    assert (Hend : Js.charCodeAt path (Js.len pre + Js.len cur) = None).
    { rewrite Hpath, <- append_assoc, <- len_append.
      replace ((pre ++ cur) ++ "") with (pre ++ cur)
        by (generalize (pre ++ cur); intros s; induction s; simpl; congruence).
      apply charCodeAt_end. }
    rewrite Hend.
    destruct (isPlainSegment_inv _ Hplain) as (Hne & _).
    destruct Hinv as (Hdots & Hls & Hcode). rewrite (Hcode Hne).
    unfold Path.normalize_step.
    change (Path.isPosixPathSeparator Path.CHAR_FORWARD_SLASH) with true.
    cbv iota.
    rewrite (separator_plain path pre cur "" allow st _ Hpath
               (conj Hdots (conj Hls Hcode)) Hplain).
    cbn [Path.normalize_loop Path.res].
    replace (cur ++ "") with cur
      by (clear; induction cur; simpl; congruence).
    reflexivity.
  - cbn [String.length]. rewrite normalize_loop_S.
    assert (Hnext : Js.charCodeAt path (Js.len pre + Js.len cur) = Some x).
    { rewrite Hpath, <- append_assoc, <- len_append. apply charCodeAt_next. }
    rewrite Hnext. simpl in Hplain. unfold Path.normalize_step.
    destruct (Path.isPosixPathSeparator x) eqn:Hx.
    + apply andb_true_iff in Hplain as [Hseg Hrest].
      assert (x = "/"%char) as -> by (now apply Ascii.eqb_eq in Hx).
      destruct (isPlainSegment_inv _ Hseg) as (Hne & _).
      rewrite (separator_plain path pre cur (String "/" rest) allow st _
                 Hpath Hinv Hseg).
      replace (Js.len pre + Js.len cur + 1)%Z
        with (Js.len (pre ++ cur ++ "/") + Js.len "")%Z
        by (rewrite !len_append; unfold Js.len; simpl; lia).
      rewrite (IH (pre ++ cur ++ "/") "").
      * cbn [Path.res]. now apply glue_glue.
      * rewrite Hpath. now rewrite !append_assoc.
      * split; [reflexivity|]. split; [|congruence].
        cbn [Path.lastSlash]. rewrite !len_append. unfold Js.len. simpl. lia.
      * exact Hrest.
    + replace (Js.len pre + Js.len cur + 1)%Z
        with (Js.len pre + Js.len (cur ++ String x ""))%Z
        by (rewrite !len_append; unfold Js.len; simpl; lia).
      set (st' := if Ascii.eqb x Path.CHAR_DOT && negb (Path.dots st =? -1)%Z
                  then _ else _).
      rewrite (IH pre (cur ++ String x "") st').
      * replace (Path.res st') with (Path.res st)
          by (subst st'; destruct (_ && _); reflexivity).
        now rewrite append_assoc.
      * rewrite Hpath. now rewrite !append_assoc.
      * destruct Hinv as (Hdots & Hls & Hcode). subst st'.
        split; [|split].
        -- rewrite dots_from_app. cbn [dots_from]. rewrite <- Hdots.
           destruct (Ascii.eqb x Path.CHAR_DOT && negb (Path.dots st =? -1)%Z);
             reflexivity.
        -- destruct (_ && _); exact Hls.
        -- intros _. destruct (_ && _); exact Hx.
      * exact Hplain.
Qed.

(** [normalizeString] copies a path in normal form, *)
Lemma normalizeString_plain (p : string) (allow : bool) :
  isPlain p = true -> Path.normalizeString p allow = p.
Proof.
  intros H. unfold Path.normalizeString.
  assert (Hinv : normInv "" "" (Path.mkNorm "" 0 (-1) 0 zero)).
  { split; [reflexivity|]. split; [reflexivity | congruence]. }
  exact (normalize_loop_plain p allow p "" "" _ eq_refl Hinv H).
Qed.

(** and drops a segment [.] in front of it. *)
Lemma normalizeString_dot_plain (p : string) (allow : bool) :
  isPlain p = true -> Path.normalizeString ("./" ++ p) allow = p.
Proof.
  intros H. unfold Path.normalizeString.
  assert (Hinv : normInv "./" "" (Path.mkNorm "" 0 1 0 "/"%char)).
  { split; [reflexivity|]. split; [reflexivity | congruence]. }
  exact (normalize_loop_plain ("./" ++ p) allow p "./" "" _ eq_refl Hinv H).
Qed.

Lemma charCodeAt_cons (x : ascii) (s : string) (i : Z) :
  (1 <= i)%Z -> Js.charCodeAt (String x s) i = Js.charCodeAt s (i - 1).
Proof.
  intros Hi. unfold Js.charCodeAt.
  replace (i <? 0)%Z with false by (symmetry; apply Z.ltb_ge; lia).
  replace (i - 1 <? 0)%Z with false by (symmetry; apply Z.ltb_ge; lia).
  replace (Z.to_nat i) with (S (Z.to_nat (i - 1))) by lia. reflexivity.
Qed.

(** A path in normal form does not end with a separator. *)
Lemma plain_no_trailing_separator (cur rest : string) :
  isPlainFrom cur rest = true -> rest <> "" ->
  Js.charIs rest (Js.len rest - 1) Path.CHAR_FORWARD_SLASH = false.
Proof.
  revert cur. induction rest as [|x rest IH]; intros cur H Hne; [congruence|].
  simpl in H. unfold Js.charIs.
  destruct rest as [|y rest].
  - change (Js.len (String x "") - 1)%Z with 0%Z. cbn.
    destruct (Path.isPosixPathSeparator x) eqn:Hx; [|exact Hx].
    apply andb_true_iff in H as [_ H]. discriminate H.
  - rewrite charCodeAt_cons
      by (unfold Js.len; cbn [String.length]; lia).
    replace (Js.len (String x (String y rest)) - 1 - 1)%Z
      with (Js.len (String y rest) - 1)%Z
      by (unfold Js.len; cbn [String.length]; lia).
    destruct (Path.isPosixPathSeparator x).
    + apply andb_true_iff in H as [_ H]. now apply (IH "").
    + now apply (IH (cur ++ String x "")).
Qed.

Lemma plain_nonempty (p : string) : isPlain p = true -> p <> "".
Proof. intros H ->. discriminate H. Qed.

Lemma plain_relative (p : string) :
  isPlain p = true -> Js.charIs p 0 Path.CHAR_FORWARD_SLASH = false.
Proof.
  destruct p as [|x p]; [discriminate|]. unfold isPlain. simpl. intros H.
  change (Js.charIs (String x p) 0 Path.CHAR_FORWARD_SLASH)
    with (Path.isPosixPathSeparator x).
  destruct (Path.isPosixPathSeparator x); [discriminate H | reflexivity].
Qed.

(** [path.normalize] leaves a path in normal form as it is. *)
Lemma normalize_plain (p : string) : isPlain p = true -> Path.normalize p = p.
Proof.
  intros H. pose proof (plain_nonempty p H) as Hne. unfold Path.normalize.
  replace (String.length p =? 0)%nat with false
    by (destruct p; [congruence | reflexivity]).
  rewrite (plain_relative p H). cbn [negb].
  rewrite (plain_no_trailing_separator "" p H Hne).
  rewrite (normalizeString_plain p true H).
  replace (String.length p =? 0)%nat with false
    by (destruct p; [congruence | reflexivity]).
  reflexivity.
Qed.

Lemma isPlainFrom_join (cur a b : string) :
  isPlainFrom cur (a ++ "/" ++ b) = isPlainFrom cur a && isPlainFrom "" b.
Proof.
  revert cur. induction a as [|x a IH]; intros cur; [reflexivity|].
  simpl. destruct (Path.isPosixPathSeparator x).
  - now rewrite IH, andb_assoc.
  - apply IH.
Qed.

(** [path.join] of two paths in normal form puts one separator between
    them. *)
Lemma join_plain (a b : string) :
  isPlain a = true -> isPlain b = true -> Path.join [a; b] = a ++ "/" ++ b.
Proof.
  intros Ha Hb. unfold Path.join. cbn [Path.joined].
  replace (0 <? String.length a)%nat with true
    by (pose proof (plain_nonempty a Ha); destruct a; [congruence | reflexivity]).
  replace (0 <? String.length b)%nat with true
    by (pose proof (plain_nonempty b Hb); destruct b; [congruence | reflexivity]).
  apply normalize_plain. unfold isPlain in *. rewrite isPlainFrom_join.
  now rewrite Ha, Hb.
Qed.

(** [path.join] of the empty path and a path in normal form is that path. *)
Lemma join_empty_plain (b : string) :
  isPlain b = true -> Path.join [""; b] = b.
Proof.
  intros Hb. pose proof (plain_nonempty b Hb) as Hne. unfold Path.join.
  destruct b as [|x b]; [congruence|]. cbn [Path.joined].
  change (0 <? String.length "")%nat with false.
  change (0 <? String.length (String x b))%nat with true. cbv iota.
  now apply normalize_plain.
Qed.

(** [path.join] of [.] and a path in normal form is that path. *)
Lemma join_dot_plain (b : string) :
  isPlain b = true -> Path.join ["."; b] = b.
Proof.
  intros Hb. pose proof (plain_nonempty b Hb) as Hne. unfold Path.join.
  destruct b as [|x b]; [congruence|]. cbn [Path.joined].
  change (0 <? String.length ".")%nat with true.
  change (0 <? String.length (String x b))%nat with true. cbv iota.
  unfold Path.normalize.
  change (String.length ("." ++ "/" ++ String x b) =? 0)%nat with false.
  cbv iota.
  change (Js.charIs ("." ++ "/" ++ String x b) 0 Path.CHAR_FORWARD_SLASH)
    with false.
  cbn [negb]. change ("." ++ "/" ++ String x b) with ("./" ++ String x b).
  rewrite (normalizeString_dot_plain _ true Hb).
  change (String.length (String x b) =? 0)%nat with false. cbv iota.
  replace (Js.charIs ("./" ++ String x b) (Js.len ("./" ++ String x b) - 1)
             Path.CHAR_FORWARD_SLASH) with false; [reflexivity|].
  symmetry.
  pose proof (plain_no_trailing_separator "" _ Hb Hne) as Ht.
  unfold Js.charIs in *.
  change ("./" ++ String x b) with (String "." (String "/" (String x b))).
  rewrite !charCodeAt_cons
    by (unfold Js.len; cbn [String.length]; lia).
  replace (Js.len (String "." (String "/" (String x b))) - 1 - 1 - 1)%Z
    with (Js.len (String x b) - 1)%Z
    by (unfold Js.len; cbn [String.length]; lia).
  exact Ht.
Qed.

Lemma append_inj_l (a b c : string) : a ++ b = a ++ c -> b = c.
Proof. induction a as [|x a IH]; simpl; intros H; [exact H|]. inversion H. auto. Qed.

(** ** The map of the registry *)

Lemma get_set_same (m : JsMap.t) (k v : string) :
  JsMap.get (JsMap.set m k v) k = Some v.
Proof.
  induction m as [|[k' v'] m IH]; simpl.
  - now rewrite String.eqb_refl.
  - destruct (String.eqb k' k) eqn:E; simpl; rewrite E; auto.
Qed.

Lemma get_set_other (m : JsMap.t) (k k' v : string) :
  k <> k' -> JsMap.get (JsMap.set m k v) k' = JsMap.get m k'.
Proof.
  intros Hne. induction m as [|[k0 v0] m IH]; simpl.
  - destruct (String.eqb_spec k k'); congruence.
  - destruct (String.eqb_spec k0 k) as [->|Hk]; simpl.
    + destruct (String.eqb_spec k k'); congruence.
    + destruct (String.eqb_spec k0 k'); auto.
Qed.

Lemma has_In (m : JsMap.t) (k : string) :
  JsMap.has m k = true <-> In k (JsMap.keys m).
Proof.
  unfold JsMap.has. induction m as [|[k0 v0] m IH]; simpl.
  - split; [discriminate | tauto].
  - destruct (String.eqb_spec k0 k) as [->|Hk]; [tauto|].
    rewrite IH. split; [tauto | intros [?|?]; congruence].
Qed.

Lemma keys_set (m : JsMap.t) (k v : string) :
  JsMap.keys (JsMap.set m k v)
  = if JsMap.has m k then JsMap.keys m else (JsMap.keys m ++ [k])%list.
Proof.
  unfold JsMap.has. induction m as [|[k0 v0] m IH]; simpl; auto.
  destruct (String.eqb_spec k0 k) as [->|Hk]; simpl; auto.
  rewrite IH. destruct (JsMap.get m k); auto.
Qed.

Lemma In_keys_set (m : JsMap.t) (k v x : string) :
  In x (JsMap.keys (JsMap.set m k v)) <-> In x (JsMap.keys m) \/ x = k.
Proof.
  rewrite keys_set. destruct (JsMap.has m k) eqn:H.
  - apply has_In in H. split; [tauto | intros [?|E]; subst; auto].
  - rewrite in_app_iff. simpl. intuition.
Qed.

(** ** The registry: [write], [writeUnhashed], [resolve], [isUnhashed] *)

Section RegistryFacts.

Context {host : Host}.

Lemma toRelPath_relative (this : AssetMap) (p : string) :
  Path.isAbsolute p = false -> _toRelPath p this = (Normal p, this).
Proof. intros H. unfold _toRelPath, bind, get_state. now rewrite H. Qed.

(** [_toRelPath] reads the root of the registry and nothing else, and
    changes nothing. *)
Lemma toRelPath_root (this this' : AssetMap) (p : string) :
  _targetDir this = _targetDir this' ->
  fst (_toRelPath p this) = fst (_toRelPath p this').
Proof.
  intros H. unfold _toRelPath, bind, get_state, throw, ret. rewrite H.
  destruct (Path.isAbsolute p); [|reflexivity].
  destruct (negb _); reflexivity.
Qed.

Lemma toRelPath_state (this : AssetMap) (p : string) :
  snd (_toRelPath p this) = this.
Proof.
  unfold _toRelPath, bind, get_state, throw, ret.
  destruct (Path.isAbsolute p); [|reflexivity].
  destruct (negb _); reflexivity.
Qed.

(** An absolute path under the root, written as the root, a separator and
    a rest, is registered as the rest. *)
Lemma toRelPath_under_root (this : AssetMap) (rel : string) :
  Path.isAbsolute (_targetDir this) = true ->
  _toRelPath (_targetDir this ++ "/" ++ rel) this = (Normal rel, this).
Proof.
  intros Habs. unfold _toRelPath, bind, get_state, throw, ret.
  replace (Path.isAbsolute (_targetDir this ++ "/" ++ rel)) with true.
  - unfold Js.startsWith. rewrite prefix_app. simpl negb. cbv iota.
    now rewrite substr_app_sep.
  - destruct (_targetDir this); simpl in *; congruence.
Qed.

(** An absolute path that does not start with the characters of the root is
    refused, and the error names it. *)
Lemma toRelPath_rejects (this : AssetMap) (p : string) :
  Path.isAbsolute p = true ->
  Js.startsWith p (_targetDir this) = false ->
  _toRelPath p this
  = (Throw (Error ("absolute path " ++ p ++ " that is not within target dir "
                   ++ _targetDir this)), this).
Proof.
  intros Habs Hs. unfold _toRelPath, bind, get_state, throw.
  now rewrite Habs, Hs.
Qed.

(** What [_create] does once the path has been made relative. *)
Lemma create_spec (this : AssetMap) (p rel : string) (c : Content) :
  _toRelPath p this = (Normal rel, this) ->
  _create p c this
  = (Normal (hashedPath rel c),
     mkAssetMap (_targetDir this)
       (JsMap.set (_assets this) rel (hashedPath rel c))).
Proof.
  intros H. unfold _create, bind. rewrite H. reflexivity.
Qed.

Lemma create_throws (this : AssetMap) (p : string) (c : Content) (e : JsError) :
  fst (_toRelPath p this) = Throw e -> _create p c this = (Throw e, this).
Proof.
  intros H. unfold _create, bind.
  pose proof (toRelPath_state this p) as Hs.
  destruct (_toRelPath p this) as [r s]. simpl in *. subst. reflexivity.
Qed.

(** [write] on a path that [_toRelPath] accepts: the mapping is recorded,
    then the file is written, and the outcome of [write] is the outcome of
    writing the file. *)
Lemma write_spec (this : AssetMap) (fs : FS) (p rel : string) (c : Content) :
  _toRelPath p this = (Normal rel, this) ->
  let dst := hashedPath rel c in
  let this' := mkAssetMap (_targetDir this) (JsMap.set (_assets this) rel dst) in
  let out := writeContent (Path.join [directory this; dst]) c fs in
  write p c (this, fs)
  = (match fst out with Normal _ => Normal dst | Throw e => Throw e end,
     (this', snd out)).
Proof.
  intros H dst this' out. unfold write, bind, on_fst, on_snd, get_state, ret.
  cbn [fst snd]. rewrite (create_spec _ _ _ _ H). cbn [fst snd].
  change (directory _) with (directory this). fold dst.
  subst out. destruct (writeContent _ c fs) as [[[]|e] fs']; reflexivity.
Qed.

Lemma writeUnhashed_spec (this : AssetMap) (fs : FS) (p rel : string)
    (c : Content) :
  _toRelPath p this = (Normal rel, this) ->
  let this' := mkAssetMap (_targetDir this) (JsMap.set (_assets this) rel rel) in
  let out := writeContent (Path.join [directory this; rel]) c fs in
  writeUnhashed p c (this, fs)
  = (match fst out with Normal _ => Normal rel | Throw e => Throw e end,
     (this', snd out)).
Proof.
  intros H this' out.
  unfold writeUnhashed, bind, on_fst, on_snd, get_state, ret, assets_set.
  cbn [fst snd]. rewrite H. cbn [fst snd].
  change (directory _) with (directory this).
  subst out. destruct (writeContent _ c fs) as [[[]|e] fs']; reflexivity.
Qed.

(** [resolve] on a key that is bound to a string that is not empty. *)
Lemma resolve_spec (this : AssetMap) (p rel v : string) :
  _toRelPath p this = (Normal rel, this) ->
  JsMap.get (_assets this) rel = Some v ->
  v <> "" ->
  resolve p this = (Normal v, this).
Proof.
  intros H Hget Hv. unfold resolve, bind, get_state. rewrite H, Hget.
  apply String.eqb_neq in Hv. simpl. now rewrite Hv.
Qed.

End RegistryFacts.

(** ** Claims on [write], [writeUnhashed] and [resolve] *)

Section RegistryClaims.

Context {host : Host}.

(** When [write] returns, the path was accepted by [_toRelPath]. *)
Lemma write_normal_inv (this this' : AssetMap) (fs fs' : FS) (p r : string)
    (c : Content) :
  write p c (this, fs) = (Normal r, (this', fs')) ->
  exists rel,
    _toRelPath p this = (Normal rel, this)
    /\ r = hashedPath rel c
    /\ this' = mkAssetMap (_targetDir this)
                 (JsMap.set (_assets this) rel (hashedPath rel c)).
Proof.
  intros H.
  destruct (_toRelPath p this) as [[rel|e] s] eqn:E.
  - pose proof (toRelPath_state this p) as Hs. rewrite E in Hs. simpl in Hs.
    subst s. exists rel. split; [reflexivity|].
    rewrite (write_spec this fs p rel c E) in H.
    destruct (fst (writeContent _ c fs)); inversion H; auto.
  - exfalso. assert (Hc : _create p c this = (Throw e, this)).
    { apply create_throws. now rewrite E. }
    unfold write, bind, on_fst in H. cbn [fst snd] in H.
    rewrite Hc in H. discriminate.
Qed.

(** The round trip for any path that [write] accepts, relative or not. *)
Lemma resolve_after_write_any (this this' : AssetMap) (fs fs' : FS)
    (p r : string) (c : Content) :
  write p c (this, fs) = (Normal r, (this', fs')) ->
  resolve p this' = (Normal r, this').
Proof.
  intros H. destruct (write_normal_inv _ _ _ _ _ _ _ H) as (rel & E & -> & ->).
  apply resolve_spec with (rel := rel).
  - set (t' := mkAssetMap (_targetDir this)
                  (JsMap.set (_assets this) rel (hashedPath rel c))).
    pose proof (toRelPath_root t' this p eq_refl) as Hr.
    pose proof (toRelPath_state t' p) as Hs.
    rewrite E in Hr. cbn [fst] in Hr.
    destruct (_toRelPath p t') as [x s]. cbn [fst snd] in Hr, Hs.
    now subst.
  - apply get_set_same.
  - apply join_nonempty.
Qed.

(** C2.  For every registry, every relative logical path [p] and every
    content [c]: when [write(p, c)] returns the path [r], [resolve(p)] on the
    registry that [write] leaves returns exactly [r]. *)
Theorem resolve_after_write (this this' : AssetMap) (fs fs' : FS)
    (p r : string) (c : Content) :
  Path.isAbsolute p = false ->
  write p c (this, fs) = (Normal r, (this', fs')) ->
  resolve p this' = (Normal r, this').
Proof. intros _. apply resolve_after_write_any. Qed.

(** C7.  For every relative logical path [p] and content [c], [write(p, c)]
    records for [p] the hashed path [dir(p)/basename(p)-h ext(p)], the parts
    joined as [path.join] joins them and [h] being the decimal digest of the
    bytes of [c], those of its encoding in UTF-8 when [c] is a string; it
    returns that path whenever it returns, and it returns
    when the file is written.  Two calls with the same bytes for the same
    logical path, on any registries, return the same hashed path.  When the
    directory and the file name are in normal form the hashed path is the
    directory, a separator and the file name; when the directory is [.],
    the path having none, it is the file name. *)
Theorem write_hashed_path (this : AssetMap) (fs : FS) (p : string)
    (c : Content) :
  Path.isAbsolute p = false ->
  let dst := hashedPath p c in
  let out := write p c (this, fs) in
  JsMap.get (_assets (fst (snd out))) p = Some dst
  /\ (forall r, fst out = Normal r -> r = dst)
  /\ (forall fs',
        writeContent (Path.join [directory this; dst]) c fs = (Normal tt, fs') ->
        fst out = Normal dst)
  /\ (forall (this2 : AssetMap) (fs2 : FS) (c2 : Content) (r r2 : string),
        Buffer_from c2 = Buffer_from c ->
        fst out = Normal r ->
        fst (write p c2 (this2, fs2)) = Normal r2 ->
        r = r2)
  /\ (isPlain (Path.dirname p) = true -> isPlain (hashedName p c) = true ->
      dst = Path.dirname p ++ "/" ++ hashedName p c)
  /\ (Path.dirname p = "." -> isPlain (hashedName p c) = true ->
      dst = hashedName p c).
Proof.
  intros Hrel dst out.
  assert (Hout : forall (t : AssetMap) (f : FS) (c' : Content),
             write p c' (t, f)
             = (match fst (writeContent
                             (Path.join [directory t; hashedPath p c']) c' f)
                with Normal _ => Normal (hashedPath p c') | Throw e => Throw e end,
                (mkAssetMap (_targetDir t)
                   (JsMap.set (_assets t) p (hashedPath p c')),
                 snd (writeContent
                        (Path.join [directory t; hashedPath p c']) c' f)))).
  { intros t f c'. apply (write_spec t f p p c').
    now apply toRelPath_relative. }
  subst out. rewrite Hout. cbn [fst snd _assets]. fold dst.
  split; [apply get_set_same|]. split; [|split; [|split; [|split]]].
  - intros r Hr. destruct (fst (writeContent _ c fs)); congruence.
  - intros fs' Hw. now rewrite Hw.
  - intros this2 fs2 c2 r r2 Hbytes Hr Hr2.
    rewrite Hout in Hr2. cbn [fst] in Hr2.
    assert (hashedPath p c2 = dst) as Hd.
    { unfold dst, hashedPath, hashedName. now rewrite Hbytes. }
    rewrite Hd in Hr2.
    destruct (fst (writeContent _ c fs)); [|discriminate].
    destruct (fst (writeContent _ c2 fs2)); congruence.
  - intros Hdir Hname. now apply join_plain.
  - intros Hdir Hname. unfold dst, hashedPath. rewrite Hdir.
    now apply join_dot_plain.
Qed.

(** C8.  For every registry and content [x], [writeUnhashed("index.html", x)]
    returns ["index.html"] (it throws only what writing the file throws);
    on the registry it leaves, [resolve("index.html")] returns
    ["index.html"] and [isUnhashed("index.html")] returns [true].  For every
    path that [_toRelPath] accepts, [writeUnhashed] binds the relative path
    to itself. *)
Theorem writeUnhashed_identity (this : AssetMap) (fs : FS) (x : Content) :
  let out := writeUnhashed "index.html" x (this, fs) in
  let this' := fst (snd out) in
  fst out
  = match fst (writeContent (Path.join [directory this; "index.html"]) x fs)
    with Normal _ => Normal "index.html" | Throw e => Throw e end
  /\ resolve "index.html" this' = (Normal "index.html", this')
  /\ isUnhashed "index.html" this' = (Normal true, this')
  /\ (forall p rel,
        _toRelPath p this = (Normal rel, this) ->
        JsMap.get (_assets (fst (snd (writeUnhashed p x (this, fs))))) rel
        = Some rel).
Proof.
  intros out this'.
  assert (E : _toRelPath "index.html" this = (Normal "index.html", this))
    by (now apply toRelPath_relative).
  subst this' out. rewrite (writeUnhashed_spec this fs _ _ x E).
  cbn [fst snd]. repeat split.
  - apply resolve_spec with (rel := "index.html").
    + now apply toRelPath_relative.
    + apply get_set_same.
    + discriminate.
  - unfold isUnhashed, bind, get_state. cbn [_assets].
    rewrite get_set_same. reflexivity.
  - intros p rel Hp. rewrite (writeUnhashed_spec this fs _ _ x Hp).
    cbn [fst snd _assets]. apply get_set_same.
Qed.

End RegistryClaims.

(** ** The cache tiers of [buildServiceWorker] *)

Lemma includes_existsb (l : list string) (x : string) :
  Js.includes l x = existsb (String.eqb x) l.
Proof. reflexivity. Qed.

Lemma isPreCached_inPrecacheSet (p : string) :
  isPreCached p = inPrecacheSet p.
Proof.
  unfold isPreCached, inPrecacheSet. simpl existsb.
  rewrite orb_false_r, !orb_assoc. reflexivity.
Qed.

(** One turn of the loop adds the hashed path to the list of its tier, at
    the end, and to no other list. *)
Lemma sw_visit_tier (acc : SwLists) (logical hashed : string) :
  sw_visit acc (logical, hashed)
  = mkSwLists
      (unhashedPreCachedAssets acc
         ++ tierPaths UnhashedPrecache [(logical, hashed)])%list
      (hashedPreCachedAssets acc
         ++ tierPaths HashedPrecache [(logical, hashed)])%list
      (hashedCachedOnRequestAssets acc
         ++ tierPaths HashedOnRequest [(logical, hashed)])%list.
Proof.
  unfold sw_visit, tierPaths, cacheTier. cbn [filter fst snd].
  rewrite includes_existsb, isPreCached_inPrecacheSet.
  change SERVICEWORKER_NONCACHED_ASSETS with exclusionList.
  destruct acc as [u h r]. cbn [unhashedPreCachedAssets hashedPreCachedAssets
                                 hashedCachedOnRequestAssets].
  destruct (existsb _ exclusionList); cbn; [now rewrite !app_nil_r|].
  destruct (String.eqb logical hashed); cbn; [now rewrite !app_nil_r|].
  destruct (inPrecacheSet logical); cbn; now rewrite !app_nil_r.
Qed.

Lemma tierPaths_cons (t : CacheTier) (e : string * string)
    (l : list (string * string)) :
  tierPaths t (e :: l) = (tierPaths t [e] ++ tierPaths t l)%list.
Proof.
  unfold tierPaths. cbn [filter].
  destruct (CacheTier_eqb _ t); reflexivity.
Qed.

Lemma fold_sw_visit (entries : list (string * string)) (acc : SwLists) :
  fold_left sw_visit entries acc
  = mkSwLists
      (unhashedPreCachedAssets acc ++ tierPaths UnhashedPrecache entries)%list
      (hashedPreCachedAssets acc ++ tierPaths HashedPrecache entries)%list
      (hashedCachedOnRequestAssets acc
         ++ tierPaths HashedOnRequest entries)%list.
Proof.
  revert acc. induction entries as [|[logical hashed] l IH]; intros acc.
  - destruct acc. cbn. now rewrite !app_nil_r.
  - rewrite (tierPaths_cons UnhashedPrecache (logical, hashed) l),
            (tierPaths_cons HashedPrecache (logical, hashed) l),
            (tierPaths_cons HashedOnRequest (logical, hashed) l).
    cbn [fold_left]. rewrite IH, sw_visit_tier.
    cbn [unhashedPreCachedAssets hashedPreCachedAssets
         hashedCachedOnRequestAssets].
    now rewrite !app_assoc.
Qed.

(** C4.  The lists that [buildServiceWorker] fills are the hashed paths of
    the entries tier by tier, the tier of a pair being decided by the rules
    in their order: excluded when the logical path is in the exclusion list,
    else unhashed-precache when logical and hashed path are equal, else
    hashed-precache when the logical path ends in an extension of the
    precache set, else hashed-on-request.  On the example registry
    [index.html] is unhashed-precache, the application script
    hashed-precache, the worker script hashed-on-request and the legacy
    script excluded. *)
Theorem sw_lists_by_tier (entries : list (string * string)) :
  sw_lists entries
  = mkSwLists ("index.html" :: tierPaths UnhashedPrecache entries)
              (tierPaths HashedPrecache entries)
              (tierPaths HashedOnRequest entries)
  /\ cacheTier "index.html" "index.html" = UnhashedPrecache
  /\ cacheTier "hydrogen.js" "hydrogen-abc123.js" = HashedPrecache
  /\ cacheTier "worker.js" "worker-def456.js" = HashedOnRequest
  /\ cacheTier "hydrogen-legacy.js" "hydrogen-legacy-ghi789.js" = Excluded
  /\ sw_lists exampleEntries
     = mkSwLists ["index.html"; "index.html"] ["hydrogen-abc123.js"]
                 ["worker-def456.js"].
Proof.
  split; [|repeat split; vm_compute; reflexivity].
  unfold sw_lists. rewrite fold_sw_visit. reflexivity.
Qed.


(** ** [removeDirIfExists] *)

Section CleanupFacts.

Context {host : Host}.

(** C9.  [removeDirIfExists(targetDir)] completes when the removal
    completes, completes as well when the removal throws an error whose
    code is [ENOENT], and throws the very error of the removal when its code
    is anything else; the file system is the one the removal leaves. *)
Theorem removeDirIfExists_enoent (targetDir : string) (fs fs' : FS) :
  (fs_rmdir targetDir fs = (Normal tt, fs') ->
   removeDirIfExists targetDir fs = (Normal tt, fs'))
  /\ (forall err,
        fs_rmdir targetDir fs = (Throw err, fs') ->
        err_code err = Some "ENOENT" ->
        removeDirIfExists targetDir fs = (Normal tt, fs'))
  /\ (forall err,
        fs_rmdir targetDir fs = (Throw err, fs') ->
        err_code err <> Some "ENOENT" ->
        removeDirIfExists targetDir fs = (Throw err, fs')).
Proof.
  unfold removeDirIfExists, try_catch. repeat split.
  - intros H. now rewrite H.
  - intros err H Hc. now rewrite H, Hc.
  - intros err H Hc. rewrite H.
    destruct (err_code err) as [c|]; [|reflexivity].
    destruct (String.eqb_spec c "ENOENT"); [subst; congruence | reflexivity].
Qed.

End CleanupFacts.

(** ** The order of strings and the sorted list of a registry *)

Lemma leb_cons (x y : ascii) (a b : string) :
  String.leb (String x a) (String y b)
  = match Ascii.compare x y with
    | Eq => String.leb a b
    | Lt => true
    | Gt => false
    end.
Proof.
  unfold String.leb. simpl. now destruct (Ascii.compare x y).
Qed.

Lemma leb_trans (a b c : string) :
  String.leb a b = true -> String.leb b c = true -> String.leb a c = true.
Proof.
  revert b c. induction a as [|x a IH]; intros [|y b] [|z c]; try easy.
  rewrite !leb_cons. unfold Ascii.compare.
  destruct (N.compare_spec (N_of_ascii x) (N_of_ascii y)) as [Hxy|Hxy|Hxy];
    destruct (N.compare_spec (N_of_ascii y) (N_of_ascii z)) as [Hyz|Hyz|Hyz];
    destruct (N.compare_spec (N_of_ascii x) (N_of_ascii z)) as [Hxz|Hxz|Hxz];
    try easy; try lia.
  apply IH.
Qed.

Lemma leb_refl (a : string) : String.leb a a = true.
Proof. destruct (String.leb_total a a); assumption. Qed.

Lemma leb_transitive : Transitive (fun a b => is_true (String.leb a b)).
Proof. intros a b c. apply leb_trans. Qed.

(** A list of strings has one sorted arrangement. *)
Lemma sorted_unique (l1 l2 : list string) :
  StronglySorted (fun a b => is_true (String.leb a b)) l1 ->
  StronglySorted (fun a b => is_true (String.leb a b)) l2 ->
  Permutation l1 l2 -> l1 = l2.
Proof.
  revert l2. induction l1 as [|a l1 IH]; intros l2 H1 H2 HP.
  - now apply Permutation_nil in HP.
  - destruct l2 as [|b l2].
    + apply Permutation_sym, Permutation_nil in HP. discriminate.
    + apply StronglySorted_inv in H1 as [H1 Ha].
      apply StronglySorted_inv in H2 as [H2 Hb].
      rewrite Forall_forall in Ha, Hb.
      assert (a = b) as ->.
      { assert (In a (b :: l2)) as [->|Ia]
          by (eapply Permutation_in; [exact HP | now left]); [reflexivity|].
        assert (In b (a :: l1)) as [->|Ib]
          by (eapply Permutation_in;
              [apply Permutation_sym; exact HP | now left]); [reflexivity|].
        apply String.leb_antisym; [now apply Ha | now apply Hb]. }
      f_equal. apply IH; auto. now apply Permutation_cons_inv in HP.
Qed.

Lemma Array_sort_sorted (l : list string) :
  StronglySorted (fun a b => is_true (String.leb a b)) (Array_sort l).
Proof. apply StringSort.StronglySorted_sort, leb_transitive. Qed.

Lemma Array_sort_perm (l : list string) : Permutation l (Array_sort l).
Proof. apply StringSort.Permuted_sort. Qed.

(** [sort] gives the same array for two arrangements of the same strings. *)
Lemma Array_sort_permutation (l1 l2 : list string) :
  Permutation l1 l2 -> Array_sort l1 = Array_sort l2.
Proof.
  intros HP. apply sorted_unique; try apply Array_sort_sorted.
  eapply Permutation_trans; [apply Permutation_sym, Array_sort_perm|].
  eapply Permutation_trans; [exact HP | apply Array_sort_perm].
Qed.

Lemma not_permutation_replace (pre post : list string) (v v' : string) :
  v <> v' -> ~ Permutation (pre ++ v :: post)%list (pre ++ v' :: post)%list.
Proof.
  intros Hne HP.
  rewrite (Permutation_count_occ string_dec) in HP. specialize (HP v).
  rewrite (count_occ_elt_eq string_dec pre post eq_refl) in HP.
  rewrite (count_occ_elt_neq string_dec pre post) in HP by congruence.
  lia.
Qed.

(** ** Joining with commas *)

Lemma comma_split (x y r1 r2 : string) :
  commaFree x -> commaFree y ->
  x ++ "," ++ r1 = y ++ "," ++ r2 -> x = y /\ r1 = r2.
Proof.
  unfold commaFree. revert y.
  induction x as [|c x IH]; intros [|d y] Hx Hy H; simpl in *.
  - inversion H. auto.
  - inversion H. subst d. simpl in Hy. discriminate.
  - inversion H. subst c. simpl in Hx. discriminate.
  - inversion H. subst d.
    apply orb_false_iff in Hx as [_ Hx]. apply orb_false_iff in Hy as [_ Hy].
    destruct (IH y Hx Hy H2) as [-> ->]. auto.
Qed.

Lemma join_cons2 (x y : string) (l : list string) :
  Js.join "," (x :: y :: l) = x ++ "," ++ Js.join "," (y :: l).
Proof. reflexivity. Qed.

(** On arrays of the same length whose strings hold no comma, [join(",")]
    loses nothing. *)
Lemma join_comma_injective (l1 l2 : list string) :
  List.length l1 = List.length l2 ->
  Forall commaFree l1 -> Forall commaFree l2 ->
  Js.join "," l1 = Js.join "," l2 -> l1 = l2.
Proof.
  revert l2. induction l1 as [|x l1 IH]; intros [|y l2] Hlen F1 F2 H;
    try discriminate; [reflexivity|].
  inversion F1 as [|? ? Fx F1']; inversion F2 as [|? ? Fy F2']; subst.
  destruct l1 as [|x2 l1]; destruct l2 as [|y2 l2]; try discriminate.
  - simpl in H. now subst.
  - rewrite !join_cons2 in H.
    destruct (comma_split _ _ _ _ Fx Fy H) as [-> H'].
    f_equal. apply IH; auto.
Qed.

(** ** The release fingerprint *)

Section FingerprintFacts.

Context {host : Host}.

Lemma build_globalHash_fingerprint (assets : AssetMap) :
  build_globalHash assets = fingerprint (map snd (iterator assets)).
Proof. reflexivity. Qed.

Lemma build_globalHash_permutation (a1 a2 : AssetMap) :
  Permutation (iterator a1) (iterator a2) ->
  build_globalHash a1 = build_globalHash a2.
Proof.
  intros HP. rewrite !build_globalHash_fingerprint. unfold fingerprint.
  now rewrite (Array_sort_permutation _ _ (Permutation_map snd HP)).
Qed.

(** The two registries have the same sorted, comma-joined list, whatever
    the digest. *)
Lemma comma_registries_same_list :
  Js.join "," (Array_sort (map snd (iterator commaRegistryA)))
  = Js.join "," (Array_sort (map snd (iterator commaRegistryB))).
Proof. vm_compute. reflexivity. Qed.

Lemma comma_registries_same_fingerprint :
  build_globalHash commaRegistryA = build_globalHash commaRegistryB.
Proof.
  rewrite !build_globalHash_fingerprint. unfold fingerprint.
  now rewrite comma_registries_same_list.
Qed.

(** Replacing one hashed path by another changes the sorted, comma-joined
    list when no hashed path holds a comma. *)
Lemma joined_list_changes (pre post : list string) (v v' : string) :
  v <> v' ->
  Forall commaFree (pre ++ v :: post)%list ->
  Forall commaFree (pre ++ v' :: post)%list ->
  Js.join "," (Array_sort (pre ++ v :: post)%list)
  <> Js.join "," (Array_sort (pre ++ v' :: post)%list).
Proof.
  intros Hne F1 F2 H.
  apply join_comma_injective in H.
  - apply (not_permutation_replace pre post v v' Hne).
    eapply Permutation_trans; [apply Array_sort_perm|].
    rewrite H. apply Permutation_sym, Array_sort_perm.
  - rewrite <- (Permutation_length (Array_sort_perm _)).
    rewrite <- (Permutation_length (Array_sort_perm _)).
    rewrite !length_app. reflexivity.
  - eapply Permutation_Forall; [apply Array_sort_perm | exact F1].
  - eapply Permutation_Forall; [apply Array_sort_perm | exact F2].
Qed.

(** C3, as amended.  The release fingerprint is the digest of the sorted,
    comma-joined list of the hashed paths of the registry, and so it is the
    same for two registries whose entries are arrangements of one another.
    When one hashed path is replaced by another and no hashed path holds a
    comma, the sorted, comma-joined list changes, and the fingerprint
    changes unless the digest is the same on the two lists. *)
Theorem fingerprint_sorted_digest :
  (forall assets : AssetMap,
     build_globalHash assets
     = contentHash
         (Text (Js.join "," (Array_sort (map snd (iterator assets))))))
  /\ (forall a1 a2 : AssetMap,
        Permutation (iterator a1) (iterator a2) ->
        build_globalHash a1 = build_globalHash a2)
  /\ (forall (dir : string) (pre post : list (string * string))
             (k k' v v' : string),
        v <> v' ->
        Forall commaFree (v' :: map snd (pre ++ (k, v) :: post)%list) ->
        let a := mkAssetMap dir (pre ++ (k, v) :: post)%list in
        let b := mkAssetMap dir (pre ++ (k', v') :: post)%list in
        let s_a := Js.join "," (Array_sort (map snd (iterator a))) in
        let s_b := Js.join "," (Array_sort (map snd (iterator b))) in
        s_a <> s_b
        /\ ((contentHash (Text s_a) = contentHash (Text s_b) -> s_a = s_b) ->
            build_globalHash a <> build_globalHash b)).
Proof.
  split; [reflexivity|]. split; [exact build_globalHash_permutation|].
  intros dir pre post k k' v v' Hne F a b s_a s_b.
  assert (Hs : s_a <> s_b).
  { subst s_a s_b a b. unfold iterator, JsMap.entries. cbn [_assets].
    rewrite !map_app. cbn [map snd].
    inversion F as [|? ? Fv' Fall]; subst.
    rewrite map_app in Fall. cbn [map snd] in Fall.
    apply joined_list_changes; auto.
    apply Forall_app in Fall as [Fpre Fpost].
    apply Forall_app. split; [exact Fpre|].
    inversion Fpost; subst. now constructor. }
  split; [exact Hs|].
  intros Hinj Heq. apply Hs, Hinj. exact Heq.
Qed.

End FingerprintFacts.

(** ** [addSubMap] *)

(** What [addSubMap] does when its guard lets the sub-registry in. *)
Lemma addSubMap_accepts (P S : AssetMap) :
  Js.startsWith (directory S) (directory P) = true ->
  addSubMap S P
  = (Normal tt,
     mkAssetMap (_targetDir P)
       (fold_left
          (addSubMap_visit
             (Js.substr (directory S) (String.length (directory P) + 1)))
          (iterator S) (_assets P))).
Proof.
  intros H. unfold addSubMap, bind, get_state, put_state. now rewrite H.
Qed.

(** And when it does not: the registry is left as it was. *)
Lemma addSubMap_rejects (P S : AssetMap) :
  Js.startsWith (directory S) (directory P) = false ->
  addSubMap S P
  = (Throw (Error ("map directory doesn't start with this directory: "
                   ++ directory S ++ " " ++ directory P)), P).
Proof.
  intros H. unfold addSubMap, bind, get_state, throw. now rewrite H.
Qed.

Lemma nestedAt_offset (parent child rel : string) :
  nestedAt parent child rel ->
  Js.startsWith child parent = true
  /\ Js.substr child (String.length parent + 1) = rel.
Proof.
  unfold nestedAt. intros ->. split.
  - apply prefix_app.
  - apply substr_app_sep.
Qed.

Lemma fold_visit_get_other (rel x : string) (l : list (string * string))
    (m : JsMap.t) :
  (forall k v, In (k, v) l -> Path.join [rel; k] <> x) ->
  JsMap.get (fold_left (addSubMap_visit rel) l m) x = JsMap.get m x.
Proof.
  revert m. induction l as [|[k v] l IH]; intros m H; [reflexivity|].
  cbn [fold_left]. rewrite IH.
  - unfold addSubMap_visit. apply get_set_other. apply (H k v). now left.
  - intros k' v' Hin. apply (H k' v'). now right.
Qed.

Lemma fold_visit_keys (rel x : string) (l : list (string * string))
    (m : JsMap.t) :
  In x (JsMap.keys (fold_left (addSubMap_visit rel) l m))
  <-> In x (JsMap.keys m)
      \/ exists k v, In (k, v) l /\ x = Path.join [rel; k].
Proof.
  revert m. induction l as [|[k v] l IH]; intros m.
  - simpl. split; [auto | intros [H|(k & v & [] & _)]; exact H].
  - cbn [fold_left]. rewrite IH. unfold addSubMap_visit.
    rewrite In_keys_set. split.
    + intros [[H| ->]|(k' & v' & Hin & ->)]; auto.
      * right. exists k, v. split; [now left | reflexivity].
      * right. exists k', v'. split; [now right | reflexivity].
    + intros [H|(k' & v' & [Heq|Hin] & ->)]; auto.
      * inversion Heq; subst. auto.
      * right. eauto.
Qed.

(** A root that lies under another, offset given, is a descendant of it
    segment by segment. *)
Lemma segments_from_join (a b cur : string) :
  segments_from (a ++ "/" ++ b) cur
  = (segments_from a cur ++ segments_from b "")%list.
Proof.
  revert cur. induction a as [|x a IH]; intros cur; [reflexivity|].
  simpl. destruct (Path.isPosixPathSeparator x).
  - now rewrite IH.
  - apply IH.
Qed.

Lemma list_prefix_app (l l' : list string) : list_prefix l (l ++ l') = true.
Proof.
  induction l as [|a l IH]; [reflexivity|].
  simpl. now rewrite String.eqb_refl.
Qed.

Lemma nestedAt_isDescendant (parent child rel : string) :
  nestedAt parent child rel -> isDescendant parent child = true.
Proof.
  unfold nestedAt, isDescendant, segments. intros ->.
  rewrite segments_from_join, filter_app. apply list_prefix_app.
Qed.

(** The sub-registry is the one that [writeUnhashed("a.js", ...)] and
    [write("./a.js", ...)] build. *)
Example collisionSub_built :
  let s0 := (mkAssetMap "/proj/target/themes" [], disk0) in
  let s1 := snd (writeUnhashed (host := memHost) "a.js" (Text "y") s0) in
  let s2 := snd (write (host := memHost) "./a.js" (Text "x") s1) in
  fst s2 = collisionSub.
Proof. vm_compute. reflexivity. Qed.

(** The entry of ["a.js"] is overwritten by the entry of ["./a.js"], which
    [path.join] sends to the same key. *)
Lemma addSubMap_collision_counterexample :
  nestedAt (directory collisionParent) (directory collisionSub) "themes"
  /\ ~ addsEveryEntry collisionParent collisionSub "themes".
Proof.
  split; [reflexivity|].
  intros (P' & Hadd & Hall).
  specialize (Hall "a.js" "a.js" (or_introl eq_refl)).
  vm_compute in Hadd. inversion Hadd; subst P'.
  vm_compute in Hall. discriminate.
Qed.

(** C1, as amended.  For every parent registry [P] and sub-registry [S]
    whose root is the root of [P], a separator and a relative path [rel],
    [addSubMap(S)] completes and leaves the root of [P] as it is; every
    entry (logical, hashed) of [S] is set in [P] as
    ([rel]/logical, [rel]/hashed), [path.join] doing the prefixing on both
    halves, and is found there afterwards unless a later entry of [S] has
    the same prefixed logical path; the prefixed logical path of every entry
    of [S] is a key of [P] afterwards, [P] gains no other key, and the
    bindings of [P] for other keys stay.  When [rel] and the paths of [S]
    are in normal form and the keys of [S] are distinct, [P] binds
    [rel ++ "/" ++ logical] to [rel ++ "/" ++ hashed] for every entry of
    [S]: no entry is dropped. *)
Theorem addSubMap_prefixes_entries (P S : AssetMap) (rel : string) :
  nestedAt (directory P) (directory S) rel ->
  exists P',
    addSubMap S P = (Normal tt, P')
    /\ directory P' = directory P
    /\ (forall l1 l2 logical hashed,
          iterator S = (l1 ++ (logical, hashed) :: l2)%list ->
          (forall k v, In (k, v) l2 ->
                       Path.join [rel; k] <> Path.join [rel; logical]) ->
          JsMap.get (_assets P') (Path.join [rel; logical])
          = Some (Path.join [rel; hashed]))
    /\ (forall logical hashed,
          In (logical, hashed) (iterator S) ->
          JsMap.has (_assets P') (Path.join [rel; logical]) = true)
    /\ (forall x,
          In x (JsMap.keys (_assets P'))
          <-> In x (JsMap.keys (_assets P))
              \/ exists logical hashed,
                   In (logical, hashed) (iterator S)
                   /\ x = Path.join [rel; logical])
    /\ (forall x,
          (forall logical hashed,
             In (logical, hashed) (iterator S) ->
             Path.join [rel; logical] <> x) ->
          JsMap.get (_assets P') x = JsMap.get (_assets P) x)
    /\ (isPlain rel = true ->
        NoDup (JsMap.keys (_assets S)) ->
        (forall k v, In (k, v) (iterator S) ->
                     isPlain k = true /\ isPlain v = true) ->
        forall logical hashed,
          In (logical, hashed) (iterator S) ->
          JsMap.get (_assets P') (rel ++ "/" ++ logical)
          = Some (rel ++ "/" ++ hashed)).
Proof.
  intros Hn. destruct (nestedAt_offset _ _ _ Hn) as [Hstart Hrel].
  eexists. split; [rewrite (addSubMap_accepts _ _ Hstart), Hrel; reflexivity|].
  cbn [directory _targetDir _assets].
  assert (Hlast : forall l1 l2 logical hashed,
             iterator S = (l1 ++ (logical, hashed) :: l2)%list ->
             (forall k v, In (k, v) l2 ->
                          Path.join [rel; k] <> Path.join [rel; logical]) ->
             JsMap.get (fold_left (addSubMap_visit rel) (iterator S) (_assets P))
               (Path.join [rel; logical])
             = Some (Path.join [rel; hashed])).
  { intros l1 l2 logical hashed HS Hlater. rewrite HS, fold_left_app.
    cbn [fold_left]. rewrite fold_visit_get_other by exact Hlater.
    unfold addSubMap_visit at 1. apply get_set_same. }
  split; [reflexivity|]. split; [exact Hlast|]. split; [|split; [|split]].
  - intros logical hashed Hin. apply has_In, fold_visit_keys. right. eauto.
  - intros x. apply fold_visit_keys.
  - intros x Hx. now apply fold_visit_get_other.
  - intros Hpl Hnd Hplain logical hashed Hin.
    destruct (in_split _ _ Hin) as (l1 & l2 & HS).
    destruct (Hplain _ _ Hin) as [Hk Hv].
    rewrite <- (join_plain rel logical Hpl Hk),
            <- (join_plain rel hashed Hpl Hv).
    apply (Hlast l1 l2 _ _ HS). intros k v Hkv.
    assert (Hin' : In (k, v) (iterator S))
      by (rewrite HS; apply in_or_app; right; now right).
    rewrite (join_plain rel k Hpl (proj1 (Hplain _ _ Hin'))),
            (join_plain rel logical Hpl Hk).
    intros E. apply append_inj_l, append_inj_l in E. subst k.
    unfold JsMap.keys, iterator, JsMap.entries in Hnd, HS.
    rewrite HS, map_app in Hnd. cbn [map fst] in Hnd.
    apply NoDup_remove_2 in Hnd. apply Hnd, in_or_app. right.
    now apply (in_map fst) in Hkv.
Qed.

(** The example of the specification: a sub-registry rooted at
    [<root>/themes/dark] is re-keyed under [themes/dark/]. *)
Example addSubMap_themes_dark :
  addSubMap
    (mkAssetMap "/proj/target/themes/dark"
       [ ("icons/send.svg", "icons/send-1.svg"); ("bg.png", "bg-2.png") ])
    (mkAssetMap "/proj/target" [ ("olm.wasm", "olm-3.wasm") ])
  = (Normal tt,
     mkAssetMap "/proj/target"
       [ ("olm.wasm", "olm-3.wasm");
         ("themes/dark/icons/send.svg", "themes/dark/icons/send-1.svg");
         ("themes/dark/bg.png", "themes/dark/bg-2.png") ]).
Proof. vm_compute. reflexivity. Qed.

(** A sub-registry with the root of its parent, as [build] makes one for
    the assets of olm, is merged under its own keys. *)
Example addSubMap_same_root :
  addSubMap (mkAssetMap "/proj/target" [ ("olm.wasm", "olm-3.wasm") ])
            (mkAssetMap "/proj/target" [])
  = (Normal tt, mkAssetMap "/proj/target" [ ("olm.wasm", "olm-3.wasm") ]).
Proof. vm_compute. reflexivity. Qed.

(** A parent rooted at [/]: the root ends with the separator already, and
    the offset loses its first character. *)
Example addSubMap_root_parent :
  addSubMap (mkAssetMap "/themes" [ ("bg.png", "bg-2.png") ])
            (mkAssetMap "/" [])
  = (Normal tt, mkAssetMap "/" [ ("hemes/bg.png", "hemes/bg-2.png") ]).
Proof. vm_compute. reflexivity. Qed.

(** C5, where the script departs from it.  The root [/proj/target2] is not
    under [/proj/target], yet it starts with the same characters:
    [addSubMap] lets the sub-registry in and merges its entries under an
    empty prefix. *)
Theorem addSubMap_sibling_accepted :
  isDescendant "/proj/target" "/proj/target2" = false
  /\ addSubMap (mkAssetMap "/proj/target2" [ ("x.js", "x-1.js") ])
               (mkAssetMap "/proj/target" [])
     = (Normal tt, mkAssetMap "/proj/target" [ ("x.js", "x-1.js") ]).
Proof. split; vm_compute; reflexivity. Qed.

(** C6, where the script departs from it.  The absolute path
    [/proj/target2/x.js] is not under the root [/proj/target], yet it starts
    with the same characters: [_toRelPath] accepts it, and [write] records
    it under the key [/x.js], which is an absolute path. *)
Theorem toRelPath_sibling_accepted :
  isDescendant "/proj/target" "/proj/target2/x.js" = false
  /\ _toRelPath "/proj/target2/x.js" (mkAssetMap "/proj/target" [])
     = (Normal "/x.js", mkAssetMap "/proj/target" [])
  /\ Path.isAbsolute "/x.js" = true
  /\ write (host := memHost) "/proj/target2/x.js" (Bytes "x")
       (mkAssetMap "/proj/target" [], disk0)
     = (Normal "/x-784609514.js",
        (mkAssetMap "/proj/target" [ ("/x.js", "/x-784609514.js") ],
         MemFs.mk (MemFs.dirs disk0)
           [ ("/proj/target/x-784609514.js", "x") ])).
Proof. repeat split; vm_compute; reflexivity. Qed.

(** * More of the script *)

(** ** More on the map of the registry *)

Lemma size_set (m : JsMap.t) (k v : string) :
  JsMap.size (JsMap.set m k v)
  = if JsMap.has m k then JsMap.size m else S (JsMap.size m).
Proof.
  unfold JsMap.size.
  rewrite <- !(length_map fst). fold (JsMap.keys (JsMap.set m k v)).
  fold (JsMap.keys m). rewrite keys_set.
  destruct (JsMap.has m k); [reflexivity|].
  rewrite length_app. simpl. lia.
Qed.

Lemma has_set_same (m : JsMap.t) (k v : string) :
  JsMap.has (JsMap.set m k v) k = true.
Proof. unfold JsMap.has. now rewrite get_set_same. Qed.

Lemma has_set_other (m : JsMap.t) (k k' v : string) :
  k <> k' -> JsMap.has (JsMap.set m k v) k' = JsMap.has m k'.
Proof. intros H. unfold JsMap.has. now rewrite get_set_other. Qed.

Lemma set_set (m : JsMap.t) (k v v' : string) :
  JsMap.set (JsMap.set m k v) k v' = JsMap.set m k v'.
Proof.
  induction m as [|[k0 v0] m IH]; simpl.
  - now rewrite String.eqb_refl.
  - destruct (String.eqb k0 k) eqn:E; simpl; rewrite E; [reflexivity|].
    now rewrite IH.
Qed.

Lemma NoDup_keys_set (m : JsMap.t) (k v : string) :
  NoDup (JsMap.keys m) -> NoDup (JsMap.keys (JsMap.set m k v)).
Proof.
  intros H. rewrite keys_set. destruct (JsMap.has m k) eqn:Hk; [exact H|].
  apply NoDup_app; [exact H | repeat constructor; simpl; tauto |].
  intros x Hx [<-|[]]. apply has_In in Hx. congruence.
Qed.

Section RegistryLaws.

Context {host : Host}.

(** The registry that [write] leaves, whatever becomes of the file. *)
Lemma write_registry (this : AssetMap) (fs : FS) (p rel : string)
    (c : Content) :
  _toRelPath p this = (Normal rel, this) ->
  fst (snd (write p c (this, fs)))
  = mkAssetMap (_targetDir this)
      (JsMap.set (_assets this) rel (hashedPath rel c)).
Proof. intros H. now rewrite (write_spec this fs p rel c H). Qed.

Lemma writeUnhashed_registry (this : AssetMap) (fs : FS) (p rel : string)
    (c : Content) :
  _toRelPath p this = (Normal rel, this) ->
  fst (snd (writeUnhashed p c (this, fs)))
  = mkAssetMap (_targetDir this) (JsMap.set (_assets this) rel rel).
Proof. intros H. now rewrite (writeUnhashed_spec this fs p rel c H). Qed.

(** When [_toRelPath] refuses the path, [write] throws what it threw and
    touches neither the registry nor the disk. *)
Lemma write_refused (this : AssetMap) (fs : FS) (p : string) (c : Content)
    (e : JsError) :
  fst (_toRelPath p this) = Throw e ->
  write p c (this, fs) = (Throw e, (this, fs)).
Proof.
  intros H. unfold write, bind, on_fst. cbn [fst snd].
  now rewrite (create_throws this p c e H).
Qed.

Lemma writeUnhashed_refused (this : AssetMap) (fs : FS) (p : string)
    (c : Content) (e : JsError) :
  fst (_toRelPath p this) = Throw e ->
  writeUnhashed p c (this, fs) = (Throw e, (this, fs)).
Proof.
  intros H. unfold writeUnhashed, bind, on_fst. cbn [fst snd].
  pose proof (toRelPath_state this p) as Hs.
  destruct (_toRelPath p this) as [r s]. cbn [fst snd] in *. now subst.
Qed.

(** X1: a second [write] of a logical path replaces the binding of the first:
    the registry is the one a single [write] of the second content leaves,
    its size is that after the first [write], and [resolve] gives the
    second hashed path. *)
Theorem write_twice (this : AssetMap) (fs1 fs2 : FS) (p : string)
    (c1 c2 : Content) :
  Path.isAbsolute p = false ->
  let this1 := fst (snd (write p c1 (this, fs1))) in
  let this2 := fst (snd (write p c2 (this1, fs2))) in
  this2 = fst (snd (write p c2 (this, fs2)))
  /\ size this2 = size this1
  /\ size this1 = (if has this p then size this else S (size this))
  /\ resolve p this2 = (Normal (hashedPath p c2), this2).
Proof.
  intros Hrel this1 this2.
  assert (E : forall t, _toRelPath p t = (Normal p, t))
    by (intros t; now apply toRelPath_relative).
  subst this2 this1. rewrite !(write_registry _ _ p p _ (E _)).
  cbn [_targetDir _assets]. rewrite set_set.
  split; [reflexivity|]. unfold size, has. cbn [_assets].
  split; [|split].
  - rewrite !size_set. unfold JsMap.has.
    destruct (JsMap.get (_assets this) p); reflexivity.
  - apply size_set.
  - apply resolve_spec with (rel := p);
      [apply E | apply get_set_same | apply join_nonempty].
Qed.

(** X2: [write] and [writeUnhashed] of one logical path leave the bindings of
    every other key as they were, so [resolve] of another relative path
    returns what it returned. *)
Theorem write_frame (this : AssetMap) (fs : FS) (p q : string) (c : Content) :
  Path.isAbsolute p = false -> Path.isAbsolute q = false -> p <> q ->
  let this1 := fst (snd (write p c (this, fs))) in
  let this2 := fst (snd (writeUnhashed p c (this, fs))) in
  JsMap.get (_assets this1) q = JsMap.get (_assets this) q
  /\ JsMap.get (_assets this2) q = JsMap.get (_assets this) q
  /\ (forall v, fst (resolve q this1) = Normal v
                <-> fst (resolve q this) = Normal v)
  /\ (forall v, fst (resolve q this2) = Normal v
                <-> fst (resolve q this) = Normal v).
Proof.
  intros Hp Hq Hne this1 this2.
  assert (E : forall t r, Path.isAbsolute r = false ->
                          _toRelPath r t = (Normal r, t))
    by (intros t r; apply toRelPath_relative).
  subst this1 this2.
  rewrite (write_registry _ _ p p _ (E _ _ Hp)),
          (writeUnhashed_registry _ _ p p _ (E _ _ Hp)).
  cbn [_assets]. rewrite !get_set_other by exact Hne.
  split; [reflexivity|]. split; [reflexivity|].
  unfold resolve, bind, get_state. rewrite !(E _ _ Hq). cbn [_assets].
  rewrite !get_set_other by exact Hne. cbn [_targetDir].
  split; intros v; destruct (JsMap.get (_assets this) q) as [w|]; cbn;
    try (destruct (String.eqb w "")); cbn; split; congruence.
Qed.

(** X3: the binding is recorded before the file is written: when writing the
    file throws, [write] throws the same error, and yet [resolve] gives the
    hashed path of a file that is not there. *)
Theorem write_fails_after_recording (this : AssetMap) (fs fs' : FS)
    (p : string) (c : Content) (e : JsError) :
  Path.isAbsolute p = false ->
  writeContent (Path.join [directory this; hashedPath p c]) c fs
  = (Throw e, fs') ->
  exists this',
    write p c (this, fs) = (Throw e, (this', fs'))
    /\ has this' p = true
    /\ resolve p this' = (Normal (hashedPath p c), this').
Proof.
  intros Hrel Hw.
  assert (E : forall t, _toRelPath p t = (Normal p, t))
    by (intros t; now apply toRelPath_relative).
  eexists. rewrite (write_spec this fs p p c (E _)), Hw. cbn [fst snd].
  split; [reflexivity|]. split.
  - unfold has. cbn [_assets]. apply has_set_same.
  - apply resolve_spec with (rel := p);
      [apply E | apply get_set_same | apply join_nonempty].
Qed.

(** X4: [resolve] of a relative path returns exactly when the path is bound
    to a string that is not empty, and then returns that string; otherwise
    it throws an error whose message names the path and lists the keys.  It
    never changes the registry. *)
Theorem resolve_unknown (this : AssetMap) (p : string) :
  Path.isAbsolute p = false ->
  snd (resolve p this) = this
  /\ (forall v, fst (resolve p this) = Normal v
                <-> JsMap.get (_assets this) p = Some v /\ v <> "")
  /\ ((JsMap.get (_assets this) p = None
       \/ JsMap.get (_assets this) p = Some "") ->
      fst (resolve p this)
      = Throw (Error ("unknown path: " ++ p ++ ", only know "
                      ++ Js.join ", " (JsMap.keys (_assets this))))).
Proof.
  intros Hrel. unfold resolve, bind, get_state.
  rewrite (toRelPath_relative this p Hrel).
  destruct (JsMap.get (_assets this) p) as [v|] eqn:G; cbn.
  - destruct (String.eqb_spec v "") as [->|Hv]; cbn.
    + split; [reflexivity|]. split; [|reflexivity].
      intros v. split; [discriminate | intros [H1 H2]; congruence].
    + split; [reflexivity|]. split.
      * intros v'. split; [intros H; inversion H; subst; auto|].
        intros [H1 _]. congruence.
      * intros [H|H]; congruence.
  - split; [reflexivity|]. split; [|reflexivity].
    intros v. split; [discriminate | intros [H _]; discriminate].
Qed.

End RegistryLaws.


(** ** More on [addSubMap] *)

Lemma prefix_refl (s : string) : String.prefix s s = true.
Proof.
  induction s as [|c s IH]; [reflexivity|]. simpl.
  destruct (ascii_dec c c); [exact IH | congruence].
Qed.

Lemma substr_past_end (s : string) (n : nat) :
  String.length s <= n -> Js.substr s n = "".
Proof.
  revert n. induction s as [|c s IH]; intros [|n] H; simpl in *;
    try reflexivity; try lia.
  apply IH. lia.
Qed.

(** The entry that is set last for a key is the one that stays. *)
Lemma fold_visit_get_last (rel : string) (l1 l2 : list (string * string))
    (k v : string) (m : JsMap.t) :
  (forall k' v', In (k', v') l2 ->
                 Path.join [rel; k'] <> Path.join [rel; k]) ->
  JsMap.get (fold_left (addSubMap_visit rel) (l1 ++ (k, v) :: l2) m)
    (Path.join [rel; k])
  = Some (Path.join [rel; v]).
Proof.
  intros Hlater. rewrite fold_left_app. cbn [fold_left].
  rewrite fold_visit_get_other by exact Hlater.
  unfold addSubMap_visit at 1. apply get_set_same.
Qed.

(** X7: a sub-registry with the very root of its parent, as [copyFolder]
    returns one for the assets of olm, is merged under its own keys when its
    paths are in normal form: every entry of the sub-registry is an entry of
    the parent afterwards, and the other bindings of the parent stay. *)
Theorem addSubMap_same_root_merges (P S : AssetMap) :
  directory S = directory P ->
  NoDup (JsMap.keys (_assets S)) ->
  (forall k v, In (k, v) (iterator S) -> isPlain k = true /\ isPlain v = true) ->
  exists P',
    addSubMap S P = (Normal tt, P')
    /\ directory P' = directory P
    /\ (forall k v, In (k, v) (iterator S) ->
                    JsMap.get (_assets P') k = Some v)
    /\ (forall x, (forall k v, In (k, v) (iterator S) -> k <> x) ->
                  JsMap.get (_assets P') x = JsMap.get (_assets P) x).
Proof.
  intros Hdir Hnd Hplain.
  assert (Hstart : Js.startsWith (directory S) (directory P) = true)
    by (rewrite Hdir; apply prefix_refl).
  eexists. split; [rewrite (addSubMap_accepts _ _ Hstart); reflexivity|].
  rewrite Hdir, substr_past_end by lia.
  cbn [directory _targetDir _assets]. split; [reflexivity|]. split.
  - intros k v Hin. destruct (in_split _ _ Hin) as (l1 & l2 & HS).
    destruct (Hplain _ _ Hin) as [Hk Hv].
    assert (Hlater : forall k' v', In (k', v') l2 ->
                       Path.join [""; k'] <> Path.join [""; k]).
    { intros k' v' Hin'.
      assert (Hin2 : In (k', v') (iterator S))
        by (rewrite HS; apply in_or_app; right; now right).
      rewrite (join_empty_plain k' (proj1 (Hplain _ _ Hin2))),
              (join_empty_plain k Hk).
      intros ->. unfold JsMap.keys, iterator, JsMap.entries in Hnd, HS.
      rewrite HS, map_app in Hnd. cbn [map fst] in Hnd.
      apply NoDup_remove_2 in Hnd. apply Hnd, in_or_app. right.
      now apply (in_map fst) in Hin'. }
    pose proof (fold_visit_get_last "" l1 l2 k v (_assets P) Hlater) as H.
    rewrite (join_empty_plain k Hk), (join_empty_plain v Hv) in H.
    rewrite HS. exact H.
  - intros x Hx. apply fold_visit_get_other. intros k v Hin.
    rewrite (join_empty_plain k (proj1 (Hplain _ _ Hin))).
    exact (Hx k v Hin).
Qed.

(** ** More on the cache tiers *)

Lemma tiers_partition (entries : list (string * string)) :
  Permutation
    (tierPaths UnhashedPrecache entries
       ++ tierPaths HashedPrecache entries
       ++ tierPaths HashedOnRequest entries)%list
    (map snd (filter cached entries)).
Proof.
  induction entries as [|[k v] l IH]; [constructor|].
  rewrite (tierPaths_cons UnhashedPrecache), (tierPaths_cons HashedPrecache),
          (tierPaths_cons HashedOnRequest).
  unfold tierPaths at 1 3 5. cbn [filter fst snd]. unfold cached at 1.
  cbn [fst]. unfold cacheTier. rewrite includes_existsb.
  change SERVICEWORKER_NONCACHED_ASSETS with exclusionList.
  destruct (existsb (String.eqb k) exclusionList); cbn; [exact IH|].
  destruct (String.eqb k v); cbn; [now constructor|].
  destruct (inPrecacheSet k); cbn.
  - apply Permutation_sym, Permutation_cons_app, Permutation_sym, IH.
  - apply Permutation_sym.
    rewrite app_assoc. apply Permutation_cons_app.
    rewrite <- app_assoc. apply Permutation_sym, IH.
Qed.

(** X8: the three lists of [buildServiceWorker] hold, between them,
    ["index.html"] and the resolved path of every entry whose logical path
    is not in [SERVICEWORKER_NONCACHED_ASSETS], each once per entry, and
    nothing else. *)
Theorem sw_lists_partition (entries : list (string * string)) :
  Permutation
    (unhashedPreCachedAssets (sw_lists entries)
       ++ hashedPreCachedAssets (sw_lists entries)
       ++ hashedCachedOnRequestAssets (sw_lists entries))%list
    ("index.html" :: map snd (filter cached entries))
  /\ List.length (unhashedPreCachedAssets (sw_lists entries))
     + List.length (hashedPreCachedAssets (sw_lists entries))
     + List.length (hashedCachedOnRequestAssets (sw_lists entries))
     = S (List.length (filter cached entries)).
Proof.
  assert (H : Permutation
    (unhashedPreCachedAssets (sw_lists entries)
       ++ hashedPreCachedAssets (sw_lists entries)
       ++ hashedCachedOnRequestAssets (sw_lists entries))%list
    ("index.html" :: map snd (filter cached entries))).
  { unfold sw_lists. rewrite fold_sw_visit.
    cbn [unhashedPreCachedAssets hashedPreCachedAssets
         hashedCachedOnRequestAssets app].
    constructor. apply tiers_partition. }
  split; [exact H|].
  apply Permutation_length in H. rewrite !length_app in H. cbn in H.
  rewrite length_map in H. lia.
Qed.


(** ** [buildServiceWorker] as a whole *)

Lemma sw_visit_excluded (acc : SwLists) (k v : string) :
  Js.includes SERVICEWORKER_NONCACHED_ASSETS k = true ->
  sw_visit acc (k, v) = acc.
Proof. intros H. unfold sw_visit. now rewrite H. Qed.

(** Binding a path of [SERVICEWORKER_NONCACHED_ASSETS] changes none of the
    lists. *)
Lemma fold_sw_visit_set_excluded (m : JsMap.t) (k v : string) (acc : SwLists) :
  Js.includes SERVICEWORKER_NONCACHED_ASSETS k = true ->
  fold_left sw_visit (JsMap.set m k v) acc = fold_left sw_visit m acc.
Proof.
  intros Hk. revert acc. induction m as [|[k0 v0] m IH]; intros acc.
  - cbn [JsMap.set fold_left]. now apply sw_visit_excluded.
  - cbn [JsMap.set]. destruct (String.eqb_spec k0 k) as [->|Hne].
    + cbn [fold_left]. now rewrite !sw_visit_excluded.
    + cbn [fold_left]. apply IH.
Qed.

Section ServiceWorkerFacts.

Context {host : Host}.

(** [buildServiceWorker] call by call: it throws what reading the template
    throws; once the template is read, it writes the outcome of the four
    [replace] at [sw.js] and binds ["sw.js"] to itself, which changes no
    list. *)
Lemma buildServiceWorker_run (globalHash : N) (this : AssetMap)
    (fs : FS) :
  let tpl := Path.join [projectDir; "src/service-worker.template.js"] in
  (forall e fs1,
     fs_readFile tpl fs = (Throw e, fs1) ->
     buildServiceWorker globalHash (this, fs) = (Throw e, (this, fs1)))
  /\ (forall src fs1,
        fs_readFile tpl fs = (Normal src, fs1) ->
        let this' :=
          mkAssetMap (_targetDir this)
            (JsMap.set (_assets this) "sw.js" "sw.js") in
        let w := writeContent (Path.join [directory this; "sw.js"])
                   (Text (swSourceOf globalHash (sw_lists (iterator this)) src))
                   fs1 in
        buildServiceWorker globalHash (this, fs)
        = (match fst w with Normal _ => Normal tt | Throw e => Throw e end,
           (this', snd w))
        /\ isUnhashed "sw.js" this' = (Normal true, this')
        /\ (forall q, q <> "sw.js" ->
                      JsMap.get (_assets this') q = JsMap.get (_assets this) q)
        /\ sw_lists (iterator this') = sw_lists (iterator this)).
Proof.
  intros tpl. split.
  - intros e fs1 H. unfold buildServiceWorker, bind, on_fst, on_snd, get_state.
    cbn [fst snd]. fold tpl. now rewrite H.
  - intros src fs1 H this' w. split; [|split; [|split]].
    + unfold buildServiceWorker, bind, on_fst, on_snd, get_state.
      cbn [fst snd]. fold tpl. rewrite H. cbn [fst snd].
      rewrite (writeUnhashed_spec this fs1 "sw.js" "sw.js" _
                 (toRelPath_relative this "sw.js" eq_refl)).
      fold this'. unfold swSourceOf in w. fold w.
      destruct (fst w); reflexivity.
    + unfold isUnhashed, bind, get_state. cbn [this' _assets].
      now rewrite get_set_same.
    + intros q Hq. cbn [this' _assets]. apply get_set_other. congruence.
    + unfold sw_lists, iterator, JsMap.entries. cbn [this' _assets].
      now apply fold_sw_visit_set_excluded.
Qed.

End ServiceWorkerFacts.

(** ** What [replace] writes *)

Lemma prefix_substr (p s : string) :
  String.prefix p s = true -> s = p ++ Js.substr s (String.length p).
Proof.
  revert s. induction p as [|c p IH]; intros s H.
  - now destruct s.
  - destruct s as [|d s]; [discriminate|]. simpl in H.
    destruct (ascii_dec c d) as [->|]; [|discriminate].
    simpl. f_equal. now apply IH.
Qed.

Lemma split_first_eq (pat s : string) :
  JsText.split_first pat s
  = if String.prefix pat s then Some ("", Js.substr s (String.length pat))
    else
      match s with
      | EmptyString => None
      | String c s' =>
          match JsText.split_first pat s' with
          | Some (b, a) => Some (String c b, a)
          | None => None
          end
      end.
Proof. destruct s; reflexivity. Qed.

(** [split_first] cuts the string around an occurrence of the pattern. *)
Lemma split_first_sound (pat s b a : string) :
  JsText.split_first pat s = Some (b, a) -> s = b ++ pat ++ a.
Proof.
  revert b. induction s as [|c s IH]; intros b H;
    rewrite split_first_eq in H;
    destruct (String.prefix pat _) eqn:Hp.
  - inversion H; subst. now apply prefix_substr.
  - discriminate.
  - inversion H; subst. now apply prefix_substr.
  - destruct (JsText.split_first pat s) as [[b0 a0]|]; [|discriminate].
    inversion H; subst. cbn [String.append]. f_equal. now apply IH.
Qed.

(** A replacement without a dollar stands for itself. *)
Lemma getSubstitution_verbatim (matched before after repl : string) :
  mentions "$"%char repl = false ->
  JsText.getSubstitution matched before after repl = repl.
Proof.
  induction repl as [|c r IH]; [reflexivity|]. cbn [mentions].
  intros H. apply orb_false_iff in H as [Hc Hr].
  cbn [JsText.getSubstitution]. rewrite Hc. f_equal. now apply IH.
Qed.

Lemma mentions_app (c : ascii) (a b : string) :
  mentions c (a ++ b) = mentions c a || mentions c b.
Proof.
  induction a as [|x a IH]; [reflexivity|]. simpl.
  now rewrite IH, orb_assoc.
Qed.

Lemma uint_no_dollar (d : Decimal.uint) :
  mentions "$"%char (NilEmpty.string_of_uint d) = false.
Proof. induction d; simpl; auto. Qed.

Lemma quoted_no_dollar (s : string) :
  mentions "$"%char s = false -> mentions "$"%char (Js.quoted s) = false.
Proof.
  intros H. unfold Js.quoted. cbn [mentions]. rewrite mentions_app, H.
  reflexivity.
Qed.

Lemma quoteChar_dollar (c : ascii) :
  mentions "$"%char (JsText.quoteChar c) = Ascii.eqb c "$"%char.
Proof.
  destruct c as [[] [] [] [] [] [] [] []]; vm_compute; reflexivity.
Qed.

Lemma quoteBody_dollar (s : string) :
  mentions "$"%char (JsText.quoteBody s) = mentions "$"%char s.
Proof.
  induction s as [|c s IH]; [reflexivity|]. cbn [JsText.quoteBody mentions].
  now rewrite mentions_app, quoteChar_dollar, IH.
Qed.

Lemma stringify_no_dollar (l : list string) :
  Forall (fun s => mentions "$"%char s = false) l ->
  mentions "$"%char (JsText.stringify l) = false.
Proof.
  intros H. unfold JsText.stringify. cbn [String.append mentions].
  rewrite mentions_app. cbn. rewrite orb_false_r. unfold Js.join.
  induction H as [|s l Hs Hl IH]; [reflexivity|].
  cbn [map String.concat].
  assert (Hq : mentions "$"%char (JsText.quoteJSONString s) = false).
  { unfold JsText.quoteJSONString. cbn [mentions].
    rewrite mentions_app, quoteBody_dollar, Hs. reflexivity. }
  destruct (map JsText.quoteJSONString l) eqn:E; [exact Hq|].
  rewrite !mentions_app, Hq, IH. reflexivity.
Qed.

(** X10: what [replace] makes of a placeholder of the template.  When the
    placeholder occurs, the text before its first occurrence and the text
    after it stay, and the fingerprint in decimal between quotes, or the
    serialized list of paths without a dollar, stands in its place as it
    is; when the placeholder does not occur the template is unchanged. *)
Theorem placeholder_replaced (src pat : string) (globalHash : N)
    (paths : list string) :
  Forall (fun s => mentions "$"%char s = false) paths ->
  match JsText.split_first pat src with
  | Some (b, a) =>
      src = b ++ pat ++ a
      /\ JsText.replace src pat (Js.quoted (Js.toString globalHash))
         = b ++ Js.quoted (Js.toString globalHash) ++ a
      /\ JsText.replace src pat (JsText.stringify paths)
         = b ++ JsText.stringify paths ++ a
  | None =>
      JsText.replace src pat (Js.quoted (Js.toString globalHash)) = src
      /\ JsText.replace src pat (JsText.stringify paths) = src
  end.
Proof.
  intros Hp. unfold JsText.replace.
  destruct (JsText.split_first pat src) as [[b a]|] eqn:E; [|auto].
  split; [now apply split_first_sound|].
  rewrite !getSubstitution_verbatim; [auto | | ].
  - now apply stringify_no_dollar.
  - apply quoted_no_dollar, uint_no_dollar.
Qed.

(** A dollar in a path is not safe: [$&] is replaced by the placeholder. *)
Example placeholder_dollar :
  JsText.replace "[P]" "P" (JsText.stringify ["a$&.js"])
  = "[[" ++ Js.quoted "aP.js" ++ "]]".
Proof. vm_compute. reflexivity. Qed.


(** ** The template of the service worker, piece by piece *)

Lemma text_app (b a : list Piece) : text (b ++ a) = text b ++ text a.
Proof.
  induction b as [|x b IH]; [reflexivity|]. cbn [app text].
  now rewrite IH, append_assoc.
Qed.

Lemma Placeholder_eqb_eq (p q : Placeholder) :
  Placeholder_eqb p q = true <-> p = q.
Proof. destruct p, q; cbn; split; congruence. Qed.

Lemma fillFirst_cutAt (p : Placeholder) (repl : string)
    (pieces : list Piece) :
  fillFirst p repl pieces
  = match cutAt p pieces with
    | Some (b, a) => (b ++ Lit repl :: a)%list
    | None => pieces
    end.
Proof.
  induction pieces as [|x rest IH]; [reflexivity|].
  cbn [fillFirst cutAt]. destruct x as [s|q].
  - rewrite IH. now destruct (cutAt p rest) as [[b a]|].
  - destruct (Placeholder_eqb q p); [reflexivity|].
    rewrite IH. now destruct (cutAt p rest) as [[b a]|].
Qed.

Lemma prefix_two (a b : ascii) (r x : string) :
  String.prefix (String a (String b r)) x = true ->
  exists x', x = String a (String b x').
Proof.
  destruct x as [|c [|d x]]; cbn [String.prefix]; try discriminate.
  - destruct (ascii_dec a c); discriminate.
  - destruct (ascii_dec a c) as [<-|]; [|discriminate].
    destruct (ascii_dec b d) as [<-|]; [|discriminate]. eauto.
Qed.

(** An occurrence of a placeholder opens with a double quote and a percent
    sign. *)
Lemma prefix_opens (p : Placeholder) (x : string) :
  String.prefix (placeholder p) x = true -> opensPlaceholder x = true.
Proof.
  intros H.
  assert (E : exists r, placeholder p
                        = String Js.dquote (String "%"%char r))
    by (destruct p; eexists; reflexivity).
  destruct E as [r E]. rewrite E in H.
  destruct (prefix_two _ _ _ _ H) as [x' ->]. reflexivity.
Qed.

(** Where nothing opens a placeholder, the search goes on. *)
Lemma split_first_skip (pat a b : string) :
  (forall a1 a2, a = a1 ++ a2 -> a2 <> "" ->
                 String.prefix pat (a2 ++ b) = false) ->
  JsText.split_first pat (a ++ b)
  = match JsText.split_first pat b with
    | Some (x, y) => Some (a ++ x, y)
    | None => None
    end.
Proof.
  induction a as [|c a IH]; intros H.
  - cbn [String.append]. now destruct (JsText.split_first pat b) as [[x y]|].
  - cbn [String.append]. rewrite split_first_eq.
    pose proof (H "" (String c a) eq_refl ltac:(discriminate)) as H0.
    cbn [String.append] in H0. rewrite H0, IH.
    + now destruct (JsText.split_first pat b) as [[x y]|].
    + intros a1 a2 -> Ha2. apply (H (String c a1) a2 eq_refl Ha2).
Qed.

Lemma quiet_suffix (t b : string) :
  quiet t = true -> opensPercent b = false ->
  forall a1 a2, t = a1 ++ a2 -> a2 <> "" ->
                opensPlaceholder (a2 ++ b) = false.
Proof.
  intros Hq Hb a1. revert t Hq.
  induction a1 as [|c a1 IH]; intros t Hq a2 -> Ha2.
  - cbn [String.append] in *. destruct a2 as [|c [|d a2]]; [congruence| |].
    + cbn [String.append opensPlaceholder]. destruct b as [|d b];
        [reflexivity|]. cbn in Hb. rewrite Hb. apply andb_false_r.
    + cbn [quiet] in Hq. apply andb_true_iff in Hq as [Hq _].
      apply negb_true_iff in Hq. exact Hq.
  - cbn [String.append quiet] in Hq. apply andb_true_iff in Hq as [_ Hq].
    exact (IH _ Hq a2 eq_refl Ha2).
Qed.

Lemma percentFree_quiet (s : string) :
  mentions "%"%char s = false -> quiet s = true.
Proof.
  induction s as [|c s IH]; [reflexivity|]. cbn [mentions]. intros H.
  apply orb_false_iff in H as [Hc Hs]. cbn [quiet]. rewrite (IH Hs).
  destruct s as [|d s]; [reflexivity|].
  cbn [mentions] in Hs. apply orb_false_iff in Hs as [Hd _].
  cbn [opensPlaceholder]. rewrite Hd. now rewrite andb_false_r.
Qed.

(** The text of pieces does not open with a percent sign. *)
Lemma text_opens (pieces : list Piece) :
  templateOk pieces = true -> opensPercent (text pieces) = false.
Proof.
  induction pieces as [|x rest IH]; [reflexivity|]. cbn [templateOk forallb].
  intros H. apply andb_true_iff in H as [Hx Hrest].
  destruct x as [s|p]; [|destruct p; reflexivity].
  cbn [text pieceText]. destruct s as [|c s]; [exact (IH Hrest)|].
  apply negb_true_iff in Hx. cbn [mentions] in Hx.
  apply orb_false_iff in Hx as [Hc _]. exact Hc.
Qed.

(** No placeholder occurs in a piece that is not that placeholder, nor from
    a piece into what follows. *)
Lemma piece_skipped (p : Placeholder) (x : Piece) (rest : list Piece) :
  templateOk (x :: rest) = true ->
  match x with Hole q => Placeholder_eqb q p | Lit _ => false end = false ->
  forall a1 a2, pieceText x = a1 ++ a2 -> a2 <> "" ->
                String.prefix (placeholder p) (a2 ++ text rest) = false.
Proof.
  cbn [templateOk forallb]. intros H Hx a1 a2 E Ha2.
  apply andb_true_iff in H as [Hlit Hrest].
  pose proof (text_opens rest Hrest) as Hopen.
  destruct (String.prefix (placeholder p) (a2 ++ text rest)) eqn:Hp0;
    [|reflexivity].
  pose proof (prefix_opens _ _ Hp0) as Hp.
  destruct x as [s|q]; cbn [pieceText] in E.
  - apply negb_true_iff in Hlit.
    rewrite (quiet_suffix s _ (percentFree_quiet s Hlit) Hopen a1 a2 E Ha2)
      in Hp. discriminate.
  - destruct a1 as [|c a1].
    + cbn [String.append] in E. subst a2. clear Hp.
      destruct q, p; try discriminate Hx; vm_compute in Hp0;
        discriminate Hp0.
    + assert (Hq : quiet (a1 ++ a2) = true).
      { cbn [String.append] in E. unfold placeholder, Js.quoted in E.
        injection E as _ Ht. rewrite <- Ht. destruct q; reflexivity. }
      rewrite (quiet_suffix _ _ Hq Hopen a1 a2 eq_refl Ha2) in Hp.
      discriminate.
Qed.

(** The first occurrence of a placeholder in a template is its first
    piece. *)
Lemma split_first_pieces (p : Placeholder) (pieces : list Piece) :
  templateOk pieces = true ->
  JsText.split_first (placeholder p) (text pieces)
  = match cutAt p pieces with
    | Some (b, a) => Some (text b, text a)
    | None => None
    end.
Proof.
  induction pieces as [|x rest IH]; intros H.
  - destruct p; reflexivity.
  - cbn [cutAt text].
    destruct (match x with Hole q => Placeholder_eqb q p | Lit _ => false end)
      eqn:Hx.
    + destruct x as [s|q]; [discriminate|].
      apply Placeholder_eqb_eq in Hx. subst q. cbn [pieceText].
      rewrite split_first_eq, prefix_app, substr_app. reflexivity.
    + rewrite (split_first_skip _ _ _ (piece_skipped p x rest H Hx)).
      cbn [templateOk forallb] in H. apply andb_true_iff in H as [_ H].
      rewrite (IH H). now destruct (cutAt p rest) as [[b a]|].
Qed.

(** [replace] of a placeholder in a template by a text without a dollar. *)
Lemma replace_fillFirst (p : Placeholder) (repl : string)
    (pieces : list Piece) :
  templateOk pieces = true -> mentions "$"%char repl = false ->
  JsText.replace (text pieces) (placeholder p) repl
  = text (fillFirst p repl pieces).
Proof.
  intros H Hrepl. unfold JsText.replace.
  rewrite (split_first_pieces p pieces H), fillFirst_cutAt.
  destruct (cutAt p pieces) as [[b a]|]; [|reflexivity].
  rewrite text_app, getSubstitution_verbatim by exact Hrepl. reflexivity.
Qed.

Lemma fillFirst_ok (p : Placeholder) (repl : string) (pieces : list Piece) :
  templateOk pieces = true -> mentions "%"%char repl = false ->
  templateOk (fillFirst p repl pieces) = true.
Proof.
  intros H Hrepl. induction pieces as [|x rest IH]; [reflexivity|].
  cbn [templateOk forallb] in H. apply andb_true_iff in H as [Hx Hrest].
  cbn [fillFirst]. destruct x as [s|q].
  - cbn [templateOk forallb]. rewrite Hx. exact (IH Hrest).
  - destruct (Placeholder_eqb q p).
    + cbn [templateOk forallb]. rewrite Hrepl. exact Hrest.
    + cbn [templateOk forallb]. exact (IH Hrest).
Qed.

(** *** What stands for the placeholders *)

Lemma uint_no_percent (d : Decimal.uint) :
  mentions "%"%char (NilEmpty.string_of_uint d) = false.
Proof. induction d; simpl; auto. Qed.

Lemma quoteChar_percent (c : ascii) :
  mentions "%"%char (JsText.quoteChar c) = Ascii.eqb c "%"%char.
Proof.
  destruct c as [[] [] [] [] [] [] [] []]; vm_compute; reflexivity.
Qed.

Lemma quoteBody_percent (s : string) :
  mentions "%"%char (JsText.quoteBody s) = mentions "%"%char s.
Proof.
  induction s as [|c s IH]; [reflexivity|]. cbn [JsText.quoteBody mentions].
  now rewrite mentions_app, quoteChar_percent, IH.
Qed.

Lemma stringify_no_percent (l : list string) :
  Forall (fun s => mentions "%"%char s = false) l ->
  mentions "%"%char (JsText.stringify l) = false.
Proof.
  intros H. unfold JsText.stringify. cbn [String.append mentions].
  rewrite mentions_app. cbn. rewrite orb_false_r. unfold Js.join.
  induction H as [|s l Hs Hl IH]; [reflexivity|].
  cbn [map String.concat].
  assert (Hq : mentions "%"%char (JsText.quoteJSONString s) = false).
  { unfold JsText.quoteJSONString. cbn [mentions].
    rewrite mentions_app, quoteBody_percent, Hs. reflexivity. }
  destruct (map JsText.quoteJSONString l) eqn:E; [exact Hq|].
  rewrite !mentions_app, Hq, IH. reflexivity.
Qed.

Lemma plainText_inv (s : string) :
  plainText s = true ->
  mentions "$"%char s = false /\ mentions "%"%char s = false.
Proof.
  unfold plainText. intros H. apply andb_true_iff in H as [H1 H2].
  now apply negb_true_iff in H1, H2.
Qed.

Lemma tierPaths_plain (t : CacheTier) (entries : list (string * string)) :
  Forall (fun entry => plainText (snd entry) = true) entries ->
  Forall (fun s => plainText s = true) (tierPaths t entries).
Proof.
  intros H. unfold tierPaths. apply Forall_map.
  apply Forall_forall. intros e He. apply filter_In in He as [He _].
  rewrite Forall_forall in H. now apply H.
Qed.

(** What stands for a placeholder holds no dollar and no percent sign when
    the paths of the registry hold none. *)
Lemma swFill_plain (globalHash : N) (entries : list (string * string))
    (p : Placeholder) :
  Forall (fun entry => plainText (snd entry) = true) entries ->
  mentions "$"%char (swFill globalHash (sw_lists entries) p) = false
  /\ mentions "%"%char (swFill globalHash (sw_lists entries) p) = false.
Proof.
  intros H. unfold sw_lists. rewrite fold_sw_visit.
  cbn [unhashedPreCachedAssets hashedPreCachedAssets
       hashedCachedOnRequestAssets app].
  assert (Hl : forall l, Forall (fun s => plainText s = true) l ->
             mentions "$"%char (JsText.stringify l) = false
             /\ mentions "%"%char (JsText.stringify l) = false).
  { intros l Hl. split.
    - apply stringify_no_dollar. eapply Forall_impl; [|exact Hl].
      intros s Hs. now apply plainText_inv in Hs.
    - apply stringify_no_percent. eapply Forall_impl; [|exact Hl].
      intros s Hs. now apply plainText_inv in Hs. }
  destruct p; cbn [swFill unhashedPreCachedAssets hashedPreCachedAssets
                   hashedCachedOnRequestAssets].
  - unfold Js.toString. split.
    + apply quoted_no_dollar, uint_no_dollar.
    + unfold Js.quoted. cbn [mentions].
      now rewrite mentions_app, uint_no_percent.
  - apply Hl. constructor; [reflexivity | now apply tierPaths_plain].
  - apply Hl. now apply tierPaths_plain.
  - apply Hl. now apply tierPaths_plain.
Qed.

(** The four [replace] of [buildServiceWorker], one after the other, on a
    template in pieces. *)
Lemma swSourceOf_pieces (globalHash : N) (entries : list (string * string))
    (pieces : list Piece) :
  templateOk pieces = true ->
  Forall (fun entry => plainText (snd entry) = true) entries ->
  swSourceOf globalHash (sw_lists entries) (text pieces)
  = text (fillEach (swFill globalHash (sw_lists entries)) pieces).
Proof.
  intros Hok Hplain. unfold swSourceOf, fillEach.
  pose proof (swFill_plain globalHash entries GlobalHash Hplain) as [D1 P1].
  pose proof (swFill_plain globalHash entries UnhashedPrecachedAssets Hplain)
    as [D2 P2].
  pose proof (swFill_plain globalHash entries HashedPrecachedAssets Hplain)
    as [D3 P3].
  pose proof (swFill_plain globalHash entries HashedCachedOnRequestAssets
                Hplain) as [D4 P4].
  cbn [swFill] in *.
  change (Js.quoted "%%GLOBAL_HASH%%") with (placeholder GlobalHash).
  change (Js.quoted "%%UNHASHED_PRECACHED_ASSETS%%")
    with (placeholder UnhashedPrecachedAssets).
  change (Js.quoted "%%HASHED_PRECACHED_ASSETS%%")
    with (placeholder HashedPrecachedAssets).
  change (Js.quoted "%%HASHED_CACHED_ON_REQUEST_ASSETS%%")
    with (placeholder HashedCachedOnRequestAssets).
  rewrite (replace_fillFirst GlobalHash _ pieces Hok D1).
  pose proof (fillFirst_ok GlobalHash _ pieces Hok P1) as Hok1.
  rewrite (replace_fillFirst UnhashedPrecachedAssets _ _ Hok1 D2).
  pose proof (fillFirst_ok UnhashedPrecachedAssets _ _ Hok1 P2) as Hok2.
  rewrite (replace_fillFirst HashedPrecachedAssets _ _ Hok2 D3).
  pose proof (fillFirst_ok HashedPrecachedAssets _ _ Hok2 P3) as Hok3.
  rewrite (replace_fillFirst HashedCachedOnRequestAssets _ _ Hok3 D4).
  reflexivity.
Qed.


Section ServiceWorkerWrites.

Context {host : Host}.


End ServiceWorkerWrites.

Section ServiceWorkerRegisters.

Context {host : Host}.

(** X9: [buildServiceWorker] throws what reading the template throws and
    then leaves the registry as it was.  Once a template is read that holds
    no dollar and no percent sign outside its placeholders, the registry
    holding none in its paths, the file written at [sw.js] is the template
    with the first placeholder of each kind replaced by the fingerprint or
    by the serialization of its list, the registry binds ["sw.js"] to
    itself and keeps every other binding, and registering ["sw.js"] does
    not change the lists. *)
Theorem buildServiceWorker_registers (globalHash : N) (this : AssetMap)
    (fs : FS) :
  let tpl := Path.join [projectDir; "src/service-worker.template.js"] in
  (forall e fs1,
     fs_readFile tpl fs = (Throw e, fs1) ->
     buildServiceWorker globalHash (this, fs) = (Throw e, (this, fs1)))
  /\ (forall pieces fs1,
        templateOk pieces = true ->
        Forall (fun entry => plainText (snd entry) = true) (iterator this) ->
        fs_readFile tpl fs = (Normal (text pieces), fs1) ->
        let this' :=
          mkAssetMap (_targetDir this)
            (JsMap.set (_assets this) "sw.js" "sw.js") in
        let written :=
          text (fillEach (swFill globalHash (sw_lists (iterator this)))
                  pieces) in
        let w := writeContent (Path.join [directory this; "sw.js"])
                   (Text written) fs1 in
        buildServiceWorker globalHash (this, fs)
        = (match fst w with Normal _ => Normal tt | Throw e => Throw e end,
           (this', snd w))
        /\ isUnhashed "sw.js" this' = (Normal true, this')
        /\ (forall q, q <> "sw.js" ->
                      JsMap.get (_assets this') q = JsMap.get (_assets this) q)
        /\ sw_lists (iterator this') = sw_lists (iterator this)).
Proof.
  intros tpl.
  destruct (buildServiceWorker_run globalHash this fs) as (Hthrow & Hrun).
  split; [exact Hthrow|].
  intros pieces fs1 Hok Hplain Hread this' written w.
  destruct (Hrun (text pieces) fs1 Hread) as (H1 & H2 & H3 & H4).
  rewrite (swSourceOf_pieces globalHash (iterator this) pieces Hok Hplain)
    in H1.
  repeat split; assumption.
Qed.

End ServiceWorkerRegisters.

(** ** [findThemes] *)

Lemma indexOf_at_split (pat s : string) (pos : Z) :
  JsIndex.indexOf_at pat s pos
  = match JsText.split_first pat s with
    | Some (b, _) => (pos + Js.len b)%Z
    | None => (-1)%Z
    end.
Proof.
  revert pos. induction s as [|c s IH]; intros pos;
    rewrite split_first_eq; cbn [JsIndex.indexOf_at];
    destruct (String.prefix pat _).
  - unfold Js.len. simpl. lia.
  - reflexivity.
  - unfold Js.len. simpl. lia.
  - rewrite IH. destruct (JsText.split_first pat s) as [[b a]|]; [|reflexivity].
    unfold Js.len. cbn [String.length]. lia.
Qed.

(** The name for one [href], by the text around [/themes/]. *)
Lemma themeNameOf_split (href : string) :
  match JsText.split_first "/themes/" href with
  | None => themeNameOf href = None
  | Some (before, after) =>
      href = before ++ "/themes/" ++ after
      /\ match JsText.split_first "/" after with
         | Some (name, rest) =>
             after = name ++ "/" ++ rest /\ themeNameOf href = Some name
         | None => themeNameOf href = Some ""
         end
  end.
Proof.
  unfold themeNameOf, JsIndex.indexOf. rewrite indexOf_at_split.
  destruct (JsText.split_first "/themes/" href) as [[b a]|] eqn:E;
    [|reflexivity].
  pose proof (split_first_sound _ _ _ _ E) as Hhref.
  split; [exact Hhref|].
  replace (0 + Js.len b =? -1)%Z with false
    by (symmetry; apply Z.eqb_neq; unfold Js.len; lia).
  cbn [negb]. unfold JsIndex.indexOfFrom.
  assert (Hstart : Z.to_nat (0 + Js.len b + Js.len "/themes/")
                   = String.length (b ++ "/themes/"))
    by (rewrite length_append; unfold Js.len; simpl; lia).
  rewrite Hstart.
  assert (Hsub : Js.substr href (String.length (b ++ "/themes/")) = a).
  { rewrite Hhref, <- append_assoc. apply substr_app. }
  rewrite Hsub, indexOf_at_split.
  destruct (JsText.split_first "/" a) as [[name rest]|] eqn:E2.
  - pose proof (split_first_sound _ _ _ _ E2) as Ha.
    split; [exact Ha|]. f_equal. unfold JsIndex.substrLen.
    replace (0 + Js.len b + Js.len "/themes/" + Js.len name
             - (0 + Js.len b + Js.len "/themes/"))%Z
      with (Js.len name) by lia.
    destruct name as [|x name]; [reflexivity|].
    replace (Js.len (String x name) <=? 0)%Z with false
      by (symmetry; apply Z.leb_gt; unfold Js.len; simpl; lia).
    rewrite Hstart. unfold Js.len. rewrite Nat2Z.id.
    rewrite Hhref, Ha, <- append_assoc, substring_skip.
    apply substring_prefix.
  - f_equal. unfold JsIndex.substrLen.
    replace (-1 - (0 + Js.len b + Js.len "/themes/") <=? 0)%Z with true
      by (symmetry; apply Z.leb_le; unfold Js.len; lia).
    reflexivity.
Qed.

(** The names [findThemes] leaves for links that all have an [href]. *)
Lemma findThemes_all (hrefs : list string) (called : list string) :
  findThemes hrefs called
  = (Normal tt,
     (called
        ++ flat_map (fun h => match themeNameOf h with
                              | Some n => [n]
                              | None => []
                              end) hrefs)%list).
Proof.
  revert called. induction hrefs as [|h l IH]; intros called.
  - cbn. now rewrite app_nil_r.
  - cbn [findThemes flat_map]. unfold bind.
    destruct (themeNameOf h); rewrite IH.
    + now rewrite <- app_assoc.
    + reflexivity.
Qed.

(** X11: [findThemes] hands to its callback one name for each [href] that
    holds [/themes/], in the order of the links, and returns.  The name is
    what stands between the first [/themes/] and the next separator; when
    no separator follows, the name is empty, whatever stands there. *)
Theorem findThemes_names (hrefs called : list string) :
  findThemes hrefs called
  = (Normal tt,
     (called
        ++ flat_map (fun h => match themeNameOf h with
                              | Some n => [n]
                              | None => []
                              end) hrefs)%list)
  /\ forall href,
       match JsText.split_first "/themes/" href with
       | None => themeNameOf href = None
       | Some (before, after) =>
           href = before ++ "/themes/" ++ after
           /\ match JsText.split_first "/" after with
              | Some (name, rest) =>
                  after = name ++ "/" ++ rest /\ themeNameOf href = Some name
              | None => themeNameOf href = Some ""
              end
       end.
Proof. split; [apply findThemes_all | apply themeNameOf_split]. Qed.

Example themeNameOf_ex1 :
  themeNameOf "src/ui/web/css/themes/bubbles/theme.css" = Some "bubbles".
Proof. vm_compute. reflexivity. Qed.
Example themeNameOf_ex2 : themeNameOf "/themes/dark" = Some "".
Proof. vm_compute. reflexivity. Qed.
Example themeNameOf_ex3 : themeNameOf "src/ui/web/css/main.css" = None.
Proof. vm_compute. reflexivity. Qed.


(** ** [path.normalize] on paths without [..] *)

Lemma separator_segment (path pre cur rest : string) (allow : bool)
    (st : Path.NormState) (c : ascii) :
  path = pre ++ cur ++ rest -> normInv pre cur st -> cur <> ".." ->
  exists lsl,
    Path.normalize_separator path allow (Js.len pre + Js.len cur) st c
    = Path.mkNorm (glueSeg (Path.res st) cur) lsl
        (Js.len pre + Js.len cur) 0 c.
Proof.
  intros Hpath Hinv Hdd. unfold glueSeg, keepSeg.
  destruct (String.eqb_spec cur "") as [->|Hne].
  - destruct Hinv as (_ & Hls & _). unfold Path.normalize_separator.
    replace (Path.lastSlash st =? Js.len pre + Js.len "" - 1)%Z with true
      by (symmetry; apply Z.eqb_eq; unfold Js.len in *; simpl; lia).
    cbn. eauto.
  - destruct (String.eqb_spec cur ".") as [->|Hd].
    + destruct Hinv as (Hdots & _ & _). unfold Path.normalize_separator.
      replace (Path.dots st =? 1)%Z with true
        by (symmetry; apply Z.eqb_eq; rewrite Hdots; reflexivity).
      rewrite orb_true_r. cbn. eauto.
    + cbn [negb andb]. eexists.
      apply (separator_plain path pre cur rest allow st c Hpath Hinv).
      unfold isPlainSegment.
      now rewrite (proj2 (String.eqb_neq _ _) Hne),
                  (proj2 (String.eqb_neq _ _) Hd),
                  (proj2 (String.eqb_neq _ _) Hdd).
Qed.

Lemma append_nil_r (s : string) : s ++ "" = s.
Proof. induction s; simpl; congruence. Qed.

Lemma normalize_loop_segments (path : string) (allow : bool) (rest : string) :
  forall (pre cur : string) (st : Path.NormState),
    path = pre ++ cur ++ rest ->
    normInv pre cur st ->
    forallb (fun seg => negb (String.eqb seg "..")) (segments_from rest cur)
    = true ->
    Path.normalize_loop path allow (S (String.length rest))
      (Js.len pre + Js.len cur) st
    = fold_left glueSeg (segments_from rest cur) (Path.res st).
Proof.
  induction rest as [|x rest IH]; intros pre cur st Hpath Hinv Hdd.
  - cbn [segments_from forallb] in Hdd. rewrite andb_true_r in Hdd.
    apply negb_true_iff, String.eqb_neq in Hdd.
    cbn [String.length segments_from fold_left]. rewrite normalize_loop_S.
    assert (Hend : Js.charCodeAt path (Js.len pre + Js.len cur) = None).
    { rewrite Hpath, <- append_assoc, <- len_append, append_nil_r.
      apply charCodeAt_end. }
    rewrite Hend.
    destruct (Path.isPosixPathSeparator (Path.code st)) eqn:Hc.
    + destruct Hinv as (_ & _ & Hcode).
      destruct (String.eqb_spec cur "") as [->|Hne]; [reflexivity|].
      rewrite (Hcode Hne) in Hc. discriminate.
    + unfold Path.normalize_step.
      change (Path.isPosixPathSeparator Path.CHAR_FORWARD_SLASH) with true.
      cbv iota.
      destruct (separator_segment path pre cur "" allow st
                  Path.CHAR_FORWARD_SLASH Hpath Hinv Hdd) as [lsl ->].
      reflexivity.
  - cbn [String.length]. rewrite normalize_loop_S.
    assert (Hnext : Js.charCodeAt path (Js.len pre + Js.len cur) = Some x).
    { rewrite Hpath, <- append_assoc, <- len_append. apply charCodeAt_next. }
    rewrite Hnext. cbn [segments_from] in Hdd |- *.
    unfold Path.normalize_step.
    destruct (Path.isPosixPathSeparator x) eqn:Hx.
    + cbn [forallb] in Hdd. apply andb_true_iff in Hdd as [Hcur Hrest].
      apply negb_true_iff, String.eqb_neq in Hcur.
      assert (x = "/"%char) as -> by (now apply Ascii.eqb_eq in Hx).
      destruct (separator_segment path pre cur (String "/" rest) allow st
                  "/"%char Hpath Hinv Hcur) as [lsl ->].
      replace (Js.len pre + Js.len cur + 1)%Z
        with (Js.len (pre ++ cur ++ "/") + Js.len "")%Z
        by (rewrite !len_append; unfold Js.len; simpl; lia).
      rewrite (IH (pre ++ cur ++ "/") "").
      * reflexivity.
      * rewrite Hpath. now rewrite !append_assoc.
      * split; [reflexivity|]. split; [|congruence].
        cbn [Path.lastSlash]. rewrite !len_append. unfold Js.len. simpl. lia.
      * exact Hrest.
    + replace (Js.len pre + Js.len cur + 1)%Z
        with (Js.len pre + Js.len (cur ++ String x ""))%Z
        by (rewrite !len_append; unfold Js.len; simpl; lia).
      set (st' := if Ascii.eqb x Path.CHAR_DOT && negb (Path.dots st =? -1)%Z
                  then _ else _).
      rewrite (IH pre (cur ++ String x "") st').
      * replace (Path.res st') with (Path.res st)
          by (subst st'; destruct (_ && _); reflexivity).
        reflexivity.
      * rewrite Hpath. now rewrite !append_assoc.
      * destruct Hinv as (Hdots & Hls & Hcode). subst st'.
        split; [|split].
        -- rewrite dots_from_app. cbn [dots_from]. rewrite <- Hdots.
           destruct (Ascii.eqb x Path.CHAR_DOT && negb (Path.dots st =? -1)%Z);
             reflexivity.
        -- destruct (_ && _); exact Hls.
        -- intros _. destruct (_ && _); exact Hx.
      * exact Hdd.
Qed.

Lemma keepSeg_nonempty (seg : string) : keepSeg seg = true -> seg <> "".
Proof.
  unfold keepSeg. intros H ->. discriminate H.
Qed.

Lemma glue_empty_l (s : string) : glue "" s = s.
Proof. reflexivity. Qed.

(** Gluing the segments one after the other gives the kept segments with
    one separator between two of them. *)
Lemma fold_glueSeg (segs : list string) (r : string) :
  fold_left glueSeg segs r
  = match filter keepSeg segs with
    | [] => r
    | kept => glue r (String.concat "/" kept)
    end.
Proof.
  revert r. induction segs as [|seg segs IH]; intros r; [reflexivity|].
  cbn [fold_left filter]. rewrite IH. unfold glueSeg.
  destruct (keepSeg seg) eqn:Hk; [|reflexivity].
  destruct (filter keepSeg segs) as [|y ys]; [reflexivity|].
  rewrite glue_glue by (now apply keepSeg_nonempty). reflexivity.
Qed.

(** [normalizeString] on a path without [..]: the segments that are kept,
    glued. *)
Lemma normalizeString_segments (p : string) (allow : bool) :
  noDotDot p = true -> Path.normalizeString p allow = keptPath p.
Proof.
  intros H. unfold Path.normalizeString, keptPath.
  assert (Hinv : normInv "" "" (Path.mkNorm "" 0 (-1) 0 zero)).
  { split; [reflexivity|]. split; [reflexivity | congruence]. }
  pose proof (normalize_loop_segments p allow p "" "" _ eq_refl Hinv H) as E.
  cbn [Path.res] in E. rewrite fold_glueSeg in E.
  change (Js.len "" + Js.len "")%Z with 0%Z in E. rewrite E.
  destruct (filter keepSeg (segments_from p "")); reflexivity.
Qed.

(** [path.normalize] on a path without [..]. *)
Lemma normalize_segments (p : string) :
  p <> "" -> noDotDot p = true ->
  Path.normalize p
  = let isAbs := Js.charIs p 0 Path.CHAR_FORWARD_SLASH in
    let trailing := Js.charIs p (Js.len p - 1) Path.CHAR_FORWARD_SLASH in
    if (String.length (keptPath p) =? 0)%nat then
      if isAbs then "/" else if trailing then "./" else "."
    else
      let k := if trailing then keptPath p ++ "/" else keptPath p in
      if isAbs then "/" ++ k else k.
Proof.
  intros Hne H. unfold Path.normalize.
  replace (String.length p =? 0)%nat with false
    by (destruct p; [congruence | reflexivity]).
  now rewrite (normalizeString_segments p _ H).
Qed.

(** The segments of a path, glued, are the path. *)
Lemma concat_segments (p cur : string) :
  String.concat "/" (segments_from p cur) = cur ++ p.
Proof.
  revert cur. induction p as [|x p IH]; intros cur;
    [cbn; now rewrite append_nil_r|].
  cbn [segments_from]. destruct (Path.isPosixPathSeparator x) eqn:Hx.
  - apply Ascii.eqb_eq in Hx. subst x.
    assert (Hc : forall l, String.concat "/" (cur :: l)
                           = match l with
                             | [] => cur
                             | _ => cur ++ "/" ++ String.concat "/" l
                             end) by (intros []; reflexivity).
    rewrite Hc. specialize (IH "").
    destruct (segments_from p "") eqn:E.
    + destruct p; simpl in E; [discriminate|].
      destruct (Path.isPosixPathSeparator a); discriminate.
    + now rewrite IH.
  - rewrite IH. now rewrite append_assoc.
Qed.

(** The segments of a path in normal form are all kept, and none is [..]. *)
Lemma plain_segments (p cur : string) :
  isPlainFrom cur p = true ->
  forallb isPlainSegment (segments_from p cur) = true.
Proof.
  revert cur. induction p as [|x p IH]; intros cur H; simpl in *.
  - now rewrite H.
  - destruct (Path.isPosixPathSeparator x).
    + apply andb_true_iff in H as [H1 H2]. cbn [forallb].
      now rewrite H1, IH.
    + now apply IH.
Qed.

Lemma isPlainSegment_keep (seg : string) :
  isPlainSegment seg = true ->
  keepSeg seg = true /\ negb (String.eqb seg "..") = true.
Proof.
  unfold isPlainSegment, keepSeg. intros H.
  apply andb_true_iff in H as [H1 H2]. now rewrite H1, H2.
Qed.

Lemma forallb_plain_keep (l : list string) :
  forallb isPlainSegment l = true ->
  filter keepSeg l = l
  /\ forallb (fun seg => negb (String.eqb seg "..")) l = true.
Proof.
  induction l as [|s l IH]; [auto|]. cbn [forallb filter]. intros H.
  apply andb_true_iff in H as [Hs Hl].
  destruct (isPlainSegment_keep s Hs) as [-> ->].
  destruct (IH Hl) as [-> ->]. auto.
Qed.

(** The kept segments and the test for [..] on a path made of parts. *)
Lemma segments_from_cons_sep (p : string) :
  segments_from ("/" ++ p) "" = "" :: segments_from p "".
Proof. reflexivity. Qed.

Lemma keptPath_plain (p : string) :
  isPlain p = true -> keptPath p = p /\ noDotDot p = true.
Proof.
  intros H. unfold keptPath, noDotDot.
  destruct (forallb_plain_keep _ (plain_segments p "" H)) as [-> ->].
  split; [apply concat_segments | reflexivity].
Qed.

(** Two paths in normal form with separators before, between and after
    them: [lead], [mid] and [trail] say how many. *)
Lemma segments_two (a b : string) (pre mid post : list string) :
  isPlain a = true -> isPlain b = true ->
  forallb (fun s => String.eqb s "") (pre ++ mid ++ post) = true ->
  let segs := (pre ++ segments_from a "" ++ mid ++ segments_from b ""
                   ++ post)%list in
  String.concat "/" (filter keepSeg segs) = a ++ "/" ++ b
  /\ forallb (fun seg => negb (String.eqb seg "..")) segs = true.
Proof.
  intros Ha Hb He segs.
  destruct (forallb_plain_keep _ (plain_segments a "" Ha)) as [Fa Da].
  destruct (forallb_plain_keep _ (plain_segments b "" Hb)) as [Fb Db].
  rewrite !forallb_app in He.
  apply andb_true_iff in He as [Hpre He].
  apply andb_true_iff in He as [Hmid Hpost].
  assert (Hempty : forall l, forallb (fun s => String.eqb s "") l = true ->
             filter keepSeg l = []
             /\ forallb (fun seg => negb (String.eqb seg "..")) l = true).
  { induction l as [|s l IH]; [auto|]. cbn [forallb filter]. intros H.
    apply andb_true_iff in H as [Hs Hl]. apply String.eqb_eq in Hs. subst s.
    destruct (IH Hl) as [-> ->]. auto. }
  destruct (Hempty _ Hpre) as [Epre Dpre].
  destruct (Hempty _ Hmid) as [Emid Dmid].
  destruct (Hempty _ Hpost) as [Epost Dpost].
  subst segs. split.
  - rewrite !filter_app, Epre, Emid, Epost, Fa, Fb, app_nil_r. cbn [app].
    pose proof (concat_segments a "") as Ca.
    pose proof (concat_segments b "") as Cb. cbn [String.append] in Ca, Cb.
    destruct (segments_from a "") as [|x xs] eqn:Ea.
    { destruct a; simpl in Ea; [discriminate|].
      destruct (Path.isPosixPathSeparator a); discriminate. }
    destruct (segments_from b "") as [|y ys] eqn:Eb.
    { destruct b; simpl in Eb; [discriminate|].
      destruct (Path.isPosixPathSeparator a0); discriminate. }
    rewrite <- Ca, <- Cb. clear.
    revert x. induction xs as [|x' xs IH]; intros x.
    + reflexivity.
    + change (String.concat "/" ((x :: x' :: xs) ++ y :: ys))
        with (x ++ "/" ++ String.concat "/" ((x' :: xs) ++ y :: ys)).
      rewrite IH.
      change (String.concat "/" (x :: x' :: xs))
        with (x ++ "/" ++ String.concat "/" (x' :: xs)).
      now rewrite !append_assoc.
  - rewrite !forallb_app, Dpre, Da, Dmid, Db, Dpost. reflexivity.
Qed.

Lemma segments_one (a : string) (pre post : list string) :
  isPlain a = true ->
  forallb (fun s => String.eqb s "") (pre ++ post) = true ->
  let segs := (pre ++ segments_from a "" ++ post)%list in
  String.concat "/" (filter keepSeg segs) = a
  /\ forallb (fun seg => negb (String.eqb seg "..")) segs = true.
Proof.
  intros Ha He segs.
  destruct (forallb_plain_keep _ (plain_segments a "" Ha)) as [Fa Da].
  rewrite forallb_app in He. apply andb_true_iff in He as [Hpre Hpost].
  assert (Hempty : forall l, forallb (fun s => String.eqb s "") l = true ->
             filter keepSeg l = []
             /\ forallb (fun seg => negb (String.eqb seg "..")) l = true).
  { induction l as [|s l IH]; [auto|]. cbn [forallb filter]. intros H.
    apply andb_true_iff in H as [Hs Hl]. apply String.eqb_eq in Hs. subst s.
    destruct (IH Hl) as [-> ->]. auto. }
  destruct (Hempty _ Hpre) as [Epre Dpre].
  destruct (Hempty _ Hpost) as [Epost Dpost].
  subst segs. split.
  - rewrite !filter_app, Epre, Epost, Fa, app_nil_r. cbn [app].
    apply (concat_segments a "").
  - rewrite !forallb_app, Dpre, Da, Dpost. reflexivity.
Qed.

Lemma charIs_last_app (x b : string) (c : ascii) :
  b <> "" ->
  Js.charIs (x ++ b) (Js.len (x ++ b) - 1) c = Js.charIs b (Js.len b - 1) c.
Proof.
  intros Hb. induction x as [|y x IH]; [reflexivity|].
  cbn [String.append]. unfold Js.charIs in *.
  rewrite charCodeAt_cons.
  - replace (Js.len (String y (x ++ b)) - 1 - 1)%Z
      with (Js.len (x ++ b) - 1)%Z
      by (unfold Js.len; cbn [String.length]; lia).
    exact IH.
  - pose proof (len_pos (x ++ b)) as Hp.
    assert (x ++ b <> "") by (destruct x; [exact Hb | discriminate]).
    unfold Js.len in *. cbn [String.length]. specialize (Hp H). lia.
Qed.

Lemma normalize_shape (p k : string) (abs : bool) :
  p <> "" -> noDotDot p = true -> keptPath p = k -> k <> "" ->
  Js.charIs p 0 Path.CHAR_FORWARD_SLASH = abs ->
  Js.charIs p (Js.len p - 1) Path.CHAR_FORWARD_SLASH = false ->
  Path.normalize p = if abs then "/" ++ k else k.
Proof.
  intros Hne Hdd Hk Hkne Habs Htr.
  rewrite (normalize_segments p Hne Hdd). cbv zeta.
  rewrite Hk, Habs, Htr.
  replace (String.length k =? 0)%nat with false
    by (destruct k; [congruence | reflexivity]).
  reflexivity.
Qed.

Lemma plain_last (b : string) :
  isPlain b = true ->
  b <> "" /\ Js.charIs b (Js.len b - 1) Path.CHAR_FORWARD_SLASH = false.
Proof.
  intros H. pose proof (plain_nonempty b H) as Hne.
  split; [exact Hne | now apply (plain_no_trailing_separator "" b H)].
Qed.

Lemma joined_two (a b : string) :
  a <> "" -> b <> "" ->
  Path.join [a; b] = Path.normalize (a ++ "/" ++ b).
Proof.
  intros Ha Hb. unfold Path.join. cbn [Path.joined].
  replace (0 <? String.length a)%nat with true
    by (destruct a; [congruence | reflexivity]).
  replace (0 <? String.length b)%nat with true
    by (destruct b; [congruence | reflexivity]).
  reflexivity.
Qed.

(** [path.join] of an absolute path in normal form and a relative one. *)
Lemma join_abs_plain (a b : string) :
  isPlain a = true -> isPlain b = true ->
  Path.join ["/" ++ a; b] = "/" ++ a ++ "/" ++ b.
Proof.
  intros Ha Hb. destruct (plain_last b Hb) as [Hbne Hbl].
  rewrite joined_two by (discriminate || exact Hbne).
  destruct (segments_two a b [""] [] [] Ha Hb eq_refl) as [Hk Hd].
  cbn [app] in Hk, Hd. rewrite app_nil_r in Hk, Hd.
  change (("/" ++ a) ++ "/" ++ b) with ("/" ++ (a ++ "/" ++ b)).
  apply (normalize_shape _ (a ++ "/" ++ b) true).
  - discriminate.
  - unfold noDotDot. rewrite segments_from_cons_sep, segments_from_join.
    exact Hd.
  - unfold keptPath. rewrite segments_from_cons_sep, segments_from_join.
    exact Hk.
  - pose proof (plain_nonempty a Ha). destruct a; [congruence | discriminate].
  - reflexivity.
  - rewrite <- !append_assoc. rewrite charIs_last_app by exact Hbne.
    exact Hbl.
Qed.

(** [path.join] when the first path ends with a separator. *)
Lemma join_trailing_plain (a b : string) :
  isPlain a = true -> isPlain b = true ->
  Path.join [a ++ "/"; b] = a ++ "/" ++ b.
Proof.
  intros Ha Hb. destruct (plain_last b Hb) as [Hbne Hbl].
  pose proof (plain_nonempty a Ha) as Hane.
  rewrite joined_two
    by (exact Hbne || (destruct a; [congruence | discriminate])).
  destruct (segments_two a b [] [""] [] Ha Hb eq_refl) as [Hk Hd].
  cbn [app] in Hk, Hd. rewrite app_nil_r in Hk, Hd.
  assert (Hsegs : segments_from ((a ++ "/") ++ "/" ++ b) ""
                  = (segments_from a "" ++ "" :: segments_from b "")%list).
  { rewrite append_assoc.
    change ("/" ++ "/" ++ b) with ("/" ++ ("/" ++ b)).
    rewrite segments_from_join. reflexivity. }
  rewrite (normalize_shape _ (a ++ "/" ++ b) false); [reflexivity|..].
  - destruct a; [congruence | discriminate].
  - unfold noDotDot. rewrite Hsegs. exact Hd.
  - unfold keptPath. rewrite Hsegs. exact Hk.
  - destruct a; [congruence | discriminate].
  - rewrite append_assoc.
    destruct a as [|x a]; [congruence|].
    transitivity (Js.charIs (String x a) 0 Path.CHAR_FORWARD_SLASH);
      [reflexivity | now apply plain_relative].
  - rewrite <- !append_assoc. rewrite charIs_last_app by exact Hbne.
    exact Hbl.
Qed.

(** [path.resolve] of an absolute path in normal form, with or without a
    separator at its end. *)
Lemma resolve_abs_plain (cwd a : string) (trailing : bool) :
  isPlain a = true ->
  Path.resolve cwd ("/" ++ a ++ (if trailing then "/" else "")) = "/" ++ a.
Proof.
  intros Ha. unfold Path.resolve.
  set (p := "/" ++ a ++ (if trailing then "/" else "")).
  assert (Hp : (String.length p =? 0)%nat = false) by reflexivity.
  assert (Habs : Js.charIs p 0 Path.CHAR_FORWARD_SLASH = true) by reflexivity.
  cbn [fst snd]. rewrite Hp, Habs. cbn [fst snd negb]. cbv iota.
  assert (Hsegs : exists post,
             forallb (fun s => String.eqb s "") ([""] ++ post) = true
             /\ segments_from (p ++ "/" ++ "") ""
                = ([""] ++ segments_from a "" ++ post)%list).
  { subst p. destruct trailing.
    - exists [ ""; "" ]. split; [reflexivity|].
      change (("/" ++ a ++ "/") ++ "/" ++ "")
        with ("/" ++ ((a ++ "/") ++ "/" ++ "")).
      rewrite segments_from_cons_sep, append_assoc.
      change ("/" ++ "/" ++ "") with ("/" ++ ("/" ++ "")).
      rewrite segments_from_join. reflexivity.
    - exists [ "" ]. split; [reflexivity|].
      change (("/" ++ a ++ "") ++ "/" ++ "")
        with ("/" ++ ((a ++ "") ++ "/" ++ "")).
      rewrite segments_from_cons_sep, append_nil_r, segments_from_join.
      reflexivity. }
  destruct Hsegs as (post & Hempty & Hsegs).
  destruct (segments_one a [""] post Ha Hempty) as [Hk Hd].
  rewrite normalizeString_segments.
  - unfold keptPath. rewrite Hsegs. now rewrite Hk.
  - unfold noDotDot. rewrite Hsegs. exact Hd.
Qed.


(** ** [dirname], [extname] and [basename] on paths in normal form *)

Lemma string_rev_ind (P : string -> Prop) :
  P "" -> (forall s x, P s -> P (s ++ String x "")) -> forall s, P s.
Proof.
  intros H0 Hs s.
  rewrite <- (string_of_list_ascii_of_string s).
  induction (list_ascii_of_string s) as [|x l IH] using rev_ind; [exact H0|].
  replace (string_of_list_ascii (l ++ [x]))
    with (string_of_list_ascii l ++ String x "").
  - now apply Hs.
  - clear. induction l as [|y l IH]; simpl; [reflexivity | now rewrite IH].
Qed.

Lemma charIs_at (pre rest : string) (x c : ascii) :
  Js.charIs (pre ++ String x rest) (Js.len pre) c = Ascii.eqb x c.
Proof. unfold Js.charIs. now rewrite charCodeAt_next. Qed.

Lemma charCodeAt_at (pre rest : string) (x : ascii) :
  Js.charCodeAt (pre ++ String x rest) (Z.of_nat (String.length pre))
  = Some x.
Proof. apply charCodeAt_next. Qed.

Lemma mentions_snoc (c : ascii) (s : string) (x : ascii) :
  mentions c (s ++ String x "") = mentions c s || Ascii.eqb x c.
Proof. rewrite mentions_app. cbn. now rewrite orb_false_r. Qed.

Lemma length_snoc (s : string) (x : ascii) :
  String.length (s ++ String x "") = S (String.length s).
Proof. rewrite length_append. simpl. lia. Qed.

Lemma snoc_assoc (a : string) (x : ascii) (b : string) :
  (a ++ String x "") ++ b = a ++ String x b.
Proof. now rewrite append_assoc. Qed.

(** A path in normal form is a last segment, after nothing or after a path
    in normal form and a separator. *)
Lemma isPlainFrom_flat (cur s : string) :
  mentions "/"%char s = false ->
  isPlainFrom cur s = isPlainSegment (cur ++ s).
Proof.
  revert cur. induction s as [|x s IH]; intros cur H.
  - now rewrite append_nil_r.
  - cbn [mentions] in H. apply orb_false_iff in H as [Hx Hs].
    cbn [isPlainFrom]. unfold Path.isPosixPathSeparator, Path.CHAR_FORWARD_SLASH.
    rewrite Hx, IH by exact Hs. now rewrite snoc_assoc.
Qed.

Lemma plain_split_from (cur p : string) :
  isPlainFrom cur p = true ->
  mentions "/"%char p = false
  \/ exists d name,
       p = d ++ "/" ++ name /\ isPlainFrom cur d = true
       /\ isPlainSegment name = true /\ mentions "/"%char name = false.
Proof.
  revert cur. induction p as [|x p IH]; intros cur H; [now left|].
  cbn [isPlainFrom] in H. cbn [mentions].
  destruct (Path.isPosixPathSeparator x) eqn:Hx.
  - right. apply andb_true_iff in H as [Hcur Hp].
    assert (x = "/"%char) as -> by (now apply Ascii.eqb_eq in Hx).
    destruct (IH "" Hp) as [Hflat|(d & name & -> & Hd & Hn & Hm)].
    + exists "", p. repeat split; auto.
      now rewrite isPlainFrom_flat in Hp.
    + exists ("/" ++ d), name. repeat split; auto.
      cbn [String.append isPlainFrom].
      change (Path.isPosixPathSeparator "/") with true. cbv iota.
      now rewrite Hcur.
  - unfold Path.isPosixPathSeparator, Path.CHAR_FORWARD_SLASH in Hx.
    rewrite Hx. cbn [orb].
    destruct (IH _ H) as [Hflat|(d & name & -> & Hd & Hn & Hm)]; [now left|].
    right. exists (String x d), name. repeat split; auto.
    cbn [isPlainFrom]. unfold Path.isPosixPathSeparator,
      Path.CHAR_FORWARD_SLASH. now rewrite Hx.
Qed.

(** The last segment of a path in normal form, and what is before it. *)
Lemma plain_split (p : string) :
  isPlain p = true ->
  exists pre name,
    p = pre ++ name
    /\ (pre = "" \/ exists d, isPlain d = true /\ pre = d ++ "/")
    /\ isPlainSegment name = true /\ mentions "/"%char name = false.
Proof.
  intros H. destruct (plain_split_from "" p H)
    as [Hflat|(d & name & -> & Hd & Hn & Hm)].
  - exists "", p. repeat split; auto.
    unfold isPlain in H. now rewrite isPlainFrom_flat in H.
  - exists (d ++ "/"), name. split; [now rewrite append_assoc|].
    split; [right; eauto | auto].
Qed.

(** *** [dirname] *)

Lemma dirname_loop_none (a b : string) (ms : bool) :
  mentions "/"%char a = false ->
  Path.dirname_loop (a ++ b) (String.length a) ms = (-1)%Z.
Proof.
  revert b ms. induction a as [|a x IH] using string_rev_ind; intros b ms H;
    [reflexivity|].
  rewrite mentions_snoc in H. apply orb_false_iff in H as [Ha Hx].
  rewrite length_snoc. cbn [Path.dirname_loop].
  destruct (String.length a <? 1)%nat; [reflexivity|].
  rewrite snoc_assoc, charIs_at.
  unfold Path.CHAR_FORWARD_SLASH. rewrite Hx.
  apply (IH (String x b) false Ha).
Qed.

Lemma dirname_loop_slash (d a b : string) (ms : bool) :
  d <> "" -> mentions "/"%char a = false -> (a = "" -> ms = false) ->
  Path.dirname_loop ((d ++ "/") ++ a ++ b) (String.length ((d ++ "/") ++ a)) ms
  = Js.len d.
Proof.
  intros Hd. revert b ms.
  induction a as [|a x IH] using string_rev_ind; intros b ms H Hms.
  - rewrite append_nil_r. rewrite (length_snoc d "/"%char).
    cbn [Path.dirname_loop].
    replace (String.length d <? 1)%nat with false
      by (destruct d; [congruence | reflexivity]).
    cbn [String.append]. rewrite snoc_assoc, charIs_at.
    change (Ascii.eqb "/" Path.CHAR_FORWARD_SLASH) with true. cbv iota.
    now rewrite (Hms eq_refl).
  - rewrite mentions_snoc in H. apply orb_false_iff in H as [Ha Hx].
    replace (String.length ((d ++ "/") ++ a ++ String x ""))
      with (S (String.length ((d ++ "/") ++ a)))
      by (rewrite !length_append; simpl; lia).
    replace ((d ++ "/") ++ (a ++ String x "") ++ b)
      with (((d ++ "/") ++ a) ++ String x b)
      by (now rewrite !append_assoc).
    cbn [Path.dirname_loop].
    replace (String.length ((d ++ "/") ++ a) <? 1)%nat with false
      by (rewrite !length_append; simpl; symmetry; apply Nat.ltb_ge; lia).
    rewrite charIs_at.
    unfold Path.CHAR_FORWARD_SLASH. rewrite Hx.
    rewrite append_assoc. apply IH; [exact Ha | reflexivity].
Qed.

Lemma slice_prefix (a b : string) : Js.slice (a ++ b) 0 (Js.len a) = a.
Proof.
  unfold Js.slice, Js.len. replace (Z.to_nat 0) with 0 by lia.
  replace (Z.to_nat (Z.of_nat (String.length a) - 0)) with (String.length a)
    by lia.
  apply substring_prefix.
Qed.

(** [dirname] of a path in normal form: what is before the last separator,
    or [.] when there is none. *)
Lemma dirname_plain (d name : string) :
  isPlain d = true -> isPlainSegment name = true ->
  mentions "/"%char name = false ->
  Path.dirname (d ++ "/" ++ name) = d /\ Path.dirname name = ".".
Proof.
  intros Hd Hn Hm. destruct (isPlainSegment_inv _ Hn) as (Hne & _).
  pose proof (plain_nonempty d Hd) as Hdne. split.
  - unfold Path.dirname.
    replace (String.length (d ++ "/" ++ name) =? 0)%nat with false
      by (destruct d; [congruence | reflexivity]).
    replace (Js.charIs (d ++ "/" ++ name) 0 Path.CHAR_FORWARD_SLASH)
      with false.
    + pose proof (dirname_loop_slash d name "" true Hdne Hm) as E.
      rewrite !append_nil_r in E. rewrite <- append_assoc.
      rewrite E by congruence.
      replace (Js.len d =? -1)%Z with false
        by (symmetry; apply Z.eqb_neq; unfold Js.len; lia).
      cbn [andb]. rewrite append_assoc. apply slice_prefix.
    + symmetry. destruct d as [|x d]; [congruence|].
      transitivity (Js.charIs (String x d) 0 Path.CHAR_FORWARD_SLASH);
        [reflexivity | now apply plain_relative].
  - unfold Path.dirname.
    replace (String.length name =? 0)%nat with false
      by (destruct name; [congruence | reflexivity]).
    pose proof (dirname_loop_none name "" true Hm) as E.
    rewrite append_nil_r in E. rewrite E. cbn.
    destruct name as [|x name]; [congruence|].
    cbn [mentions] in Hm. apply orb_false_iff in Hm as [Hx _].
    change (Js.charIs (String x name) 0 Path.CHAR_FORWARD_SLASH)
      with (Ascii.eqb x "/"). now rewrite Hx.
Qed.

(** *** [extname] *)

Lemma extname_loop_S (path : string) (i : nat) (st : Path.ExtState) :
  Path.extname_loop path (S i) st
  = let iz := Z.of_nat i in
    if Js.charIs path iz Path.CHAR_FORWARD_SLASH then
      if negb (Path.ext_matchedSlash st) then
        Path.mkExt (Path.startDot st) (iz + 1) (Path.ext_end st)
          (Path.ext_matchedSlash st) (Path.preDotState st)
      else Path.extname_loop path i st
    else
      let st1 :=
        if (Path.ext_end st =? -1)%Z
        then Path.mkExt (Path.startDot st) (Path.startPart st) (iz + 1) false
               (Path.preDotState st)
        else st in
      let st2 :=
        if Js.charIs path iz Path.CHAR_DOT then
          if (Path.startDot st1 =? -1)%Z
          then Path.mkExt iz (Path.startPart st1) (Path.ext_end st1)
                 (Path.ext_matchedSlash st1) (Path.preDotState st1)
          else if negb (Path.preDotState st1 =? 1)%Z
          then Path.mkExt (Path.startDot st1) (Path.startPart st1)
                 (Path.ext_end st1) (Path.ext_matchedSlash st1) 1
          else st1
        else if negb (Path.startDot st1 =? -1)%Z
        then Path.mkExt (Path.startDot st1) (Path.startPart st1)
               (Path.ext_end st1) (Path.ext_matchedSlash st1) (-1)
        else st1 in
      Path.extname_loop path i st2.
Proof. reflexivity. Qed.

(** One character that is not a separator keeps the invariant. *)
Lemma extInv_step (L : Z) (i : nat) (isDot : bool) (st : Path.ExtState) :
  extInv L (Z.of_nat i + 1) st ->
  (Z.of_nat i < L)%Z ->
  let iz := Z.of_nat i in
  let st1 :=
    if (Path.ext_end st =? -1)%Z
    then Path.mkExt (Path.startDot st) (Path.startPart st) (iz + 1) false
           (Path.preDotState st)
    else st in
  let st2 :=
    if isDot then
      if (Path.startDot st1 =? -1)%Z
      then Path.mkExt iz (Path.startPart st1) (Path.ext_end st1)
             (Path.ext_matchedSlash st1) (Path.preDotState st1)
      else if negb (Path.preDotState st1 =? 1)%Z
      then Path.mkExt (Path.startDot st1) (Path.startPart st1)
             (Path.ext_end st1) (Path.ext_matchedSlash st1) 1
      else st1
    else if negb (Path.startDot st1 =? -1)%Z
    then Path.mkExt (Path.startDot st1) (Path.startPart st1)
           (Path.ext_end st1) (Path.ext_matchedSlash st1) (-1)
    else st1 in
  extInv L (Z.of_nat i) st2.
Proof.
  intros (Hsp & Hend & Hd0 & Hdr & Hpd) Hi iz st1 st2.
  destruct st as [sd sp en ms pd]. cbn in *. subst sp.
  assert (Hst1 : exists en', st1 = Path.mkExt sd 0 en' false pd /\ en' = L).
  { subst st1. destruct Hend as [(-> & -> & Hk)|(-> & -> & Hk)].
    - cbn. eexists. split; [reflexivity | subst iz; lia].
    - destruct (L =? -1)%Z eqn:E; [apply Z.eqb_eq in E; lia|]. eauto. }
  destruct Hst1 as (en' & Hst1 & ->). subst st2. rewrite Hst1. cbn.
  unfold extInv.
  destruct isDot.
  - destruct (sd =? -1)%Z eqn:Esd; cbn.
    + apply Z.eqb_eq in Esd. subst sd. specialize (Hd0 eq_refl). subst pd.
      repeat split; try lia; try (right; repeat split; lia).
    + apply Z.eqb_neq in Esd. specialize (Hdr Esd).
      destruct (pd =? 1)%Z eqn:Epd; cbn.
      * apply Z.eqb_eq in Epd. subst pd.
        repeat split; try lia; try (right; repeat split; lia).
      * repeat split; try lia; try (right; repeat split; lia).
  - destruct (sd =? -1)%Z eqn:Esd; cbn.
    + apply Z.eqb_eq in Esd. subst sd. specialize (Hd0 eq_refl). subst pd.
      repeat split; try lia; try (right; repeat split; lia).
    + apply Z.eqb_neq in Esd. specialize (Hdr Esd).
      repeat split; try lia; try (right; repeat split; lia).
Qed.

Lemma extname_loop_name (pre : string) :
  segmentStart pre ->
  forall a, mentions "/"%char a = false ->
  forall b st,
    extInv (Js.len (pre ++ a ++ b)) (Js.len (pre ++ a)) st ->
    (a = "" -> Path.ext_matchedSlash st = false) ->
    extFinal (Js.len (pre ++ a ++ b)) (Js.len pre)
      (Path.extname_loop (pre ++ a ++ b) (String.length (pre ++ a)) st).
Proof.
  intros Hpre.
  induction a as [|a x IH] using string_rev_ind; intros Ha b st Hinv Hms.
  - specialize (Hms eq_refl). cbn [String.append] in *.
    rewrite append_nil_r in *.
    destruct Hinv as (Hsp & Hend & Hd0 & Hdr & Hpd).
    destruct Hend as [(_ & Hc & _)|(Hend & _ & Hk)]; [congruence|].
    destruct Hpre as [->|(d & Hd & ->)].
    + cbn [String.length Path.extname_loop String.append] in *.
      unfold extFinal. change (Js.len "") with 0%Z in *.
      repeat split; auto; try (specialize (Hdr ltac:(assumption)); lia).
    + rewrite (length_snoc d "/"%char), extname_loop_S.
      cbv zeta. rewrite snoc_assoc, charIs_at.
      change (Ascii.eqb "/" Path.CHAR_FORWARD_SLASH) with true. cbv iota.
      rewrite Hms. cbn [negb Path.startPart Path.ext_end Path.startDot
        Path.preDotState]. unfold extFinal. cbn.
      unfold Js.len in *. rewrite length_snoc in *.
      rewrite <- (snoc_assoc d "/"%char b).
      repeat split; auto; try lia;
        specialize (Hdr ltac:(assumption)); lia.
  - rewrite mentions_snoc in Ha. apply orb_false_iff in Ha as [Ha Hx].
    replace (String.length (pre ++ a ++ String x ""))
      with (S (String.length (pre ++ a)))
      by (rewrite !length_append; simpl; lia).
    replace (pre ++ (a ++ String x "") ++ b)
      with ((pre ++ a) ++ String x b)
      by (now rewrite !append_assoc).
    assert (HL : Js.len ((pre ++ a) ++ String x b)
                 = Js.len (pre ++ a ++ String x b))
      by (now rewrite append_assoc).
    rewrite extname_loop_S. cbv zeta. rewrite !charIs_at.
    unfold Path.CHAR_FORWARD_SLASH at 1. rewrite Hx.
    rewrite HL. rewrite append_assoc.
    match goal with
    | |- extFinal _ _ (Path.extname_loop _ _ ?s) => set (st2 := s)
    end.
    assert (Hlt : (Z.of_nat (String.length (pre ++ a))
                   < Js.len (pre ++ a ++ String x b))%Z)
      by (unfold Js.len; rewrite !length_append; simpl; lia).
    assert (Hinv2 : extInv (Js.len (pre ++ a ++ String x b))
                      (Js.len (pre ++ a)) st2).
    { apply (extInv_step _ (String.length (pre ++ a))
               (Ascii.eqb x Path.CHAR_DOT) st); [|exact Hlt].
      replace (Js.len (pre ++ (a ++ String x "") ++ b))
        with (Js.len (pre ++ a ++ String x b)) in Hinv
        by (now rewrite !append_assoc).
      replace (Js.len (pre ++ a ++ String x ""))
        with (Z.of_nat (String.length (pre ++ a)) + 1)%Z in Hinv
        by (unfold Js.len; rewrite !length_append; simpl; lia).
      exact Hinv. }
    apply IH; [exact Ha | exact Hinv2 | intros _].
    destruct Hinv2 as (_ & [(_ & _ & Hk)|(_ & Hm & _)] & _);
      [unfold Js.len in Hk, Hlt; lia | exact Hm].
Qed.

Lemma split_at (n : nat) (s : string) :
  n <= String.length s -> exists q e, s = q ++ e /\ String.length q = n.
Proof.
  revert s. induction n as [|n IH]; intros s H.
  - now exists "", s.
  - destruct s as [|x s]; [simpl in H; lia|].
    destruct (IH s) as (q & e & -> & Hq); [simpl in H; lia|].
    exists (String x q), e. split; [reflexivity | simpl; now rewrite Hq].
Qed.

Lemma app_eq_prefix (a b c d : string) :
  a ++ b = c ++ d -> String.length a <= String.length c ->
  exists m, c = a ++ m /\ b = m ++ d.
Proof.
  revert c. induction a as [|x a IH]; intros c H Hl.
  - exists c. now split.
  - destruct c as [|y c]; [simpl in Hl; lia|].
    injection H as -> H. destruct (IH c H) as (m & -> & ->);
      [simpl in Hl; lia|].
    now exists m.
Qed.

Lemma slice_middle (q m e : string) :
  Js.slice (q ++ m ++ e) (Js.len q) (Js.len (q ++ m)) = m.
Proof.
  unfold Js.slice, Js.len. rewrite length_append.
  replace (Z.to_nat (Z.of_nat (String.length q))) with (String.length q)
    by lia.
  replace (Z.to_nat (Z.of_nat (String.length q + String.length m)
                     - Z.of_nat (String.length q)))
    with (String.length m) by lia.
  induction q as [|x q IH];
    [exact (substring_prefix m e) | exact IH].
Qed.

(** [extname], on a path whose last segment is [name], is a suffix of
    [name] that leaves something before it. *)
Lemma extname_plain (pre name : string) :
  segmentStart pre -> name <> "" -> mentions "/"%char name = false ->
  exists base ext,
    name = base ++ ext /\ Path.extname (pre ++ name) = ext
    /\ (ext = "" \/ base <> "").
Proof.
  intros Hpre Hne Hm.
  pose proof (extname_loop_name pre Hpre name Hm ""
                (Path.mkExt (-1) 0 (-1) true 0)) as F.
  rewrite append_nil_r in F.
  assert (F' := F ltac:(unfold extInv; cbn; repeat split;
                        solve [auto | lia | left; auto])
                  ltac:(intros E; now destruct (Hne E))).
  clear F. unfold Path.extname.
  set (st := Path.extname_loop _ _ _) in *.
  destruct F' as (Hsp & Hend & Hd0 & Hdr & Hpd).
  destruct (_ || _) eqn:Ec.
  - exists name, "". rewrite append_nil_r. auto.
  - apply orb_false_iff in Ec as [Ec _].
    apply orb_false_iff in Ec as [Ec E3].
    apply orb_false_iff in Ec as [E1 E2].
    apply Z.eqb_neq in E1, E3. specialize (Hdr E1). specialize (Hpd E3).
    destruct (split_at (Z.to_nat (Path.startDot st)) (pre ++ name))
      as (q & e & Hqe & Hq); [unfold Js.len in Hdr; lia|].
    destruct (app_eq_prefix pre name q e Hqe) as (m & -> & ->);
      [unfold Js.len in Hpd; lia|].
    exists m, e. split; [reflexivity|]. split.
    + rewrite Hend. rewrite <- !append_assoc.
      replace (Path.startDot st) with (Js.len (pre ++ m))
        by (unfold Js.len in *; lia).
      pose proof (slice_middle (pre ++ m) e "") as S.
      now rewrite !append_nil_r in S.
    + right. intros ->. rewrite append_nil_r in Hq.
      unfold Js.len in Hpd. lia.
Qed.

(** *** [basename] *)

Lemma basename_loop_S (path : string) (i : nat) (end_ : Z) (ms : bool) :
  Path.basename_loop path (S i) end_ ms
  = let iz := Z.of_nat i in
    if Js.charIs path iz Path.CHAR_FORWARD_SLASH then
      if negb ms then ((iz + 1)%Z, end_)
      else Path.basename_loop path i end_ ms
    else if (end_ =? -1)%Z then Path.basename_loop path i (iz + 1)%Z false
    else Path.basename_loop path i end_ ms.
Proof. reflexivity. Qed.

Lemma basename_loop_name (pre : string) :
  segmentStart pre ->
  forall a, mentions "/"%char a = false ->
  forall b end_ ms,
    (b = "" /\ end_ = (-1)%Z /\ a <> "")
    \/ (end_ = Js.len (pre ++ a ++ b) /\ ms = false) ->
    Path.basename_loop (pre ++ a ++ b) (String.length (pre ++ a)) end_ ms
    = (Js.len pre, Js.len (pre ++ a ++ b)).
Proof.
  intros Hpre.
  induction a as [|a x IH] using string_rev_ind; intros Ha b end_ ms Hst.
  - destruct Hst as [(_ & _ & Hc)|(-> & ->)]; [congruence|].
    cbn [String.append]. rewrite append_nil_r.
    destruct Hpre as [->|(d & Hd & ->)]; [reflexivity|].
    rewrite (length_snoc d "/"%char), basename_loop_S. cbv zeta.
    rewrite snoc_assoc, charIs_at.
    change (Ascii.eqb "/" Path.CHAR_FORWARD_SLASH) with true. cbv iota.
    cbn [negb]. f_equal. unfold Js.len. rewrite length_snoc. lia.
  - rewrite mentions_snoc in Ha. apply orb_false_iff in Ha as [Ha Hx].
    replace (String.length (pre ++ a ++ String x ""))
      with (S (String.length (pre ++ a)))
      by (rewrite !length_append; simpl; lia).
    replace (pre ++ (a ++ String x "") ++ b)
      with ((pre ++ a) ++ String x b) in *
      by (now rewrite !append_assoc).
    rewrite basename_loop_S. cbv zeta. rewrite charIs_at.
    unfold Path.CHAR_FORWARD_SLASH. rewrite Hx.
    assert (HL : Js.len ((pre ++ a) ++ String x b)
                 = Js.len (pre ++ a ++ String x b))
      by (now rewrite append_assoc).
    destruct Hst as [(-> & -> & _)|(-> & ->)].
    + change (-1 =? -1)%Z with true. cbv iota.
      rewrite HL, append_assoc. apply IH; [exact Ha|]. right. split; auto.
      unfold Js.len. rewrite !length_append. simpl. lia.
    + replace (Js.len ((pre ++ a) ++ String x b) =? -1)%Z with false
        by (symmetry; apply Z.eqb_neq; unfold Js.len; lia).
      rewrite HL, append_assoc. apply IH; [exact Ha|]. right. now split.
Qed.

Lemma basename_ext_loop_S (path ext : string) (i : nat)
    (st : Path.BaseState) :
  Path.basename_ext_loop path ext (S i) st
  = let iz := Z.of_nat i in
    if Js.charIs path iz Path.CHAR_FORWARD_SLASH then
      if negb (Path.b_matchedSlash st) then
        Path.mkBase (iz + 1) (Path.b_end st) (Path.b_matchedSlash st)
          (Path.extIdx st) (Path.firstNonSlashEnd st)
      else Path.basename_ext_loop path ext i st
    else
      let st1 :=
        if (Path.firstNonSlashEnd st =? -1)%Z
        then Path.mkBase (Path.b_start st) (Path.b_end st) false
               (Path.extIdx st) (iz + 1)
        else st in
      let st2 :=
        if (0 <=? Path.extIdx st1)%Z then
          if match Js.charCodeAt path iz,
                   Js.charCodeAt ext (Path.extIdx st1) with
             | Some c, Some d => Ascii.eqb c d
             | _, _ => false
             end
          then
            let e := (Path.extIdx st1 - 1)%Z in
            Path.mkBase (Path.b_start st1)
              (if (e =? -1)%Z then iz else Path.b_end st1)
              (Path.b_matchedSlash st1) e (Path.firstNonSlashEnd st1)
          else
            Path.mkBase (Path.b_start st1) (Path.firstNonSlashEnd st1)
              (Path.b_matchedSlash st1) (-1) (Path.firstNonSlashEnd st1)
        else st1 in
      Path.basename_ext_loop path ext i st2.
Proof. reflexivity. Qed.

(** Once the extension has been matched, the rest of the last segment is
    read without a change, up to the separator before it. *)
Lemma basename_ext_loop_rest (pre ext : string) :
  segmentStart pre ->
  forall a, mentions "/"%char a = false ->
  forall b en fn,
    fn <> (-1)%Z ->
    Path.basename_ext_loop (pre ++ a ++ b) ext (String.length (pre ++ a))
      (Path.mkBase 0 en false (-1) fn)
    = Path.mkBase (Js.len pre) en false (-1) fn.
Proof.
  intros Hpre.
  induction a as [|a x IH] using string_rev_ind; intros Ha b en fn Hfn.
  - cbn [String.append]. rewrite append_nil_r.
    destruct Hpre as [->|(d & Hd & ->)]; [reflexivity|].
    rewrite (length_snoc d "/"%char), basename_ext_loop_S. cbv zeta.
    rewrite snoc_assoc, charIs_at.
    change (Ascii.eqb "/" Path.CHAR_FORWARD_SLASH) with true. cbv iota.
    cbn. f_equal. unfold Js.len. rewrite length_snoc. lia.
  - rewrite mentions_snoc in Ha. apply orb_false_iff in Ha as [Ha Hx].
    replace (String.length (pre ++ a ++ String x ""))
      with (S (String.length (pre ++ a)))
      by (rewrite !length_append; simpl; lia).
    replace (pre ++ (a ++ String x "") ++ b)
      with ((pre ++ a) ++ String x b)
      by (now rewrite !append_assoc).
    rewrite basename_ext_loop_S. cbv zeta. rewrite charIs_at.
    unfold Path.CHAR_FORWARD_SLASH. rewrite Hx.
    cbn [Path.firstNonSlashEnd].
    replace (fn =? -1)%Z with false by (symmetry; now apply Z.eqb_neq).
    cbn [Path.extIdx]. change (0 <=? -1)%Z with false. cbv iota.
    rewrite append_assoc. now apply IH.
Qed.

(** While the extension is matched from its end: [e1] is what is left of it
    to match and [e2] what has been matched. *)
Lemma basename_ext_loop_match (pre base : string) :
  segmentStart pre -> mentions "/"%char base = false ->
  forall e1, mentions "/"%char e1 = false ->
  forall e2 ms fn,
    (e2 = "" /\ fn = (-1)%Z /\ e1 <> "")
    \/ (fn = Js.len (pre ++ base ++ e1 ++ e2) /\ ms = false) ->
    Path.basename_ext_loop (pre ++ base ++ e1 ++ e2) (e1 ++ e2)
      (String.length (pre ++ base ++ e1))
      (Path.mkBase 0 (if String.eqb e1 "" then Js.len (pre ++ base) else -1)
         ms (Js.len e1 - 1) fn)
    = Path.mkBase (Js.len pre) (Js.len (pre ++ base)) false (-1)
        (Js.len (pre ++ base ++ e1 ++ e2)).
Proof.
  intros Hpre Hbase.
  induction e1 as [|e1 x IH] using string_rev_ind; intros He1 e2 ms fn Hst.
  - destruct Hst as [(_ & _ & Hc)|(-> & ->)]; [congruence|].
    cbn [String.append String.eqb]. rewrite append_nil_r.
    apply (basename_ext_loop_rest pre e2 Hpre base Hbase e2).
    unfold Js.len. lia.
  - rewrite mentions_snoc in He1. apply orb_false_iff in He1 as [He1 Hx].
    replace (String.length (pre ++ base ++ e1 ++ String x ""))
      with (S (String.length (pre ++ base ++ e1)))
      by (rewrite !length_append; simpl; lia).
    replace (pre ++ base ++ (e1 ++ String x "") ++ e2)
      with ((pre ++ base ++ e1) ++ String x e2) in *
      by (now rewrite !append_assoc).
    assert (HL : Js.len ((pre ++ base ++ e1) ++ String x e2)
                 = Js.len (pre ++ base ++ e1 ++ String x e2))
      by (now rewrite !append_assoc).
    replace (String.eqb (e1 ++ String x "") "") with false
      by (now destruct e1).
    rewrite snoc_assoc.
    rewrite basename_ext_loop_S. cbv zeta. rewrite charIs_at, charCodeAt_at.
    unfold Path.CHAR_FORWARD_SLASH. rewrite Hx.
    assert (Hfn : (if (fn =? -1)%Z
                   then Path.mkBase 0 (-1) false
                          (Js.len (e1 ++ String x "") - 1)
                          (Z.of_nat (String.length (pre ++ base ++ e1)) + 1)
                   else Path.mkBase 0 (-1) ms
                          (Js.len (e1 ++ String x "") - 1) fn)
                  = Path.mkBase 0 (-1) false (Js.len e1)
                      (Js.len (pre ++ base ++ e1 ++ String x e2))).
    { replace (Js.len (e1 ++ String x "") - 1)%Z with (Js.len e1)
        by (unfold Js.len; rewrite length_snoc; lia).
      destruct Hst as [(-> & -> & _)|(-> & ->)].
      - change (-1 =? -1)%Z with true. cbv iota. f_equal.
        unfold Js.len. rewrite !length_append. simpl. lia.
      - replace (_ =? -1)%Z with false
          by (symmetry; apply Z.eqb_neq; unfold Js.len; lia).
        now rewrite HL. }
    cbn [Path.firstNonSlashEnd Path.b_start Path.b_end Path.extIdx
         Path.b_matchedSlash].
    rewrite Hfn.
    cbn [Path.firstNonSlashEnd Path.b_start Path.b_end Path.extIdx
         Path.b_matchedSlash].
    replace (0 <=? Js.len e1)%Z with true
      by (symmetry; apply Z.leb_le; unfold Js.len; lia).
    unfold Js.len at 1. rewrite charCodeAt_at, Ascii.eqb_refl.
    replace (if (Js.len e1 - 1 =? -1)%Z
             then Z.of_nat (String.length (pre ++ base ++ e1))
             else (-1)%Z)
      with (if String.eqb e1 "" then Js.len (pre ++ base) else (-1)%Z).
    + rewrite !append_assoc. rewrite <- !append_assoc.
      rewrite !append_assoc.
      apply IH; [exact He1|]. right. now split.
    + destruct e1 as [|y e1].
      * cbn [String.append String.eqb]. rewrite append_nil_r.
        reflexivity.
      * cbn [String.eqb].
        replace (Js.len (String y e1) - 1 =? -1)%Z with false;
          [reflexivity|].
        symmetry. apply Z.eqb_neq. unfold Js.len.
        cbn [String.length]. lia.
Qed.

(** [basename] with the extension that [extname] gave: the last segment
    without it. *)
Lemma basename_plain (pre base ext : string) :
  segmentStart pre -> mentions "/"%char (base ++ ext) = false ->
  base <> "" ->
  Path.basename (pre ++ base ++ ext) ext = base.
Proof.
  intros Hpre Hm Hb. rewrite mentions_app in Hm.
  apply orb_false_iff in Hm as [Hmb Hme].
  unfold Path.basename. destruct ext as [|x ext].
  - cbn [String.length Nat.ltb Nat.leb andb]. rewrite append_nil_r.
    pose proof (basename_loop_name pre Hpre base Hmb "" (-1)%Z true) as E.
    rewrite append_nil_r in E. rewrite E by (left; auto).
    replace (Js.len (pre ++ base) =? -1)%Z with false
      by (symmetry; apply Z.eqb_neq; unfold Js.len; lia).
    pose proof (slice_middle pre base "") as S.
    now rewrite append_nil_r in S.
  - set (e := String x ext) in *.
    replace ((0 <? String.length e)%nat
             && (String.length e <=? String.length (pre ++ base ++ e))%nat)
      with true
      by (symmetry; apply andb_true_iff; split;
          [reflexivity | apply Nat.leb_le; rewrite !length_append; lia]).
    replace (String.eqb e (pre ++ base ++ e)) with false.
    2:{ symmetry. apply String.eqb_neq. intros E.
        apply (f_equal String.length) in E. rewrite !length_append in E.
        destruct base; [congruence | simpl in E; lia]. }
    pose proof (basename_ext_loop_match pre base Hpre Hmb e Hme "" true
                  (-1)%Z) as E.
    rewrite !append_nil_r in E.
    change (String.eqb e "") with false in E. cbv iota in E.
    rewrite E by (left; repeat split; discriminate).
    cbn [Path.b_start Path.b_end Path.firstNonSlashEnd].
    replace (Js.len pre =? Js.len (pre ++ base))%Z with false
      by (symmetry; apply Z.eqb_neq; unfold Js.len; rewrite length_append;
          destruct base; [congruence | simpl; lia]).
    replace (Js.len (pre ++ base) =? -1)%Z with false
      by (symmetry; apply Z.eqb_neq; unfold Js.len; lia).
    apply slice_middle.
Qed.

Lemma uint_no_slash (d : Decimal.uint) :
  mentions "/"%char (NilEmpty.string_of_uint d) = false.
Proof. induction d; simpl; auto. Qed.

Lemma segment_with_dash (a b : string) :
  isPlainSegment (a ++ "-" ++ b) = true.
Proof.
  unfold isPlainSegment.
  destruct a as [|x [|y [|z a]]]; cbn [String.append String.eqb];
    try reflexivity;
    destruct (Ascii.eqb x "."); try reflexivity;
    cbn [negb andb]; try (change (Ascii.eqb "-" ".") with false; cbv iota);
    try reflexivity;
    destruct (Ascii.eqb y "."); reflexivity.
Qed.

Section HashedPathShape.
Context {host : Host}.

(** The path that [_create] computes for a logical path in normal form:
    the logical path with a dash and the digest put before what [extname]
    takes for its extension; it is in normal form as well. *)
Lemma hashedPath_plain (p : string) (c : Content) :
  isPlain p = true ->
  exists stem ext,
    p = stem ++ ext /\ Path.extname p = ext /\ stem <> ""
    /\ hashedPath p c
       = stem ++ "-" ++ Js.toString (contentHash (Bytes (Buffer_from c)))
           ++ ext
    /\ isPlain (hashedPath p c) = true.
Proof.
  intros Hp.
  destruct (plain_split p Hp) as (pre & name & -> & Hpre & Hn & Hm).
  destruct (isPlainSegment_inv _ Hn) as (Hne & _).
  assert (Hseg : segmentStart pre).
  { destruct Hpre as [->|(d & Hd & ->)]; [now left|].
    right. exists d. split; [now apply plain_nonempty | reflexivity]. }
  destruct (extname_plain pre name Hseg Hne Hm)
    as (base & ext & -> & Hext & Hbe).
  assert (Hb : base <> "").
  { destruct Hbe as [->|Hb]; [|exact Hb].
    now rewrite append_nil_r in Hne. }
  pose proof (basename_plain pre base ext Hseg Hm Hb) as Hbase.
  set (digits := Js.toString (contentHash (Bytes (Buffer_from c)))).
  set (name' := base ++ "-" ++ digits ++ ext).
  assert (Hn' : isPlain name' = true).
  { unfold isPlain. rewrite isPlainFrom_flat.
    - apply segment_with_dash.
    - rewrite mentions_app in Hm. apply orb_false_iff in Hm as [Hmb Hme].
      unfold name'. rewrite !mentions_app, Hmb, Hme.
      unfold digits, Js.toString. now rewrite uint_no_slash. }
  exists (pre ++ base), ext.
  split; [now rewrite append_assoc|]. split; [exact Hext|].
  split; [destruct pre, base; cbn; congruence|].
  unfold hashedPath, hashedName. rewrite Hext, Hbase. fold digits name'.
  destruct Hpre as [->|(d & Hd & ->)].
  - cbn [String.append] in *.
    destruct (dirname_plain "x" (base ++ ext) eq_refl Hn Hm) as (_ & ->).
    rewrite join_dot_plain by exact Hn'. now split.
  - replace ((d ++ "/") ++ base ++ ext) with (d ++ "/" ++ base ++ ext)
      by (now rewrite append_assoc).
    destruct (dirname_plain d (base ++ ext) Hd Hn Hm) as (-> & _).
    rewrite join_plain by assumption.
    split; [now rewrite !append_assoc|].
    unfold isPlain in *. now rewrite isPlainFrom_join, Hd, Hn'.
Qed.

End HashedPathShape.

Section DigestFacts.
Context {host : Host}.

(** X5: [write] of a logical path in normal form binds it to itself with a
    dash and the digest of the bytes of the content, those of its encoding
    in UTF-8 for a string, in decimal, put before the
    extension that [extname] finds, the directories and the extension
    staying as they are; that path is in normal form again, it is what
    [write] returns when the file could be written, the file is written
    there under the root, and [isUnhashed] answers [false] for the logical
    path. *)
Theorem write_digest_before_extension (this : AssetMap) (fs : FS)
    (p : string) (c : Content) :
  isPlain p = true ->
  exists stem,
    stem <> "" /\ p = stem ++ Path.extname p
    /\ let dst := stem ++ "-"
                    ++ Js.toString (contentHash (Bytes (Buffer_from c)))
                    ++ Path.extname p in
       let out := write p c (this, fs) in
       let this' := fst (snd out) in
       isPlain dst = true
       /\ JsMap.get (_assets this') p = Some dst
       /\ (forall r, fst out = Normal r -> r = dst)
       /\ snd (snd out)
          = snd (writeContent (Path.join [directory this; dst]) c fs)
       /\ isUnhashed p this' = (Normal false, this').
Proof.
  intros Hp.
  destruct (hashedPath_plain p c Hp) as (stem & ext & Hpe & Hext & Hs & Hh & Hpl).
  exists stem. split; [exact Hs|]. rewrite Hext. split; [exact Hpe|].
  rewrite <- Hh. cbv zeta.
  assert (E : _toRelPath p this = (Normal p, this)).
  { apply toRelPath_relative. destruct p as [|x p]; [reflexivity|].
    exact (plain_relative _ Hp). }
  rewrite (write_spec this fs p p c E). cbn [fst snd _assets].
  split; [exact Hpl|]. split; [apply get_set_same|]. split; [|split].
  - intros r. destruct (fst (writeContent _ c fs)); congruence.
  - reflexivity.
  - unfold isUnhashed, bind, get_state. cbn [_assets].
    rewrite get_set_same.
    assert (Hne : hashedPath p c <> "") by (now apply plain_nonempty).
    assert (Hneq : p <> hashedPath p c).
    { rewrite Hh. rewrite Hpe at 1. intros H.
      apply (f_equal String.length) in H. rewrite !length_append in H.
      simpl in H. lia. }
    apply String.eqb_neq in Hne, Hneq. cbn [Js.falsy].
    now rewrite Hne, Hneq.
Qed.

(** X6: a path under the root may be given with the root before it: [write],
    [writeUnhashed] and [resolve] do for the root, a separator and a
    relative path what they do for the relative path. *)
Theorem absolute_spelling (this : AssetMap) (fs : FS) (rel : string)
    (c : Content) :
  Path.isAbsolute (directory this) = true ->
  Path.isAbsolute rel = false ->
  let abs := directory this ++ "/" ++ rel in
  write abs c (this, fs) = write rel c (this, fs)
  /\ writeUnhashed abs c (this, fs) = writeUnhashed rel c (this, fs)
  /\ resolve abs this = resolve rel this.
Proof.
  intros Habs Hrel abs.
  pose proof (toRelPath_under_root this rel Habs) as E1.
  pose proof (toRelPath_relative this rel Hrel) as E2.
  fold (directory this) in E1. fold abs in E1.
  split; [|split].
  - now rewrite (write_spec _ _ _ _ c E1), (write_spec _ _ _ _ c E2).
  - now rewrite (writeUnhashed_spec _ _ _ _ c E1),
                (writeUnhashed_spec _ _ _ _ c E2).
  - unfold resolve, bind. now rewrite E1, E2.
Qed.

End DigestFacts.


(** ** [copyFolder] *)

(** *** Induction on the source tree *)

Lemma Folder_induction (P : Folder -> Prop) :
  (forall e, P (Readdir (Throw e))) ->
  (forall dirEnts,
     Forall (fun dirEnt : string * DirEnt =>
               match snd dirEnt with
               | IsDirectory sub => P sub
               | _ => True
               end) dirEnts ->
     P (Readdir (Normal dirEnts))) ->
  forall src, P src.
Proof.
  intros Hthrow Hlist. fix IH 1. intros [[dirEnts|e]]; [|apply Hthrow].
  apply Hlist. induction dirEnts as [|[name ent] rest IHrest];
    constructor; [|exact IHrest].
  destruct ent; cbn; auto.
Qed.

Lemma forOf_cons {St A} (body : A -> M St unit) (x : A) (rest : list A)
    (st : St) :
  forOf body (x :: rest) st = bind (body x) (fun _ => forOf body rest) st.
Proof. reflexivity. Qed.

Lemma forOf_app {St A} (body : A -> M St unit) (l1 l2 : list A) (st : St) :
  forOf body (l1 ++ l2)%list st
  = bind (forOf body l1) (fun _ => forOf body l2) st.
Proof.
  revert st. induction l1 as [|x l1 IH]; intros st; [reflexivity|].
  cbn [app]. unfold bind. rewrite !forOf_cons. unfold bind.
  destruct (body x st) as [[[]|e] st']; [|reflexivity].
  rewrite IH. reflexivity.
Qed.

Lemma bind_ret_tt {St} (c : M St unit) (st : St) :
  bind c (fun _ => ret tt) st = c st.
Proof. unfold bind, ret. now destruct (c st) as [[[]|e] st']. Qed.

(** *** Paths under a root *)

Lemma join_root_plain (a b : string) (trailing : bool) :
  isPlain a = true -> isPlain b = true ->
  Path.join ["/" ++ a ++ (if trailing then "/" else ""); b]
  = "/" ++ a ++ "/" ++ b.
Proof.
  intros Ha Hb. destruct trailing;
    [|rewrite append_nil_r; now apply join_abs_plain].
  destruct (plain_last b Hb) as [Hbne Hbl].
  rewrite joined_two by (discriminate || exact Hbne).
  destruct (segments_two a b [""] [""] [] Ha Hb eq_refl) as [Hk Hd].
  cbn [app] in Hk, Hd. rewrite app_nil_r in Hk, Hd.
  assert (Hsegs : segments_from (("/" ++ a ++ "/") ++ "/" ++ b) ""
                  = ("" :: segments_from a "" ++ "" :: segments_from b "")%list).
  { change (("/" ++ a ++ "/") ++ "/" ++ b)
      with ("/" ++ ((a ++ "/") ++ "/" ++ b)).
    rewrite segments_from_cons_sep, append_assoc.
    change ("/" ++ "/" ++ b) with ("/" ++ ("/" ++ b)).
    rewrite segments_from_join. reflexivity. }
  apply (normalize_shape _ (a ++ "/" ++ b) true).
  - discriminate.
  - unfold noDotDot. rewrite Hsegs. exact Hd.
  - unfold keptPath. rewrite Hsegs. exact Hk.
  - pose proof (plain_nonempty a Ha). destruct a; [congruence | discriminate].
  - reflexivity.
  - rewrite <- !append_assoc. rewrite charIs_last_app by exact Hbne.
    exact Hbl.
Qed.

Lemma name_plain (name : string) : isName name = true -> isPlain name = true.
Proof.
  unfold isName. intros H. apply andb_true_iff in H as [H1 H2].
  apply negb_true_iff in H2. unfold isPlain.
  now rewrite isPlainFrom_flat.
Qed.

Lemma rel_name_plain (rel name : string) :
  isRel rel -> isName name = true -> isPlain (rel ++ name) = true.
Proof.
  intros [->|(r & Hr & ->)] Hn; [now apply name_plain|].
  rewrite append_assoc. unfold isPlain in *.
  rewrite isPlainFrom_join, Hr. now apply name_plain.
Qed.

Lemma rel_name_rel (rel name : string) :
  isRel rel -> isName name = true -> isRel (rel ++ name ++ "/").
Proof.
  intros Hrel Hn. right. exists (rel ++ name).
  split; [now apply rel_name_plain | now rewrite append_assoc].
Qed.

Lemma join_under (s rel name name' : string) :
  isPlain s = true -> isRel rel -> isName name = true ->
  isName name' = true ->
  Path.join ["/" ++ s ++ "/" ++ rel ++ name; name']
  = "/" ++ s ++ "/" ++ (rel ++ name ++ "/") ++ name'.
Proof.
  intros Hs Hrel Hn Hn'.
  pose proof (rel_name_plain rel name Hrel Hn) as Hk.
  assert (Hp : isPlain (s ++ "/" ++ rel ++ name) = true)
    by (unfold isPlain in *; now rewrite isPlainFrom_join, Hs, Hk).
  pose proof (join_abs_plain _ _ Hp (name_plain _ Hn')) as E.
  rewrite !append_assoc in E. rewrite !append_assoc. exact E.
Qed.

(** *** [copyFolder] step by step *)

Section CopyFolderFacts.

Context {host : Host}.
Variable fs_mkdir : string -> M FS unit.

Lemma write_targetDir (this : AssetMap) (fs : FS) (p : string) (c : Content) :
  _targetDir (fst (snd (write p c (this, fs)))) = _targetDir this.
Proof.
  pose proof (toRelPath_state this p) as Hs.
  destruct (_toRelPath p this) as [[rel|e] this0] eqn:E; cbn in Hs; subst.
  - now rewrite (write_spec _ fs _ _ c E).
  - rewrite (write_refused this fs p c e); [reflexivity | now rewrite E].
Qed.

Lemma write_under_root (this : AssetMap) (fs : FS) (rel : string)
    (c : Content) :
  Path.isAbsolute (_targetDir this) = true ->
  Path.isAbsolute rel = false ->
  write (_targetDir this ++ "/" ++ rel) c (this, fs) = write rel c (this, fs).
Proof.
  intros Habs Hrel.
  now rewrite (write_spec _ _ _ _ c (toRelPath_under_root this rel Habs)),
              (write_spec _ _ _ _ c (toRelPath_relative this rel Hrel)).
Qed.

Lemma run_steps_targetDir (steps : list CopyStep) (this : AssetMap)
    (fs : FS) :
  _targetDir (fst (snd (run_steps fs_mkdir steps (this, fs))))
  = _targetDir this.
Proof.
  revert this fs. induction steps as [|step steps IH]; intros this fs;
    [reflexivity|].
  unfold run_steps in *. rewrite forOf_cons. unfold bind at 1.
  destruct (run_step fs_mkdir step (this, fs)) as [r [this1 fs1]] eqn:E.
  assert (H1 : _targetDir this1 = _targetDir this).
  { destruct step as [p|k c|e]; cbn [run_step] in E.
    - unfold on_snd in E. cbn [fst snd] in E.
      destruct (fs_mkdir p fs). now inversion E.
    - pose proof (write_targetDir this fs k c) as H.
      unfold bind, ret in E. destruct (write k c (this, fs)) as [[?|?] [? ?]];
        cbn [fst snd] in H; inversion E; now subst.
    - unfold throw in E. now inversion E. }
  destruct r as [[]|e]; [|exact H1]. now rewrite IH.
Qed.

Lemma plain_not_absolute (p : string) :
  isPlain p = true -> Path.isAbsolute p = false.
Proof.
  intros H. destruct p as [|x p]; [reflexivity|].
  exact (plain_relative _ H).
Qed.

(** A loop whose every round does the steps of a list does the steps of
    all the lists. *)
Lemma forOf_steps {A} (body : A -> M (AssetMap * FS) unit)
    (stepsOf : A -> list CopyStep) (root : string) (l : list A) :
  Forall (fun x => forall this fs,
            _targetDir this = root ->
            body x (this, fs) = run_steps fs_mkdir (stepsOf x) (this, fs)) l ->
  forall this fs,
    _targetDir this = root ->
    forOf body l (this, fs)
    = run_steps fs_mkdir (flat_map stepsOf l) (this, fs).
Proof.
  induction 1 as [|x l Hx Hl IH]; intros this fs Hroot; [reflexivity|].
  cbn [flat_map]. unfold run_steps. rewrite forOf_cons, forOf_app.
  fold (run_steps fs_mkdir). unfold bind. rewrite (Hx this fs Hroot).
  pose proof (run_steps_targetDir (stepsOf x) this fs) as Hdir.
  destruct (run_steps fs_mkdir (stepsOf x) (this, fs))
    as [[[]|e] [this1 fs1]]; [|reflexivity].
  cbn [fst snd] in Hdir. apply IH. now rewrite Hdir.
Qed.

(** With the registry given, [copyFolder] does the steps of [copySteps]. *)
Lemma copyFolder_in_steps (filter : option (string -> bool)) (s d : string) :
  isPlain s = true -> isPlain d = true ->
  forall src, wellNamed src = true ->
  forall srcRoot dstRoot rel,
    isRel rel ->
    (forall name, isName name = true ->
       Path.join [srcRoot; name] = "/" ++ s ++ "/" ++ rel ++ name) ->
    (forall name, isName name = true ->
       Path.join [dstRoot; name] = "/" ++ d ++ "/" ++ rel ++ name) ->
    forall this fs,
      _targetDir this = "/" ++ d ->
      copyFolder_in fs_mkdir src srcRoot dstRoot filter (this, fs)
      = run_steps fs_mkdir (copySteps filter s d src rel) (this, fs).
Proof.
  intros Hs Hd src. induction src as [e|dirEnts IH] using Folder_induction;
    intros Hwn srcRoot dstRoot rel Hrel Hsrc Hdst this fs Hroot;
    [reflexivity|].
  cbn [copyFolder_in copySteps]. unfold bind at 1, answer.
  cbn [wellNamed] in Hwn. rewrite forallb_forall in Hwn.
  rewrite Forall_forall in IH.
  apply forOf_steps with (root := "/" ++ d); [|exact Hroot].
  apply Forall_forall. intros [name ent] Hin this1 fs1 Hroot1.
  specialize (Hwn _ Hin). specialize (IH _ Hin). cbn [snd] in IH.
  apply andb_true_iff in Hwn as [Hname Hsub].
  rewrite (Hsrc name Hname), (Hdst name Hname).
  pose proof (rel_name_plain rel name Hrel Hname) as Hkey.
  assert (Hfile : forall content,
            (if passes filter ("/" ++ s ++ "/" ++ rel ++ name)
             then bind (answer content) (fun b =>
                  bind (write ("/" ++ d ++ "/" ++ rel ++ name) (Bytes b))
                       (fun _ => ret tt))
             else ret tt) (this1, fs1)
            = run_steps fs_mkdir
                (if passes filter ("/" ++ s ++ "/" ++ rel ++ name)
                 then match content with
                      | Normal b => [StepWrite (rel ++ name) (Bytes b)]
                      | Throw e => [StepFail e]
                      end
                 else []) (this1, fs1)).
  { intros content. destruct (passes filter _); [|reflexivity].
    destruct content as [b|e]; [|reflexivity].
    unfold bind at 1, answer. unfold run_steps. rewrite forOf_cons.
    cbn [run_step forOf]. rewrite bind_ret_tt.
    change ("/" ++ d ++ "/" ++ rel ++ name)
      with (("/" ++ d) ++ "/" ++ rel ++ name).
    rewrite <- Hroot1. unfold bind. rewrite write_under_root;
      [reflexivity | now rewrite Hroot1 | now apply plain_not_absolute]. }
  destruct ent as [sub|content|content|];
    [|apply Hfile|apply Hfile|reflexivity].
  unfold run_steps. rewrite forOf_cons. fold (run_steps fs_mkdir).
  cbn [run_step]. unfold bind, on_snd. cbn [fst snd].
  destruct (fs_mkdir _ fs1) as [[[]|e] fs2]; [|reflexivity].
  apply IH; try assumption.
  - now apply rel_name_rel.
  - intros name' Hn'. now apply join_under.
  - intros name' Hn'. now apply join_under.
Qed.

End CopyFolderFacts.

(** *** The registry that [copyFolder] returns *)

Lemma set_fresh (m : JsMap.t) (k v : string) :
  ~ In k (JsMap.keys m) -> JsMap.set m k v = (m ++ [(k, v)])%list.
Proof.
  induction m as [|[k0 v0] m IH]; intros H; [reflexivity|].
  cbn [JsMap.set app]. cbn [JsMap.keys map fst In] in H.
  destruct (String.eqb_spec k0 k) as [->|Hne]; [tauto|].
  rewrite IH; [reflexivity | tauto].
Qed.

(** Binding keys that are new and distinct appends the bindings. *)
Lemma fold_set_fresh {A} (key : A -> string) (val : A -> string)
    (l : list A) (m : JsMap.t) :
  NoDup (map key l) ->
  (forall x, In x l -> ~ In (key x) (JsMap.keys m)) ->
  fold_left (fun m x => JsMap.set m (key x) (val x)) l m
  = (m ++ map (fun x => (key x, val x)) l)%list.
Proof.
  revert m. induction l as [|x l IH]; intros m Hnd Hfresh.
  - cbn. now rewrite app_nil_r.
  - cbn [fold_left map]. inversion Hnd as [|? ? Hx Hl]; subst.
    rewrite set_fresh by (apply Hfresh; now left).
    rewrite IH; [now rewrite <- app_assoc | exact Hl |].
    intros y Hy. unfold JsMap.keys. rewrite map_app, in_app_iff.
    cbn [map fst In]. intros [H|[H|[]]].
    + apply (Hfresh y); [now right | exact H].
    + apply Hx. rewrite H. now apply in_map.
Qed.

Lemma writesOf_app (l1 l2 : list CopyStep) :
  writesOf (l1 ++ l2) = (writesOf l1 ++ writesOf l2)%list.
Proof. apply flat_map_app. Qed.

Lemma writesOf_copySteps (filter : option (string -> bool)) (s d : string)
    (src : Folder) (rel : string) :
  writesOf (copySteps filter s d src rel) = copied filter s src rel.
Proof.
  revert rel. induction src as [e|dirEnts IH] using Folder_induction;
    intros rel; [reflexivity|].
  cbn [copySteps copied].
  induction dirEnts as [|[name ent] rest IHrest]; [reflexivity|].
  inversion IH as [|? ? IHent IHtail]; subst.
  cbn [flat_map]. rewrite writesOf_app, (IHrest IHtail). f_equal.
  destruct ent as [sub|[b|e]|[b|e]|]; try reflexivity;
    try (destruct (passes filter _); reflexivity).
  cbn [snd] in IHent. cbn [writesOf flat_map app].
  apply IHent.
Qed.

Section CopyFolderRegistry.

Context {host : Host}.
Variable fs_mkdir : string -> M FS unit.

(** When no step throws, the registry has been bound by the writes. *)
Lemma run_steps_registry (steps : list CopyStep) :
  Forall (fun kc => Path.isAbsolute (fst kc) = false) (writesOf steps) ->
  forall this fs this' fs',
    run_steps fs_mkdir steps (this, fs) = (Normal tt, (this', fs')) ->
    _assets this'
    = fold_left (fun m kc => JsMap.set m (fst kc) (hashedPath (fst kc) (snd kc)))
        (writesOf steps) (_assets this).
Proof.
  induction steps as [|step steps IH]; intros Hkeys this fs this' fs' Hrun.
  - cbn in Hrun. inversion Hrun. reflexivity.
  - unfold run_steps in Hrun. rewrite forOf_cons in Hrun.
    fold (run_steps fs_mkdir) in Hrun. unfold bind in Hrun.
    change (step :: steps) with ([step] ++ steps)%list in Hkeys |- *.
    rewrite writesOf_app in Hkeys |- *.
    apply Forall_app in Hkeys as [Hstep Hkeys].
    rewrite fold_left_app.
    destruct step as [p|k c|e]; cbn [run_step] in Hrun.
    + unfold on_snd in Hrun. cbn [fst snd] in Hrun.
      destruct (fs_mkdir p fs) as [[[]|e] fs1]; [|discriminate].
      exact (IH Hkeys _ _ _ _ Hrun).
    + inversion Hstep as [|? ? Hk _]; subst. cbn [fst] in Hk.
      unfold bind in Hrun.
      rewrite (write_spec this fs k k c (toRelPath_relative this k Hk))
        in Hrun. cbv zeta in Hrun. unfold ret in Hrun.
      destruct (fst (writeContent _ c fs)); [|discriminate].
      rewrite (IH Hkeys _ _ _ _ Hrun). reflexivity.
    + discriminate.
Qed.

End CopyFolderRegistry.

(** *** The keys of the copied files *)

Lemma name_prefix_inj (n1 n2 x1 x2 : string) :
  mentions "/"%char n1 = false -> mentions "/"%char n2 = false ->
  (x1 = "" \/ exists t, x1 = "/" ++ t) ->
  (x2 = "" \/ exists t, x2 = "/" ++ t) ->
  n1 ++ x1 = n2 ++ x2 -> n1 = n2.
Proof.
  revert n2. induction n1 as [|c n1 IH]; intros [|c2 n2] H1 H2 Hx1 Hx2 E;
    cbn [String.append mentions] in *.
  - reflexivity.
  - apply orb_false_iff in H2 as [Hc _].
    destruct Hx1 as [->|(t & ->)]; [discriminate|].
    injection E as <- _. discriminate.
  - apply orb_false_iff in H1 as [Hc _].
    destruct Hx2 as [->|(t & ->)]; [discriminate|].
    injection E as -> _. discriminate.
  - apply orb_false_iff in H1 as [_ H1]. apply orb_false_iff in H2 as [_ H2].
    injection E as -> E. f_equal. now apply (IH n2).
Qed.

Lemma copied_prefix (filter : option (string -> bool)) (s : string)
    (src : Folder) :
  forall rel kc, In kc (copied filter s src rel) ->
                 exists t, fst kc = rel ++ t.
Proof.
  induction src as [e|dirEnts IH] using Folder_induction;
    intros rel kc Hin; [destruct Hin|].
  cbn [copied] in Hin. apply in_flat_map in Hin as ([name ent] & Hent & Hin).
  rewrite Forall_forall in IH. specialize (IH _ Hent). cbn [snd] in IH.
  destruct ent as [sub|[b|e]|[b|e]|]; try destruct Hin.
  - destruct (IH _ _ Hin) as (t & Ht). exists (name ++ "/" ++ t).
    now rewrite Ht, !append_assoc.
  - destruct (passes filter _); [|destruct Hin].
    destruct Hin as [<-|[]]. now exists name.
  - destruct (passes filter _); [|destruct Hin].
    destruct Hin as [<-|[]]. now exists name.
Qed.

Lemma copied_Normal (filter : option (string -> bool)) (s rel : string)
    (dirEnts : list (string * DirEnt)) :
  copied filter s (Readdir (Normal dirEnts)) rel
  = flat_map (copiedOf filter s rel) dirEnts.
Proof. reflexivity. Qed.

Lemma copiedOf_under (filter : option (string -> bool)) (s rel name : string)
    (ent : DirEnt) (kc : string * Content) :
  In kc (copiedOf filter s rel (name, ent)) ->
  exists x, fst kc = rel ++ name ++ x /\ (x = "" \/ exists t, x = "/" ++ t).
Proof.
  intros Hin. cbn [copiedOf] in Hin.
  destruct ent as [sub|[b|e]|[b|e]|]; try destruct Hin.
  - destruct (copied_prefix _ _ _ _ _ Hin) as (t & Ht).
    exists ("/" ++ t). split; [now rewrite Ht, !append_assoc | eauto].
  - destruct (passes filter _); [|destruct Hin].
    destruct Hin as [<-|[]]. exists "". now rewrite append_nil_r; auto.
  - destruct (passes filter _); [|destruct Hin].
    destruct Hin as [<-|[]]. exists "". now rewrite append_nil_r; auto.
Qed.

Lemma distinct_cons (x : string) (l : list string) :
  distinct (x :: l) = true -> ~ In x l /\ distinct l = true.
Proof.
  cbn [distinct]. intros H. apply andb_true_iff in H as [H1 H2].
  split; [|exact H2]. intros Hin. apply negb_true_iff in H1.
  assert (existsb (String.eqb x) l = true)
    by (apply existsb_exists; exists x; split;
        [exact Hin | apply String.eqb_refl]).
  congruence.
Qed.

(** The keys are paths in normal form, and no two files have one key. *)
Lemma copied_keys (filter : option (string -> bool)) (s : string)
    (src : Folder) :
  wellNamed src = true -> distinctNames src = true ->
  forall rel, isRel rel ->
    Forall (fun kc => isPlain (fst kc) = true) (copied filter s src rel)
    /\ NoDup (map fst (copied filter s src rel)).
Proof.
  induction src as [e|dirEnts IH] using Folder_induction;
    intros Hwn Hdn rel Hrel; [split; constructor|].
  rewrite copied_Normal. cbn [wellNamed distinctNames] in Hwn, Hdn.
  apply andb_true_iff in Hdn as [Hdsub Hdist].
  induction dirEnts as [|[name ent] rest IHrest];
    [split; constructor|].
  inversion IH as [|? ? IHent IHtail]; subst. cbn [snd] in IHent.
  cbn [forallb] in Hwn, Hdsub. cbn [snd] in Hdsub.
  apply andb_true_iff in Hwn as [Hent Hwn].
  apply andb_true_iff in Hent as [Hname Hsub].
  apply andb_true_iff in Hdsub as [Hdent Hdsub].
  cbn [map fst] in Hdist. apply distinct_cons in Hdist as [Hfresh Hdist].
  destruct (IHrest IHtail Hwn Hdsub Hdist) as [Hplain Hnd].
  assert (Hhere : Forall (fun kc => isPlain (fst kc) = true)
                    (copiedOf filter s rel (name, ent))
                  /\ NoDup (map fst (copiedOf filter s rel (name, ent)))).
  { pose proof (rel_name_plain rel name Hrel Hname) as Hkey.
    cbn [copiedOf]. destruct ent as [sub|[b|e]|[b|e]|];
      try (split; constructor).
    - apply IHent; [exact Hsub | exact Hdent | now apply rel_name_rel].
    - destruct (passes filter _); [|split; constructor].
      split; repeat constructor; auto.
    - destruct (passes filter _); [|split; constructor].
      split; repeat constructor; auto. }
  destruct Hhere as [Hplain1 Hnd1]. cbn [flat_map]. split.
  - apply Forall_app. now split.
  - rewrite map_app. apply NoDup_app; [exact Hnd1 | exact Hnd |].
    intros k Hk1 Hk2.
    apply in_map_iff in Hk1 as (kc1 & <- & Hin1).
    apply in_map_iff in Hk2 as (kc2 & Heq & Hin2).
    apply in_flat_map in Hin2 as ([name2 ent2] & Hent2 & Hin2).
    destruct (copiedOf_under _ _ _ _ _ _ Hin1) as (x1 & E1 & Hx1).
    destruct (copiedOf_under _ _ _ _ _ _ Hin2) as (x2 & E2 & Hx2).
    rewrite forallb_forall in Hwn. specialize (Hwn _ Hent2).
    apply andb_true_iff in Hwn as [Hname2 _].
    unfold isName in Hname, Hname2.
    apply andb_true_iff in Hname as [_ Hm1].
    apply andb_true_iff in Hname2 as [_ Hm2].
    apply negb_true_iff in Hm1, Hm2.
    rewrite E1, E2 in Heq. apply append_inj_l in Heq.
    apply Hfresh.
    rewrite (name_prefix_inj name name2 x1 x2 Hm1 Hm2 Hx1 Hx2 (eq_sym Heq)).
    apply (in_map fst _ _ Hent2).
Qed.

Section CopyFolderTheorems.

Context {host : Host}.
Variable fs_mkdir : string -> M FS unit.

Lemma copyFolder_run (filter : option (string -> bool)) (s d : string)
    (src : Folder) (ts td : bool) (fs : FS) :
  isPlain s = true -> isPlain d = true -> wellNamed src = true ->
  copyFolder fs_mkdir src ("/" ++ s ++ slashIf ts) ("/" ++ d ++ slashIf td)
    filter fs
  = let out := run_steps fs_mkdir (copySteps filter s d src "")
                 (mkAssetMap ("/" ++ d) [], fs) in
    (match fst out with
     | Normal _ => Normal (fst (snd out))
     | Throw e => Throw e
     end, snd (snd out)).
Proof.
  intros Hs Hd Hwn. unfold copyFolder, new_AssetMap, slashIf.
  rewrite (resolve_abs_plain cwd d td Hd).
  rewrite (copyFolder_in_steps fs_mkdir filter s d Hs Hd src Hwn _ _ "");
    [ | now left | | | reflexivity].
  - cbv zeta.
    destruct (run_steps fs_mkdir _ _) as [[[]|e] [this' fs']]; reflexivity.
  - intros name Hn. apply join_root_plain; [exact Hs | now apply name_plain].
  - intros name Hn. apply join_root_plain; [exact Hd | now apply name_plain].
Qed.

(** X12: [copyFolder] between two absolute roots in normal form, each with or
    without a separator at its end, does the steps of [copySteps] one after
    the other and stops at the first that throws: it walks the listings in
    their order, makes the folder of the target before it copies what is in
    a folder of the source, registers and writes each file or symbolic link
    that passes the filter under its path from the root, with the bytes
    read, skips any other kind of entry, and throws what a listing or a
    read threw; the registry is returned when no step has thrown. *)
Theorem copyFolder_steps (filter : option (string -> bool)) (s d : string)
    (src : Folder) (ts td : bool) (fs : FS) :
  isPlain s = true -> isPlain d = true -> wellNamed src = true ->
  copyFolder fs_mkdir src ("/" ++ s ++ slashIf ts) ("/" ++ d ++ slashIf td)
    filter fs
  = let out := run_steps fs_mkdir (copySteps filter s d src "")
                 (mkAssetMap ("/" ++ d) [], fs) in
    (match fst out with
     | Normal _ => Normal (fst (snd out))
     | Throw e => Throw e
     end, snd (snd out)).
Proof. apply copyFolder_run. Qed.

Lemma copyFolder_entries (filter : option (string -> bool)) (s d : string)
    (src : Folder) (ts td : bool) (fs fs' : FS) (assets : AssetMap) :
  isPlain s = true -> isPlain d = true ->
  wellNamed src = true -> distinctNames src = true ->
  copyFolder fs_mkdir src ("/" ++ s ++ slashIf ts) ("/" ++ d ++ slashIf td)
    filter fs = (Normal assets, fs') ->
  directory assets = "/" ++ d
  /\ iterator assets
     = map (fun kc => (fst kc, hashedPath (fst kc) (snd kc)))
         (copied filter s src "").
Proof.
  intros Hs Hd Hwn Hdn Hrun.
  rewrite (copyFolder_run filter s d src ts td fs Hs Hd Hwn) in Hrun.
  cbv zeta in Hrun.
  pose proof (run_steps_targetDir fs_mkdir (copySteps filter s d src "")
                (mkAssetMap ("/" ++ d) []) fs) as Hdir.
  destruct (run_steps fs_mkdir _ _) as [[[]|e] [this1 fs1]] eqn:E;
    cbn [fst snd] in *; [|discriminate].
  inversion Hrun; subst. split; [exact Hdir|].
  destruct (copied_keys filter s src Hwn Hdn "" (or_introl eq_refl))
    as [Hplain Hnd].
  unfold iterator, JsMap.entries.
  assert (Hrel : Forall (fun kc => Path.isAbsolute (fst kc) = false)
                   (writesOf (copySteps filter s d src ""))).
  { rewrite writesOf_copySteps.
    eapply Forall_impl; [|exact Hplain].
    intros kc Hk. now apply plain_not_absolute. }
  rewrite (run_steps_registry fs_mkdir _ Hrel _ _ _ _ E).
  rewrite writesOf_copySteps. cbn [_assets].
  now rewrite (fold_set_fresh fst (fun kc => hashedPath (fst kc) (snd kc))).
Qed.

(** X13: the registry that [copyFolder] returns, the names of the source tree
    being names of a directory and no listing having one twice: its root is
    the target root without a separator at its end, and it binds, in the
    order of the walk, the path from the root of each file or symbolic link
    that passes the filter to that path with the digest of the bytes read;
    folders and other entries bind nothing. *)
Theorem copyFolder_registry (filter : option (string -> bool)) (s d : string)
    (src : Folder) (ts td : bool) (fs fs' : FS) (assets : AssetMap) :
  isPlain s = true -> isPlain d = true ->
  wellNamed src = true -> distinctNames src = true ->
  copyFolder fs_mkdir src ("/" ++ s ++ slashIf ts) ("/" ++ d ++ slashIf td)
    filter fs = (Normal assets, fs') ->
  directory assets = "/" ++ d
  /\ iterator assets
     = map (fun kc => (fst kc, hashedPath (fst kc) (snd kc)))
         (copied filter s src "").
Proof. apply copyFolder_entries. Qed.

End CopyFolderTheorems.


(** ** [copyThemeAssets] and the [assetUrlMapper] of [buildCssBundles] *)

(** *** Paths of the themes *)

Lemma join_root_dir (a b : string) (trailing : bool) :
  isPlain a = true -> isPlain b = true ->
  Path.join ["/" ++ a ++ slashIf trailing; b ++ "/"]
  = "/" ++ a ++ "/" ++ b ++ "/".
Proof.
  intros Ha Hb. pose proof (plain_nonempty b Hb) as Hbne.
  rewrite joined_two
    by (discriminate || (destruct b; [congruence | discriminate])).
  set (p := ("/" ++ a ++ slashIf trailing) ++ "/" ++ b ++ "/").
  assert (Hsegs : exists mid,
             forallb (fun s => String.eqb s "") ([""] ++ mid ++ [""]) = true
             /\ segments_from p ""
                = ([""] ++ segments_from a "" ++ mid ++ segments_from b ""
                     ++ [""])%list).
  { assert (Hb' : forall cur, segments_from (b ++ "/") cur
                              = (segments_from b cur ++ [""])%list).
    { intros cur.
      replace (b ++ "/") with (b ++ "/" ++ "") by reflexivity.
      now rewrite segments_from_join. }
    subst p. destruct trailing; unfold slashIf.
    - exists [""]. split; [reflexivity|].
      change (("/" ++ a ++ "/") ++ "/" ++ b ++ "/")
        with ("/" ++ ((a ++ "/") ++ "/" ++ (b ++ "/"))).
      rewrite segments_from_cons_sep, append_assoc.
      change ("/" ++ "/" ++ b ++ "/") with ("/" ++ ("/" ++ (b ++ "/"))).
      rewrite segments_from_join. cbn [app].
      change (segments_from ("/" ++ (b ++ "/")) "")
        with ("" :: segments_from (b ++ "/") "").
      now rewrite Hb'.
    - exists []. split; [reflexivity|].
      rewrite append_nil_r.
      change (("/" ++ a) ++ "/" ++ b ++ "/")
        with ("/" ++ (a ++ "/" ++ (b ++ "/"))).
      rewrite segments_from_cons_sep, segments_from_join. cbn [app].
      now rewrite Hb'. }
  destruct Hsegs as (mid & Hempty & Hsegs).
  destruct (segments_two a b [""] mid [""] Ha Hb Hempty) as [Hk Hd].
  rewrite normalize_segments.
  - cbv zeta. unfold keptPath. rewrite Hsegs, Hk.
    replace (String.length (a ++ "/" ++ b) =? 0)%nat with false
      by (pose proof (plain_nonempty a Ha); destruct a;
          [congruence | reflexivity]).
    replace (Js.charIs p 0 Path.CHAR_FORWARD_SLASH) with true
      by reflexivity.
    replace (Js.charIs p (Js.len p - 1) Path.CHAR_FORWARD_SLASH) with true.
    + now rewrite !append_assoc.
    + subst p. rewrite <- !append_assoc.
      rewrite (charIs_last_app _ "/") by discriminate. reflexivity.
  - discriminate.
  - unfold noDotDot. rewrite Hsegs. exact Hd.
Qed.

Lemma themes_plain (theme : string) :
  isName theme = true -> isPlain ("themes/" ++ theme) = true.
Proof.
  intros H. change "themes/" with ("themes" ++ "/"). rewrite append_assoc.
  unfold isPlain. rewrite isPlainFrom_join. apply (name_plain _ H).
Qed.

(** *** A sub-registry under its parent *)

Section SubRegistry.

Context {host : Host}.

Lemma addSubMap_under (P S : AssetMap) (rel : string) :
  directory S = directory P ++ "/" ++ rel ->
  isPlain rel = true ->
  NoDup (JsMap.keys (_assets S)) ->
  (forall k v, In (k, v) (iterator S) -> isPlain k = true /\ isPlain v = true) ->
  exists P',
    addSubMap S P = (Normal tt, P')
    /\ _targetDir P' = _targetDir P
    /\ (forall k v, In (k, v) (iterator S) ->
          JsMap.get (_assets P') (rel ++ "/" ++ k) = Some (rel ++ "/" ++ v))
    /\ (forall x, (forall k v, In (k, v) (iterator S) -> x <> rel ++ "/" ++ k) ->
          JsMap.get (_assets P') x = JsMap.get (_assets P) x).
Proof.
  intros Hdir Hrel Hnd Hplain.
  destruct (nestedAt_offset (directory P) (directory S) rel Hdir)
    as [Hstart Hoff].
  eexists. split; [rewrite (addSubMap_accepts _ _ Hstart); reflexivity|].
  rewrite Hoff. cbn [_targetDir _assets]. split; [reflexivity|]. split.
  - intros k v Hin. destruct (in_split _ _ Hin) as (l1 & l2 & HS).
    destruct (Hplain _ _ Hin) as [Hk Hv].
    assert (Hlater : forall k' v', In (k', v') l2 ->
                       Path.join [rel; k'] <> Path.join [rel; k]).
    { intros k' v' Hin'.
      assert (Hin2 : In (k', v') (iterator S))
        by (rewrite HS; apply in_or_app; right; now right).
      rewrite (join_plain rel k' Hrel (proj1 (Hplain _ _ Hin2))),
              (join_plain rel k Hrel Hk).
      intros E. apply append_inj_l in E. cbn [String.append] in E.
      injection E as ->.
      unfold JsMap.keys, iterator, JsMap.entries in Hnd, HS.
      rewrite HS, map_app in Hnd. cbn [map fst] in Hnd.
      apply NoDup_remove_2 in Hnd. apply Hnd, in_or_app. right.
      now apply (in_map fst) in Hin'. }
    pose proof (fold_visit_get_last rel l1 l2 k v (_assets P) Hlater) as H.
    rewrite (join_plain rel k Hrel Hk), (join_plain rel v Hrel Hv) in H.
    rewrite HS. exact H.
  - intros x Hx. apply fold_visit_get_other. intros k v Hin.
    rewrite (join_plain rel k Hrel (proj1 (Hplain _ _ Hin))).
    intros E. exact (Hx k v Hin (eq_sym E)).
Qed.

End SubRegistry.

(** *** [copyThemeAssets] *)

Lemma themeKey_inj (t1 t2 k1 k2 : string) :
  isName t1 = true -> isName t2 = true ->
  themeKey t1 k1 = themeKey t2 k2 -> t1 = t2 /\ k1 = k2.
Proof.
  unfold isName, themeKey. intros H1 H2 E.
  apply andb_true_iff in H1 as [_ H1]. apply andb_true_iff in H2 as [_ H2].
  apply negb_true_iff in H1, H2.
  apply append_inj_l in E.
  assert (Ht : t1 = t2)
    by (apply (name_prefix_inj t1 t2 ("/" ++ k1) ("/" ++ k2)); eauto).
  subst t2. split; [reflexivity|].
  apply append_inj_l in E. now injection E.
Qed.

Section ThemeFacts.

Context {host : Host}.
Variable fs_mkdir : string -> M FS unit.

Lemma copyThemeAssets_bindings (c d : string) (tc : bool) :
  cssSrcDir = "/" ++ c ++ slashIf tc ->
  isPlain c = true -> isPlain d = true ->
  forall themes, themesOk themes = true ->
  forall this fs this' fs',
    _targetDir this = "/" ++ d ->
    copyThemeAssets fs_mkdir themes (this, fs) = (Normal tt, (this', fs')) ->
    _targetDir this' = _targetDir this
    /\ (forall theme src k content,
          In (theme, src) themes -> In (k, content) (themeFiles c theme src) ->
          JsMap.get (_assets this') (themeKey theme k)
          = Some (themeKey theme (hashedPath k content)))
    /\ (forall x,
          (forall theme src k content,
             In (theme, src) themes ->
             In (k, content) (themeFiles c theme src) ->
             x <> themeKey theme k) ->
          JsMap.get (_assets this') x = JsMap.get (_assets this) x).
Proof.
  intros Hcss Hc Hd. induction themes as [|[t src] rest IH];
    intros Hok this fs this' fs' Hroot Hrun.
  - cbn in Hrun. inversion Hrun; subst. split; [reflexivity|].
    split; [intros ? ? ? ? []|reflexivity].
  - unfold themesOk in Hok. cbn [forallb map fst snd] in Hok.
    apply andb_true_iff in Hok as [Hall Hdist].
    apply andb_true_iff in Hall as [Ht Hall].
    apply andb_true_iff in Ht as [Ht Hdn].
    apply andb_true_iff in Ht as [Ht Hwn].
    apply distinct_cons in Hdist as [Hfresh Hdist].
    assert (Hokrest : themesOk rest = true)
      by (unfold themesOk; now rewrite Hall, Hdist).
    pose proof (themes_plain t Ht) as Hrel.
    unfold copyThemeAssets in Hrun. rewrite forOf_cons in Hrun.
    fold (copyThemeAssets fs_mkdir rest) in Hrun.
    unfold bind at 1 2, on_fst at 1, get_state in Hrun.
    cbn [fst snd] in Hrun. unfold bind at 1, on_snd in Hrun.
    cbn [fst snd] in Hrun. unfold directory in Hrun.
    rewrite Hroot, Hcss in Hrun. unfold slashIf in Hrun.
    rewrite (join_abs_plain d _ Hd Hrel) in Hrun.
    rewrite (join_root_plain c _ tc Hc Hrel) in Hrun.
    assert (Hs : isPlain (c ++ "/" ++ "themes/" ++ t) = true)
      by (unfold isPlain in *; now rewrite isPlainFrom_join, Hc, Hrel).
    assert (Hd' : isPlain (d ++ "/" ++ "themes/" ++ t) = true)
      by (unfold isPlain in *; now rewrite isPlainFrom_join, Hd, Hrel).
    destruct (copyFolder fs_mkdir src _ _ (Some notCss) fs)
      as [[S|e] fs1] eqn:Ecopy; [|discriminate].
    pose proof (copyFolder_entries fs_mkdir (Some notCss)
                  (c ++ "/" ++ "themes/" ++ t) (d ++ "/" ++ "themes/" ++ t)
                  src false false fs fs1 S Hs Hd' Hwn Hdn) as HS.
    unfold slashIf in HS. rewrite !append_nil_r in HS.
    destruct (HS Ecopy) as [HSdir HSit]. clear HS.
    destruct (copied_keys (Some notCss) (c ++ "/" ++ "themes/" ++ t) src
                Hwn Hdn "" (or_introl eq_refl)) as [Hplain Hnd].
    fold (themeFiles c t src) in HSit, Hplain, Hnd.
    destruct (addSubMap_under this S ("themes/" ++ t)) as (P' & HP & HPdir & HPget & HPframe).
    { unfold directory in *. now rewrite HSdir, Hroot. }
    { exact Hrel. }
    { unfold JsMap.keys. unfold iterator, JsMap.entries in HSit.
      rewrite HSit, map_map. exact Hnd. }
    { intros k v Hin. rewrite HSit in Hin.
      apply in_map_iff in Hin as ([k0 c0] & E & Hin). inversion E; subst.
      rewrite Forall_forall in Hplain. specialize (Hplain _ Hin).
      cbn [fst snd] in *. split; [exact Hplain|].
      destruct (hashedPath_plain k c0 Hplain) as (? & ? & _ & _ & _ & _ & H).
      exact H. }
    unfold on_fst in Hrun. cbn [fst snd] in Hrun. rewrite HP in Hrun.
    cbn [fst snd] in Hrun.
    destruct (IH Hokrest P' fs1 this' fs' (eq_trans HPdir Hroot) Hrun)
      as (Hdir' & Hget' & Hframe').
    split; [congruence|]. split.
    + intros theme src0 k content [E|Hin] Hfile.
      * inversion E; subst theme src0.
        rewrite Hframe'.
        -- apply (HPget k (hashedPath k content)). rewrite HSit.
           apply in_map_iff. exists (k, content). now split.
        -- intros theme' src' k' content' Hin' _ E'.
           rewrite forallb_forall in Hall. specialize (Hall _ Hin').
           cbn [fst snd] in Hall.
           apply andb_true_iff in Hall as [Hall _].
           apply andb_true_iff in Hall as [Ht' _].
           destruct (themeKey_inj _ _ _ _ Ht Ht' E') as [-> _].
           apply Hfresh. apply (in_map fst _ _ Hin').
      * now apply (Hget' theme src0).
    + intros x Hx. rewrite Hframe'.
      * apply HPframe. intros k v Hin. rewrite HSit in Hin.
        apply in_map_iff in Hin as ([k0 c0] & E & Hin). inversion E; subst.
        apply (Hx t src k c0); [now left | exact Hin].
      * intros theme src0 k content Hin Hfile.
        apply (Hx theme src0 k content); [now right | exact Hfile].
Qed.

End ThemeFacts.

(** *** What the filter lets through *)

Lemma substr_app_plus (pre k : string) (n : nat) :
  Js.substr (pre ++ k) (String.length pre + n) = Js.substr k n.
Proof.
  induction pre as [|x pre IH]; [reflexivity|]. exact IH.
Qed.

Lemma endsWith_app (pre k pat : string) :
  Js.endsWith k pat = true -> Js.endsWith (pre ++ k) pat = true.
Proof.
  unfold Js.endsWith. intros H. apply andb_true_iff in H as [Hl He].
  apply Nat.leb_le in Hl. apply andb_true_iff. split.
  - apply Nat.leb_le. rewrite length_append. lia.
  - rewrite length_append.
    replace (String.length pre + String.length k - String.length pat)
      with (String.length pre + (String.length k - String.length pat))
      by lia.
    now rewrite substr_app_plus.
Qed.

Lemma copied_passes (filter : option (string -> bool)) (s : string)
    (src : Folder) :
  forall rel kc, In kc (copied filter s src rel) ->
                 passes filter ("/" ++ s ++ "/" ++ fst kc) = true.
Proof.
  induction src as [e|dirEnts IH] using Folder_induction;
    intros rel kc Hin; [destruct Hin|].
  cbn [copied] in Hin. apply in_flat_map in Hin as ([name ent] & Hent & Hin).
  rewrite Forall_forall in IH. specialize (IH _ Hent). cbn [snd] in IH.
  destruct ent as [sub|[b|e]|[b|e]|]; try destruct Hin.
  - exact (IH _ _ Hin).
  - destruct (passes filter _) eqn:E; [|destruct Hin].
    destruct Hin as [<-|[]]. exact E.
  - destruct (passes filter _) eqn:E; [|destruct Hin].
    destruct Hin as [<-|[]]. exact E.
Qed.

Lemma themeFiles_notCss (c theme : string) (src : Folder) (k : string)
    (content : Content) :
  In (k, content) (themeFiles c theme src) -> Js.endsWith k ".css" = false.
Proof.
  intros Hin. apply copied_passes in Hin. cbn [passes fst] in Hin.
  unfold notCss in Hin. apply negb_true_iff in Hin.
  destruct (Js.endsWith k ".css") eqn:E; [|reflexivity].
  rewrite <- Hin. symmetry.
  rewrite <- !append_assoc. now apply endsWith_app.
Qed.

Section ThemeTheorems.

Context {host : Host}.
Variable fs_mkdir : string -> M FS unit.

(** X14: when [copyThemeAssets] returns, the registry of the build has its
    root as before and resolves, for every theme and every file or symbolic
    link under the folder of the theme that does not end with [.css], the
    path [themes/<theme>/<path>] to [themes/<theme>/] and that path with
    the digest of the bytes read; no such path ends with [.css]; and every
    other key is bound as it was. *)
Theorem copyThemeAssets_registry (c d : string) (tc : bool)
    (themes : list (string * Folder)) (this this' : AssetMap) (fs fs' : FS) :
  cssSrcDir = "/" ++ c ++ slashIf tc ->
  isPlain c = true -> isPlain d = true ->
  themesOk themes = true ->
  directory this = "/" ++ d ->
  copyThemeAssets fs_mkdir themes (this, fs) = (Normal tt, (this', fs')) ->
  directory this' = directory this
  /\ (forall theme src k content,
        In (theme, src) themes -> In (k, content) (themeFiles c theme src) ->
        resolve (themeKey theme k) this'
        = (Normal (themeKey theme (hashedPath k content)), this')
        /\ Js.endsWith k ".css" = false)
  /\ (forall x,
        (forall theme src k content,
           In (theme, src) themes ->
           In (k, content) (themeFiles c theme src) ->
           x <> themeKey theme k) ->
        JsMap.get (_assets this') x = JsMap.get (_assets this) x).
Proof.
  intros Hcss Hc Hd Hok Hroot Hrun.
  destruct (copyThemeAssets_bindings fs_mkdir c d tc Hcss Hc Hd themes Hok
              this fs this' fs' Hroot Hrun) as (Hdir & Hget & Hframe).
  split; [exact Hdir|]. split; [|exact Hframe].
  intros theme src k content Hin Hfile.
  split; [|exact (themeFiles_notCss _ _ _ _ _ Hfile)].
  apply resolve_spec with (rel := themeKey theme k).
  - now apply toRelPath_relative.
  - now apply (Hget theme src).
  - discriminate.
Qed.

(** X15: the [assetUrlMapper] of a theme throws for a path that does not
    start with the folder of the theme; after [copyThemeAssets], for a file
    of the theme that was copied, it returns the name of the copy from the
    folder of the theme in the target: the path of the file in the theme
    with the digest of its bytes. *)
Theorem assetUrlMapper_round_trip (c d : string) (tc : bool)
    (themes : list (string * Folder)) (this this' : AssetMap) (fs fs' : FS) :
  cssSrcDir = "/" ++ c ++ slashIf tc ->
  isPlain c = true -> isPlain d = true ->
  themesOk themes = true ->
  directory this = "/" ++ d ->
  copyThemeAssets fs_mkdir themes (this, fs) = (Normal tt, (this', fs')) ->
  forall theme src,
    In (theme, src) themes ->
    let themeRoot := "/" ++ c ++ "/themes/" ++ theme ++ "/" in
    (forall absolutePath assets,
       Js.startsWith absolutePath themeRoot = false ->
       assetUrlMapper theme absolutePath assets
       = (Throw (Error ("resource is out of theme directory: "
                        ++ absolutePath)), assets))
    /\ (forall k content,
          In (k, content) (themeFiles c theme src) ->
          assetUrlMapper theme (themeRoot ++ k) this'
          = (Normal (Some (hashedPath k content)), this')).
Proof.
  intros Hcss Hc Hd Hok Hroot Hrun theme src Hin themeRoot.
  destruct (copyThemeAssets_bindings fs_mkdir c d tc Hcss Hc Hd themes Hok
              this fs this' fs' Hroot Hrun) as (Hdir & Hget & Hframe).
  assert (Ht : isName theme = true).
  { unfold themesOk in Hok. apply andb_true_iff in Hok as [Hall _].
    rewrite forallb_forall in Hall. specialize (Hall _ Hin).
    cbn [fst] in Hall. apply andb_true_iff in Hall as [Hall _].
    now apply andb_true_iff in Hall as [Hall _]. }
  pose proof (themes_plain theme Ht) as Hrel.
  assert (Hjoin : Path.join [cssSrcDir; "themes/" ++ theme ++ "/"]
                  = themeRoot).
  { rewrite Hcss. rewrite <- (append_assoc "themes/" theme "/").
    rewrite (join_root_dir c _ tc Hc Hrel). subst themeRoot.
    now rewrite !append_assoc. }
  split.
  - intros absolutePath assets Hout. unfold assetUrlMapper.
    rewrite Hjoin, Hout. reflexivity.
  - intros k content Hfile. unfold assetUrlMapper. rewrite Hjoin.
    unfold Js.startsWith. rewrite prefix_app. cbn [negb]. cbv iota.
    rewrite substr_app.
    assert (Hk : isPlain k = true).
    { destruct (copied_keys (Some notCss) (c ++ "/themes/" ++ theme) src)
        with (rel := "") as [Hplain _].
      - unfold themesOk in Hok. apply andb_true_iff in Hok as [Hall _].
        rewrite forallb_forall in Hall. specialize (Hall _ Hin).
        cbn [snd] in Hall. apply andb_true_iff in Hall as [Hall _].
        now apply andb_true_iff in Hall as [_ Hall].
      - unfold themesOk in Hok. apply andb_true_iff in Hok as [Hall _].
        rewrite forallb_forall in Hall. specialize (Hall _ Hin).
        cbn [snd] in Hall. now apply andb_true_iff in Hall as [_ Hall].
      - now left.
      - rewrite Forall_forall in Hplain. exact (Hplain _ Hfile). }
    rewrite <- (append_assoc "themes/" theme "/").
    rewrite (join_trailing_plain _ k Hrel Hk).
    unfold bind.
    rewrite (resolve_spec this' _ (themeKey theme k)
               (themeKey theme (hashedPath k content))).
    + cbn [Js.falsy]. unfold themeKey at 1.
      replace (String.eqb _ "") with false by reflexivity.
      unfold ret. do 3 f_equal. unfold themeKey.
      rewrite <- !append_assoc. apply substr_app.
    + apply toRelPath_relative. reflexivity.
    + now apply (Hget theme src).
    + discriminate.
Qed.

End ThemeTheorems.


(** ** [createDirs] *)

Lemma forOf_map {St A B} (f : A -> B) (body : B -> M St unit) (l : list A)
    (st : St) :
  forOf (fun x => body (f x)) l st = forOf body (map f l) st.
Proof.
  revert st. induction l as [|x l IH]; intros st; [reflexivity|].
  cbn [map]. rewrite !forOf_cons. unfold bind.
  destruct (body (f x) st) as [[[]|e] st']; [apply IH | reflexivity].
Qed.

Lemma forOf_ext {St A} (body1 body2 : A -> M St unit) (l : list A) :
  (forall x, In x l -> forall st, body1 x st = body2 x st) ->
  forall st, forOf body1 l st = forOf body2 l st.
Proof.
  induction l as [|x l IH]; intros H st; [reflexivity|].
  rewrite !forOf_cons. unfold bind. rewrite (H x (or_introl eq_refl)).
  destruct (body2 x st) as [[[]|e] st']; [|reflexivity].
  apply IH. intros y Hy. apply H. now right.
Qed.

Section DirsFacts.

Context {host : Host}.
Variable fs_mkdir : string -> M FS unit.

(** X16: [createDirs] makes the target, its folder [themes] and one folder
    for each theme under it, in this order, and stops at the first that
    cannot be made; the folder of a theme is the folder that
    [copyThemeAssets] copies the theme into, for the registry made for the
    target. *)
Theorem createDirs_folders (d : string) (trailing : bool)
    (themes : list string) (fs : FS) :
  isPlain d = true -> forallb isName themes = true ->
  let targetDir := "/" ++ d ++ slashIf trailing in
  createDirs fs_mkdir targetDir themes fs
  = forOf fs_mkdir
      (targetDir :: ("/" ++ d ++ "/themes")
         :: map (fun theme => "/" ++ d ++ "/themes/" ++ theme) themes) fs
  /\ forall theme,
       In theme themes ->
       Path.join [directory (new_AssetMap targetDir); "themes/" ++ theme]
       = "/" ++ d ++ "/themes/" ++ theme.
Proof.
  intros Hd Hnames targetDir. rewrite forallb_forall in Hnames.
  assert (Hthemes : Path.join [targetDir; "themes"] = "/" ++ d ++ "/themes")
    by (apply (join_root_plain d "themes" trailing Hd eq_refl)).
  assert (Hd' : isPlain (d ++ "/themes") = true)
    by (unfold isPlain in *; change "/themes" with ("/" ++ "themes");
        now rewrite isPlainFrom_join, Hd).
  split.
  - unfold createDirs. rewrite Hthemes, forOf_cons. unfold bind.
    destruct (fs_mkdir targetDir fs) as [[[]|e] fs1]; [|reflexivity].
    rewrite forOf_cons. unfold bind.
    destruct (fs_mkdir _ fs1) as [[[]|e] fs2]; [|reflexivity].
    rewrite <- forOf_map. apply forOf_ext. intros theme Hin st.
    f_equal.
    pose proof (join_abs_plain _ theme Hd'
                  (name_plain _ (Hnames _ Hin))) as E.
    rewrite !append_assoc in E. exact E.
  - intros theme Hin. unfold new_AssetMap, directory, targetDir, slashIf.
    cbn [_targetDir]. rewrite (resolve_abs_plain cwd d trailing Hd).
    apply (join_abs_plain d _ Hd (themes_plain _ (Hnames _ Hin))).
Qed.

End DirsFacts.


(** ** [buildCssBundles] *)

Section BundlesFacts.

Context {host : Host}.
Variable buildFn :
  string -> option (string -> M AssetMap (option string)) ->
  M (AssetMap * FS) string.

(** [buildFn] reads the registry and does not change it. *)
Hypothesis buildFn_reads :
  forall entry mapper this fs,
    fst (snd (buildFn entry mapper (this, fs))) = this.

Lemma bundle_join (theme : string) :
  isName theme = true ->
  Path.join ["themes/" ++ theme ++ "/"; "bundle.css"] = bundleKey theme.
Proof.
  intros H. rewrite <- (append_assoc "themes/" theme "/").
  rewrite (join_trailing_plain _ "bundle.css" (themes_plain _ H) eq_refl).
  unfold bundleKey. now rewrite !append_assoc.
Qed.

Lemma bundles_loop (themes : list string) :
  forallb isName themes = true ->
  forall this fs this' fs',
    forOf (fun theme =>
             let themeRelPath := "themes/" ++ theme ++ "/" in
             let themeRoot := Path.join [cssSrcDir; themeRelPath] in
             bind (buildFn (Path.join [themeRoot; "theme.css"])
                     (Some (assetUrlMapper theme))) (fun themeCss =>
             bind (write (Path.join [themeRelPath; "bundle.css"])
                     (Text themeCss)) (fun _ => ret tt)))
          themes (this, fs)
    = (Normal tt, (this', fs')) ->
    _targetDir this' = _targetDir this
    /\ (forall theme, In theme themes ->
          exists css this0 fs0 fs1,
            buildFn
              (Path.join [Path.join [cssSrcDir; "themes/" ++ theme ++ "/"];
                          "theme.css"])
              (Some (assetUrlMapper theme)) (this0, fs0)
            = (Normal css, (this0, fs1))
            /\ _targetDir this0 = _targetDir this
            /\ (forall x,
                  (forall t, In t themes -> x <> bundleKey t) ->
                  JsMap.get (_assets this0) x = JsMap.get (_assets this) x)
            /\ JsMap.get (_assets this') (bundleKey theme)
               = Some (hashedPath (bundleKey theme) (Text css)))
    /\ (forall x, (forall theme, In theme themes -> x <> bundleKey theme) ->
          JsMap.get (_assets this') x = JsMap.get (_assets this) x).
Proof.
  induction themes as [|t rest IH]; intros Hn this fs this' fs' Hrun.
  - cbn in Hrun. inversion Hrun; subst. split; [reflexivity|].
    split; [intros ? []|reflexivity].
  - cbn [forallb] in Hn. apply andb_true_iff in Hn as [Ht Hn].
    rewrite forOf_cons in Hrun. cbv zeta in Hrun. unfold bind at 1 2 in Hrun.
    pose proof (buildFn_reads
                  (Path.join [Path.join [cssSrcDir; "themes/" ++ t ++ "/"];
                              "theme.css"])
                  (Some (assetUrlMapper t)) this fs) as Hreg.
    destruct (buildFn _ _ (this, fs)) as [[css|e] [this0 fs0]] eqn:Hbuilt;
      [|discriminate].
    cbn [fst snd] in Hreg. subst this0.
    rewrite (bundle_join t Ht) in Hrun. unfold bind at 1 in Hrun.
    rewrite (write_spec this fs0 (bundleKey t) (bundleKey t) (Text css)
               (toRelPath_relative this (bundleKey t) eq_refl)) in Hrun.
    cbv zeta in Hrun.
    destruct (fst (writeContent _ (Text css) fs0)); [|discriminate].
    unfold ret at 1 in Hrun.
    destruct (IH Hn _ _ _ _ Hrun) as (Hdir & Hget & Hframe).
    cbn [_targetDir _assets] in Hdir, Hget, Hframe.
    assert (Hlater : forall theme, In theme rest ->
              exists css1 this1 fs1 fs2,
                buildFn
                  (Path.join [Path.join [cssSrcDir; "themes/" ++ theme ++ "/"];
                              "theme.css"])
                  (Some (assetUrlMapper theme)) (this1, fs1)
                = (Normal css1, (this1, fs2))
                /\ _targetDir this1 = _targetDir this
                /\ (forall x,
                      (forall t0, In t0 (t :: rest) -> x <> bundleKey t0) ->
                      JsMap.get (_assets this1) x = JsMap.get (_assets this) x)
                /\ JsMap.get (_assets this') (bundleKey theme)
                   = Some (hashedPath (bundleKey theme) (Text css1))).
    { intros theme Hin.
      destruct (Hget theme Hin) as (css1 & this1 & fs1 & fs2 & B & D & F & G).
      exists css1, this1, fs1, fs2. repeat split; try assumption.
      intros x Hx. rewrite F.
      - apply get_set_other. intros E. apply (Hx t); [now left|now rewrite E].
      - intros t0 Hin0. apply Hx. now right. }
    split; [exact Hdir|]. split.
    + intros theme [<-|Hin]; [|now apply Hlater].
      destruct (in_dec string_dec t rest) as [Hin|Hnot];
        [now apply Hlater|].
      exists css, this, fs, fs0. split; [exact Hbuilt|].
      split; [reflexivity|]. split; [reflexivity|].
      rewrite Hframe.
      * apply get_set_same.
      * intros theme Hin E. apply Hnot.
        unfold bundleKey in E. apply append_inj_l in E.
        rewrite forallb_forall in Hn. specialize (Hn _ Hin).
        unfold isName in Ht, Hn.
        apply andb_true_iff in Ht as [_ Ht].
        apply andb_true_iff in Hn as [_ Hn].
        apply negb_true_iff in Ht, Hn.
        assert (Hx : "/bundle.css" = ""
                     \/ exists r, "/bundle.css" = "/" ++ r)
          by (right; now exists "bundle.css").
        now rewrite (name_prefix_inj t theme "/bundle.css" "/bundle.css"
                       Ht Hn Hx Hx E).
    + intros x Hx. rewrite Hframe.
      * apply get_set_other. intros E. apply (Hx t); [now left | now rewrite E].
      * intros theme Hin. apply Hx. now right.
Qed.

(** X17: when [buildCssBundles] returns, [buildFn] leaving the registry as it
    finds it: the registry keeps its root; it binds [hydrogen.css] to the
    hashed path of the style sheet that [buildFn] returned for [main.css];
    for each theme it binds [themes/<theme>/bundle.css] to the hashed path
    of the style sheet that [buildFn] returned for the [theme.css] of the
    theme with the mapper of the theme, when run on a registry that differs
    from the one at the start in the bundles only; every other key is bound
    as before.  The digest in a hashed path is the one of the bytes that
    encode the style sheet in UTF-8. *)
Theorem buildCssBundles_registry (themes : list string)
    (this this' : AssetMap) (fs fs' : FS) :
  forallb isName themes = true ->
  buildCssBundles buildFn themes (this, fs) = (Normal tt, (this', fs')) ->
  directory this' = directory this
  /\ (exists css fs1,
        buildFn (Path.join [cssSrcDir; "main.css"]) None (this, fs)
        = (Normal css, (this, fs1))
        /\ JsMap.get (_assets this') "hydrogen.css"
           = Some (hashedPath "hydrogen.css" (Text css)))
  /\ (forall theme, In theme themes ->
        exists css this0 fs0 fs1,
          buildFn
            (Path.join [Path.join [cssSrcDir; "themes/" ++ theme ++ "/"];
                        "theme.css"])
            (Some (assetUrlMapper theme)) (this0, fs0)
          = (Normal css, (this0, fs1))
          /\ directory this0 = directory this
          /\ (forall x,
                x <> "hydrogen.css" ->
                (forall t, In t themes -> x <> bundleKey t) ->
                JsMap.get (_assets this0) x = JsMap.get (_assets this) x)
          /\ JsMap.get (_assets this') (bundleKey theme)
             = Some (hashedPath (bundleKey theme) (Text css)))
  /\ (forall x,
        x <> "hydrogen.css" ->
        (forall theme, In theme themes -> x <> bundleKey theme) ->
        JsMap.get (_assets this') x = JsMap.get (_assets this) x).
Proof.
  intros Hn Hrun. unfold buildCssBundles in Hrun. unfold bind at 1 in Hrun.
  pose proof (buildFn_reads (Path.join [cssSrcDir; "main.css"]) None this fs)
    as Hreg.
  destruct (buildFn _ None (this, fs)) as [[css|e] [this0 fs0]] eqn:Hbuilt;
    [|discriminate].
  cbn [fst snd] in Hreg. subst this0. unfold bind at 1 in Hrun.
  rewrite (write_spec this fs0 "hydrogen.css" "hydrogen.css" (Text css)
             (toRelPath_relative this "hydrogen.css" eq_refl)) in Hrun.
  cbv zeta in Hrun.
  destruct (fst (writeContent _ (Text css) fs0)); [|discriminate].
  destruct (bundles_loop themes Hn _ _ _ _ Hrun) as (Hdir & Hget & Hframe).
  cbn [_targetDir _assets] in Hdir, Hget, Hframe.
  split; [exact Hdir|]. split; [|split].
  - exists css, fs0. split; [reflexivity|].
    rewrite Hframe; [apply get_set_same|].
    intros theme _. discriminate.
  - intros theme Hin.
    destruct (Hget theme Hin) as (css1 & this1 & fs1 & fs2 & B & D & F & G).
    exists css1, this1, fs1, fs2. repeat split; try assumption.
    intros x Hx Hthemes. rewrite (F x Hthemes).
    apply get_set_other. congruence.
  - intros x Hx Hthemes. rewrite (Hframe x Hthemes).
    apply get_set_other. congruence.
Qed.

End BundlesFacts.

(** * Runs on the host in memory *)

(** C3, where it fails.  The registries hold the hashed paths [,b,] and
    [b,] for the one and [,b,] and [,b] for the other: one hashed path has
    changed, the sorted lists [,b, b,] and [,b ,b,] join to the same string,
    and the fingerprint is the same. *)
Lemma fingerprint_unchanged_counterexample :
  map snd (iterator commaRegistryA) = [ ",b,"; "b," ]
  /\ map snd (iterator commaRegistryB) = [ ",b,"; ",b" ]
  /\ Array_sort [ ",b,"; "b," ] = [ ",b,"; "b," ]
  /\ Array_sort [ ",b,"; ",b" ] = [ ",b"; ",b," ]
  /\ build_globalHash (host := memHost) commaRegistryA
     = build_globalHash (host := memHost) commaRegistryB.
Proof.
  split; [reflexivity|]. split; [reflexivity|].
  split; [vm_compute; reflexivity|]. split; [vm_compute; reflexivity|].
  apply comma_registries_same_fingerprint.
Qed.

(** The digest has thirty-two bits: two lists without a comma that differ in
    one hashed path, and have the same fingerprint under XXH32. *)
Example fingerprint_digest_collision :
  build_globalHash (host := memHost) digestRegistryA = 3129180818%N
  /\ build_globalHash (host := memHost) digestRegistryB = 3129180818%N.
Proof. split; vm_compute; reflexivity. Qed.

Lemma addSubMap_prefixes_entries_witness :
  nestedAt "/proj/target" "/proj/target/themes/dark" "themes/dark"
  /\ exists P',
       addSubMap
         (mkAssetMap "/proj/target/themes/dark"
            [ ("icons/send.svg", "icons/send-1.svg"); ("bg.png", "bg-2.png") ])
         (mkAssetMap "/proj/target" [ ("olm.wasm", "olm-3.wasm") ])
       = (Normal tt, P')
       /\ JsMap.get (_assets P') "themes/dark/icons/send.svg"
          = Some "themes/dark/icons/send-1.svg"
       /\ JsMap.get (_assets P') "themes/dark/bg.png"
          = Some "themes/dark/bg-2.png"
       /\ JsMap.get (_assets P') "olm.wasm" = Some "olm-3.wasm".
Proof.
  split; [reflexivity|].
  destruct (addSubMap_prefixes_entries
              (mkAssetMap "/proj/target" [ ("olm.wasm", "olm-3.wasm") ])
              (mkAssetMap "/proj/target/themes/dark"
                 [ ("icons/send.svg", "icons/send-1.svg");
                   ("bg.png", "bg-2.png") ])
              "themes/dark" eq_refl)
    as (P' & Hadd & _ & Hget & _ & _ & Hframe & Hplain).
  exists P'. split; [exact Hadd|]. split; [|split].
  - apply (Hget [] [ ("bg.png", "bg-2.png") ] "icons/send.svg"
             "icons/send-1.svg" eq_refl).
    intros k v [Heq|[]]. inversion Heq. vm_compute. discriminate.
  - apply (Hplain eq_refl).
    + repeat constructor; simpl; intuition discriminate.
    + intros k v [Heq|[Heq|[]]]; inversion Heq; split; reflexivity.
    + right. left. reflexivity.
  - rewrite (Hframe "olm.wasm"); [reflexivity|].
    intros logical hashed [Heq|[Heq|[]]]; inversion Heq; vm_compute;
      discriminate.
Defined.

Lemma resolve_after_write_witness :
  Path.isAbsolute "hydrogen.js" = false
  /\ write (host := memHost) "hydrogen.js" (Text "export {}")
       (registry0, disk0)
     = (Normal "hydrogen-2730772148.js",
        (mkAssetMap "/proj/target"
           [ ("hydrogen.js", "hydrogen-2730772148.js") ], diskHydrogen))
  /\ resolve "hydrogen.js"
       (mkAssetMap "/proj/target" [ ("hydrogen.js", "hydrogen-2730772148.js") ])
     = (Normal "hydrogen-2730772148.js",
        mkAssetMap "/proj/target" [ ("hydrogen.js", "hydrogen-2730772148.js") ]).
Proof.
  split; [reflexivity|]. split; [vm_compute; reflexivity|].
  apply (resolve_after_write (host := memHost) registry0 _ disk0 diskHydrogen
           "hydrogen.js" _ (Text "export {}")).
  - reflexivity.
  - vm_compute. reflexivity.
Defined.

Lemma write_hashed_path_witness :
  Path.isAbsolute "themes/dark/bundle.css" = false
  /\ JsMap.get
       (_assets (fst (snd (write (host := memHost) "themes/dark/bundle.css"
                             (Text "body{}") (registry0, disk0)))))
       "themes/dark/bundle.css"
     = Some "themes/dark/bundle-1399168205.css"
  /\ fst (write (host := memHost) "themes/dark/bundle.css" (Text "body{}")
            (registry0, disk0))
     = Normal "themes/dark/bundle-1399168205.css"
  /\ (forall r2,
        fst (write (host := memHost) "themes/dark/bundle.css" (Bytes "body{}")
               (mkAssetMap "/proj/target" [ ("olm.wasm", "olm-3.wasm") ],
                disk0))
        = Normal r2 ->
        "themes/dark/bundle-1399168205.css" = r2)
  /\ hashedPath (host := memHost) "themes/dark/bundle.css" (Text "body{}")
     = "themes/dark" ++ "/" ++ "bundle-1399168205.css"
  /\ hashedPath (host := memHost) "hydrogen.js" (Text "export {}")
     = "hydrogen-2730772148.js"
  /\ fst (write (host := memHost) "a.css" (Text eAcute) (registry0, disk0))
     = Normal "a-866461991.css"
  /\ (forall r2,
        fst (write (host := memHost) "a.css" (Bytes eAcuteBytes)
               (registry0, disk0))
        = Normal r2 ->
        "a-866461991.css" = r2).
Proof.
  split; [reflexivity|].
  destruct (write_hashed_path (host := memHost) registry0 disk0
              "themes/dark/bundle.css" (Text "body{}") eq_refl)
    as (Hget & _ & Hret & Hsame & Hlit & _).
  destruct (write_hashed_path (host := memHost) registry0 disk0
              "a.css" (Text eAcute) eq_refl)
    as (_ & _ & Hret' & Hsame' & _ & _).
  destruct (write_hashed_path (host := memHost) registry0 disk0
              "hydrogen.js" (Text "export {}") eq_refl)
    as (_ & _ & _ & _ & _ & Hdot).
  split; [exact Hget|]. split; [|split; [|split; [|split; [|split]]]].
  - apply (Hret (MemFs.mk (MemFs.dirs disk0)
                   [ ("/proj/target/themes/dark/bundle-1399168205.css",
                      "body{}") ])).
    vm_compute. reflexivity.
  - intros r2 H2.
    apply (Hsame (mkAssetMap "/proj/target" [ ("olm.wasm", "olm-3.wasm") ])
             disk0 (Bytes "body{}") _ r2).
    + reflexivity.
    + vm_compute. reflexivity.
    + exact H2.
  - apply Hlit; vm_compute; reflexivity.
  - apply Hdot; vm_compute; reflexivity.
  - apply (Hret' (MemFs.mk (MemFs.dirs disk0)
                    [ ("/proj/target/a-866461991.css", eAcuteBytes) ])).
    vm_compute. reflexivity.
  - intros r2 H2.
    apply (Hsame' registry0 disk0 (Bytes eAcuteBytes) _ r2).
    + reflexivity.
    + vm_compute. reflexivity.
    + exact H2.
Defined.

(** The digest is the one of the bytes: a string of the one code unit
    U+00E9 is digested as the two bytes of its encoding, and not as the one
    byte [E9]. *)
Example write_utf8 :
  Buffer_from (Text eAcute) = eAcuteBytes
  /\ hashedPath (host := memHost) "a.css" (Text eAcute) = "a-866461991.css"
  /\ hashedPath (host := memHost) "a.css" (Bytes eAcuteBytes)
     = "a-866461991.css"
  /\ hashedPath (host := memHost) "a.css" (Bytes eAcute) = "a-2514246135.css"
  /\ write (host := memHost) "a.css" (Text eAcute) (registry0, disk0)
     = (Normal "a-866461991.css",
        (mkAssetMap "/proj/target" [ ("a.css", "a-866461991.css") ],
         MemFs.mk (MemFs.dirs disk0)
           [ ("/proj/target/a-866461991.css", eAcuteBytes) ])).
Proof. repeat split; vm_compute; reflexivity. Qed.

Lemma writeUnhashed_identity_witness :
  _toRelPath "/proj/target/sw.js" registry0 = (Normal "sw.js", registry0)
  /\ JsMap.get
       (_assets (fst (snd (writeUnhashed (host := memHost) "/proj/target/sw.js"
                             (Text "self") (registry0, disk0)))))
       "sw.js"
     = Some "sw.js"
  /\ isUnhashed "index.html"
       (fst (snd (writeUnhashed (host := memHost) "index.html" (Text "self")
                    (registry0, disk0))))
     = (Normal true,
        fst (snd (writeUnhashed (host := memHost) "index.html" (Text "self")
                    (registry0, disk0)))).
Proof.
  split; [reflexivity|].
  destruct (writeUnhashed_identity (host := memHost) registry0 disk0
              (Text "self")) as (_ & _ & Hun & Hid).
  split; [|exact Hun].
  apply (Hid "/proj/target/sw.js" "sw.js"). reflexivity.
Defined.

Lemma removeDirIfExists_enoent_witness :
  removeDirIfExists (host := memHost) "/proj/target" disk0
  = (Normal tt, MemFs.mk ["/"; "/proj"] [])
  /\ removeDirIfExists (host := memHost) "/proj/nothing" disk0
     = (Normal tt, disk0)
  /\ removeDirIfExists (host := memHost) "/proj/target" diskStale
     = (Throw (MemFs.fsError "ENOTDIR" "/proj/target"), diskStale).
Proof.
  split; [|split].
  - apply (proj1 (removeDirIfExists_enoent (host := memHost) "/proj/target"
                    disk0 (MemFs.mk ["/"; "/proj"] []))).
    vm_compute. reflexivity.
  - apply (proj1 (proj2 (removeDirIfExists_enoent (host := memHost)
                           "/proj/nothing" disk0 disk0))
             (MemFs.fsError "ENOENT" "/proj/nothing")).
    + vm_compute. reflexivity.
    + reflexivity.
  - apply (proj2 (proj2 (removeDirIfExists_enoent (host := memHost)
                           "/proj/target" diskStale diskStale))
             (MemFs.fsError "ENOTDIR" "/proj/target")).
    + vm_compute. reflexivity.
    + vm_compute. discriminate.
Defined.



Lemma fingerprint_sorted_digest_witness :
  build_globalHash (host := memHost)
    (mkAssetMap "/proj/target"
       [ ("hydrogen.js", "hydrogen-1.js"); ("olm.wasm", "olm-3.wasm") ])
  = build_globalHash (host := memHost)
      (mkAssetMap "/proj/target"
         [ ("olm.wasm", "olm-3.wasm"); ("hydrogen.js", "hydrogen-1.js") ])
  /\ build_globalHash (host := memHost)
       (mkAssetMap "/proj/target"
          [ ("hydrogen.js", "hydrogen-1.js"); ("olm.wasm", "olm-3.wasm") ])
     <> build_globalHash (host := memHost)
          (mkAssetMap "/proj/target"
             [ ("hydrogen.js", "hydrogen-2.js"); ("olm.wasm", "olm-3.wasm") ]).
Proof.
  destruct (fingerprint_sorted_digest (host := memHost)) as (_ & Hperm & Hchg).
  split.
  - apply Hperm. apply perm_swap.
  - apply (Hchg "/proj/target" [] [ ("olm.wasm", "olm-3.wasm") ]
             "hydrogen.js" "hydrogen.js" "hydrogen-1.js" "hydrogen-2.js").
    + discriminate.
    + repeat constructor.
    + vm_compute. intros H. discriminate H.
Defined.

(** * More runs on the host in memory *)

Lemma write_twice_witness :
  Path.isAbsolute "hydrogen.js" = false
  /\ let this1 :=
       fst (snd (write (host := memHost) "hydrogen.js" (Text "a")
                   (registry0, disk0))) in
     let this2 :=
       fst (snd (write (host := memHost) "hydrogen.js" (Text eAcute)
                   (this1, disk0))) in
     this2
     = fst (snd (write (host := memHost) "hydrogen.js" (Text eAcute)
                   (registry0, disk0)))
     /\ size this2 = size this1
     /\ size this1
        = (if has registry0 "hydrogen.js" then size registry0
           else S (size registry0))
     /\ resolve "hydrogen.js" this2
        = (Normal (hashedPath (host := memHost) "hydrogen.js" (Text eAcute)),
           this2).
Proof.
  split; [reflexivity|].
  exact (write_twice (host := memHost) registry0 disk0 disk0 "hydrogen.js"
           (Text "a") (Text eAcute) eq_refl).
Defined.

Lemma write_frame_witness :
  JsMap.get
    (_assets
       (fst (snd (write (host := memHost) "hydrogen.js" (Text "a")
                    (mkAssetMap "/proj/target" [ ("worker.js", "worker-1.js") ],
                     disk0)))))
    "worker.js"
  = Some "worker-1.js".
Proof.
  destruct (write_frame (host := memHost)
              (mkAssetMap "/proj/target" [ ("worker.js", "worker-1.js") ])
              disk0 "hydrogen.js" "worker.js" (Text "a")
              eq_refl eq_refl ltac:(discriminate)) as (H & _).
  exact H.
Defined.

Lemma write_fails_after_recording_witness :
  exists this',
    write (host := memHost) "missing/a.js" (Text eAcute) (registry0, disk0)
    = (Throw (MemFs.fsError "ENOENT" "/proj/target/missing/a-866461991.js"),
       (this', disk0))
    /\ has this' "missing/a.js" = true
    /\ resolve "missing/a.js" this'
       = (Normal (hashedPath (host := memHost) "missing/a.js" (Text eAcute)),
          this').
Proof.
  apply (write_fails_after_recording (host := memHost) registry0 disk0 disk0
           "missing/a.js" (Text eAcute));
    [reflexivity | vm_compute; reflexivity].
Defined.

Lemma resolve_unknown_witness :
  fst (resolve "worker.js"
         (mkAssetMap "/proj/target" [ ("hydrogen.js", "hydrogen-1.js") ]))
  = Throw (Error "unknown path: worker.js, only know hydrogen.js").
Proof.
  exact (proj2 (proj2 (resolve_unknown
                         (mkAssetMap "/proj/target"
                            [ ("hydrogen.js", "hydrogen-1.js") ])
                         "worker.js" eq_refl))
           (or_introl eq_refl)).
Defined.

Lemma write_digest_before_extension_witness :
  exists stem,
    "themes/dark/bundle.css" = stem ++ ".css"
    /\ fst (write (host := memHost) "themes/dark/bundle.css" (Text eAcute)
              (registry0, disk0))
       = Normal (stem ++ "-"
                   ++ Js.toString
                        (contentHash (host := memHost)
                           (Bytes (Buffer_from (Text eAcute))))
                   ++ ".css").
Proof.
  destruct (write_digest_before_extension (host := memHost) registry0 disk0
              "themes/dark/bundle.css" (Text eAcute) eq_refl)
    as (stem & _ & Hp & _ & _ & Hret & _).
  exists stem. split; [exact Hp|].
  assert (E : fst (write (host := memHost) "themes/dark/bundle.css" (Text eAcute)
                     (registry0, disk0))
              = Normal "themes/dark/bundle-866461991.css")
    by (vm_compute; reflexivity).
  rewrite E. f_equal. exact (Hret _ E).
Defined.

Lemma absolute_spelling_witness :
  Path.isAbsolute (directory registry0) = true
  /\ write (host := memHost) "/proj/target/hydrogen.js" (Text "a")
       (registry0, disk0)
     = write (host := memHost) "hydrogen.js" (Text "a") (registry0, disk0).
Proof.
  split; [reflexivity|].
  exact (proj1 (absolute_spelling (host := memHost) registry0 disk0
                  "hydrogen.js" (Text "a") eq_refl eq_refl)).
Defined.

Lemma addSubMap_same_root_merges_witness :
  exists P',
    addSubMap
      (mkAssetMap "/proj/target"
         [ ("olm.wasm", "olm-3.wasm"); ("olm.js", "olm-2.js") ])
      (mkAssetMap "/proj/target" [ ("hydrogen.js", "hydrogen-1.js") ])
    = (Normal tt, P')
    /\ JsMap.get (_assets P') "olm.wasm" = Some "olm-3.wasm"
    /\ JsMap.get (_assets P') "olm.js" = Some "olm-2.js"
    /\ JsMap.get (_assets P') "hydrogen.js" = Some "hydrogen-1.js".
Proof.
  destruct (addSubMap_same_root_merges
              (mkAssetMap "/proj/target" [ ("hydrogen.js", "hydrogen-1.js") ])
              (mkAssetMap "/proj/target"
                 [ ("olm.wasm", "olm-3.wasm"); ("olm.js", "olm-2.js") ])
              eq_refl)
    as (P' & Hadd & _ & Hget & Hframe).
  - repeat constructor; simpl; intuition discriminate.
  - intros k v [E|[E|[]]]; inversion E; split; reflexivity.
  - exists P'. split; [exact Hadd|]. split; [|split].
    + apply Hget. now left.
    + apply Hget. right. now left.
    + rewrite Hframe; [reflexivity|].
      intros k v [E|[E|[]]]; inversion E; discriminate.
Defined.

Lemma buildServiceWorker_registers_witness :
  buildServiceWorker (host := memHost) 7 (swRegistry, swDisk)
  = (Normal tt,
     (mkAssetMap "/proj/target"
        [ ("hydrogen.js", "hydrogen-2730772148.js");
          ("font.woff", "font-77.woff");
          ("manifest.json", "manifest.json");
          ("sw.js", "sw.js") ],
      MemFs.mk ["/"; "/proj"; "/proj/src"; "/proj/target"]
        [ ("/proj/src/service-worker.template.js", text swPieces);
          ("/proj/target/sw.js", swWritten) ])).
Proof.
  destruct (proj2 (buildServiceWorker_registers (host := memHost) 7
                     swRegistry swDisk)
              swPieces swDisk eq_refl ltac:(repeat constructor) eq_refl)
    as (Hrun & _).
  etransitivity; [exact Hrun|]. vm_compute. reflexivity.
Defined.

(** A path of the registry that is a placeholder: the third [replace] finds
    it in the list that the second one wrote, before the placeholder of the
    template. *)
Example placeholder_in_path :
  snd (snd (buildServiceWorker (host := memHost) 7
              (mkAssetMap "/proj/target"
                 [ ("%%HASHED_PRECACHED_ASSETS%%",
                    "%%HASHED_PRECACHED_ASSETS%%");
                   ("hydrogen.js", "hydrogen-2730772148.js") ],
               swDisk)))
  = MemFs.mk ["/"; "/proj"; "/proj/src"; "/proj/target"]
      [ ("/proj/src/service-worker.template.js", text swPieces);
        ("/proj/target/sw.js",
         "const VERSION = " ++ Js.quoted "7"
         ++ "; const UNHASHED = [" ++ Js.quoted "index.html" ++ ",["
         ++ Js.quoted "hydrogen-2730772148.js"
         ++ "]]; const HASHED = " ++ placeholder HashedPrecachedAssets
         ++ "; const ON_REQUEST = []; const AGAIN = "
         ++ placeholder GlobalHash ++ ";") ].
Proof. vm_compute. reflexivity. Qed.

Lemma placeholder_replaced_witness :
  JsText.replace swTemplate (Js.quoted "%%UNHASHED_PRECACHED_ASSETS%%")
    (JsText.stringify [ "index.html"; "sw.js" ])
  = "const UNHASHED = " ++ JsText.stringify [ "index.html"; "sw.js" ] ++ ";".
Proof.
  assert (Hpaths : Forall (fun s => mentions "$"%char s = false)
                     [ "index.html"; "sw.js" ])
    by (repeat constructor).
  generalize (placeholder_replaced swTemplate
                (Js.quoted "%%UNHASHED_PRECACHED_ASSETS%%") 42%N
                [ "index.html"; "sw.js" ] Hpaths).
  vm_compute. intros (_ & _ & H). exact H.
Defined.

Lemma copyFolder_steps_witness :
  copyFolder (host := memHost) memMkdir darkFolder
    "/proj/src/ui/web/css/themes/dark" "/proj/target/themes/dark/"
    (Some notCss) disk0
  = let out :=
      run_steps (host := memHost) memMkdir
        [ StepMkdir "/proj/target/themes/dark/icons";
          StepWrite "icons/send.svg" (Bytes "<svg/>");
          StepWrite "bg.png" (Bytes "PNG") ]
        (mkAssetMap "/proj/target/themes/dark" [], disk0) in
    (match fst out with
     | Normal _ => Normal (fst (snd out))
     | Throw e => Throw e
     end, snd (snd out)).
Proof.
  exact (copyFolder_steps (host := memHost) memMkdir (Some notCss)
           "proj/src/ui/web/css/themes/dark" "proj/target/themes/dark"
           darkFolder false true disk0 eq_refl eq_refl eq_refl).
Defined.

Lemma copyFolder_registry_witness :
  exists assets fs',
    copyFolder (host := memHost) memMkdir darkFolder
      "/proj/src/ui/web/css/themes/dark" "/proj/target/themes/dark/"
      (Some notCss) disk0
    = (Normal assets, fs')
    /\ directory assets = "/proj/target/themes/dark"
    /\ iterator assets
       = [ ("icons/send.svg",
            hashedPath (host := memHost) "icons/send.svg" (Bytes "<svg/>"));
           ("bg.png", hashedPath (host := memHost) "bg.png" (Bytes "PNG")) ].
Proof.
  exists (mkAssetMap "/proj/target/themes/dark"
            [ ("icons/send.svg", "icons/send-3815257811.svg");
              ("bg.png", "bg-251211592.png") ]).
  exists (MemFs.mk
            [ "/"; "/proj"; "/proj/target"; "/proj/target/themes";
              "/proj/target/themes/dark"; "/proj/target/themes/dark/icons" ]
            [ ("/proj/target/themes/dark/icons/send-3815257811.svg", "<svg/>");
              ("/proj/target/themes/dark/bg-251211592.png", "PNG") ]).
  assert (Hrun : copyFolder (host := memHost) memMkdir darkFolder
                   ("/" ++ "proj/src/ui/web/css/themes/dark" ++ slashIf false)
                   ("/" ++ "proj/target/themes/dark" ++ slashIf true)
                   (Some notCss) disk0
                 = (Normal
                      (mkAssetMap "/proj/target/themes/dark"
                         [ ("icons/send.svg", "icons/send-3815257811.svg");
                           ("bg.png", "bg-251211592.png") ]),
                    MemFs.mk
                      [ "/"; "/proj"; "/proj/target"; "/proj/target/themes";
                        "/proj/target/themes/dark";
                        "/proj/target/themes/dark/icons" ]
                      [ ("/proj/target/themes/dark/icons/send-3815257811.svg",
                         "<svg/>");
                        ("/proj/target/themes/dark/bg-251211592.png", "PNG") ]))
    by (vm_compute; reflexivity).
  split; [exact Hrun|].
  exact (copyFolder_registry (host := memHost) memMkdir (Some notCss)
           "proj/src/ui/web/css/themes/dark" "proj/target/themes/dark"
           darkFolder false true disk0 _ _ eq_refl eq_refl eq_refl eq_refl
           Hrun).
Defined.

Lemma copyThemeAssets_run :
  copyThemeAssets (host := memHost) memMkdir [ ("dark", darkFolder) ]
    (registry0, disk0)
  = (Normal tt, (darkRegistry, darkDisk)).
Proof. vm_compute. reflexivity. Qed.

Lemma copyThemeAssets_registry_witness :
  copyThemeAssets (host := memHost) memMkdir [ ("dark", darkFolder) ]
    (registry0, disk0)
  = (Normal tt, (darkRegistry, darkDisk))
  /\ resolve "themes/dark/icons/send.svg" darkRegistry
     = (Normal
          ("themes/dark/"
             ++ hashedPath (host := memHost) "icons/send.svg" (Bytes "<svg/>")),
        darkRegistry)
  /\ Js.endsWith "icons/send.svg" ".css" = false.
Proof.
  split; [exact copyThemeAssets_run|].
  apply (proj1 (proj2 (copyThemeAssets_registry (host := memHost) memMkdir
                         "proj/src/ui/web/css" "proj/target" true
                         [ ("dark", darkFolder) ] registry0 darkRegistry
                         disk0 darkDisk eq_refl eq_refl eq_refl eq_refl
                         eq_refl copyThemeAssets_run))
           "dark" darkFolder "icons/send.svg" (Bytes "<svg/>")).
  - now left.
  - vm_compute. now left.
Defined.

Lemma assetUrlMapper_round_trip_witness :
  assetUrlMapper (host := memHost) "dark"
    "/proj/src/ui/web/css/themes/dark/icons/send.svg" darkRegistry
  = (Normal (Some (hashedPath (host := memHost) "icons/send.svg"
                     (Bytes "<svg/>"))), darkRegistry)
  /\ assetUrlMapper (host := memHost) "dark"
       "/proj/src/ui/web/css/main.css" darkRegistry
     = (Throw (Error ("resource is out of theme directory: "
                      ++ "/proj/src/ui/web/css/main.css")), darkRegistry).
Proof.
  destruct (assetUrlMapper_round_trip (host := memHost) memMkdir
              "proj/src/ui/web/css" "proj/target" true
              [ ("dark", darkFolder) ] registry0 darkRegistry
              disk0 darkDisk eq_refl eq_refl eq_refl eq_refl
              eq_refl copyThemeAssets_run "dark" darkFolder
              (or_introl eq_refl)) as [Hout Hin].
  split.
  - apply (Hin "icons/send.svg" (Bytes "<svg/>")). vm_compute. now left.
  - apply Hout. reflexivity.
Defined.

Lemma createDirs_folders_witness :
  createDirs (host := memHost) memMkdir "/proj/target/" [ "dark"; "light" ]
    (MemFs.mk [ "/"; "/proj" ] [])
  = forOf memMkdir
      [ "/proj/target/"; "/proj/target/themes"; "/proj/target/themes/dark";
        "/proj/target/themes/light" ]
      (MemFs.mk [ "/"; "/proj" ] [])
  /\ Path.join [directory (new_AssetMap (host := memHost) "/proj/target/");
                "themes/" ++ "dark"]
     = "/proj/target/themes/dark".
Proof.
  destruct (createDirs_folders (host := memHost) memMkdir "proj/target" true
              [ "dark"; "light" ] (MemFs.mk [ "/"; "/proj" ] [])
              eq_refl eq_refl) as [Hrun Hdir].
  split; [exact Hrun | apply Hdir; now left].
Defined.

Lemma memBuildFn_reads :
  forall entry mapper this fs,
    fst (snd (memBuildFn entry mapper (this, fs))) = this.
Proof.
  intros entry [m|] this fs; unfold memBuildFn; cbn [fst];
    [destruct (m _ this) as [[[u|]|e] ?]|]; reflexivity.
Qed.

Lemma buildCssBundles_registry_witness :
  buildCssBundles (host := memHost) memBuildFn [ "dark" ]
    (darkRegistry, darkDisk)
  = (Normal tt, (bundledRegistry, bundledDisk))
  /\ (exists css fs1,
        memBuildFn (Path.join [cssSrcDir (host := memHost); "main.css"]) None
          (darkRegistry, darkDisk)
        = (Normal css, (darkRegistry, fs1))
        /\ JsMap.get (_assets bundledRegistry) "hydrogen.css"
           = Some (hashedPath (host := memHost) "hydrogen.css" (Text css)))
  /\ JsMap.get (_assets bundledRegistry) "hydrogen.css"
     = Some "hydrogen-4179790218.css".
Proof.
  assert (Hrun : buildCssBundles (host := memHost) memBuildFn [ "dark" ]
                   (darkRegistry, darkDisk)
                 = (Normal tt, (bundledRegistry, bundledDisk)))
    by (vm_compute; reflexivity).
  split; [exact Hrun|]. split; [|reflexivity].
  exact (proj1 (proj2
           (buildCssBundles_registry (host := memHost) memBuildFn
              memBuildFn_reads [ "dark" ] darkRegistry bundledRegistry
              darkDisk bundledDisk eq_refl Hrun))).
Defined.
